(** * opfs-cache: a shallow embedding of the path resolver, the OPFS
    file-system adapter and the cache facade, with the properties of the
    specification stated over them.

    Layout of the development
    - [JsString]: the JavaScript string primitives the sources call
      ([indexOf], [substring], [split], [endsWith], [join]).
    - [URLParser], [JSON], [Response]: what the sources consume from the
      browser and do not implement, the first two as interfaces with the
      laws the proofs use, the third with the checks of its constructor;
      [RefURL] and [RefJSON] are an instance of each interface, for the
      statements that are run.
    - [PathResolver]: [resolvePath] of [src/path.ts].
    - [Storage]: the directory tree behind the OPFS handles, the handle
      calls, and the journal of calls.
    - [OPFSFileSystem]: the adapter of [src/fs.ts].
    - [OPFSCache]: the facade of [src/cache.ts].
    - [Outcome], [Examples]: the vocabulary of the statements and the
      storages they are run on.
    - Properties: the lemmas on the calls, on reading, writing, removing
      and listing, and the theorems of the specification's claims.
    - Further properties: what the resolver, the adapter and the cache
      do beyond the claims (X1 to X20). *)

From Stdlib Require Import ZArith String Ascii List Lia.
From Stdlib Require Import DecimalString DecimalZ DecimalPos.
From stdpp Require Import gmap strings list fin_maps.

Set Default Proof Using "Type".

(* ===================================================================== *)
(** ** JavaScript string primitives *)
(* ===================================================================== *)

Module JsString.

(** [s.indexOf(c)] for a one-character needle; [None] stands for -1. *)
Fixpoint indexOf (c : ascii) (s : string) : option nat :=
  match s with
  | EmptyString => None
  | String a rest =>
      if Ascii.eqb a c then Some 0
      else match indexOf c rest with
           | Some i => Some (S i)
           | None => None
           end
  end.

(** [s.substring(start, stop)] and [s.substring(start)]. *)
Definition substring (s : string) (start stop : nat) : string :=
  String.substring start (stop - start) s.

Definition substring_from (s : string) (start : nat) : string :=
  String.substring start (String.length s - start) s.

(** [s.split(sep)] for a one-character separator: never the empty list,
    and [split sep "" = [""]] as in JavaScript. *)
Fixpoint split (sep : ascii) (s : string) : list string :=
  match s with
  | EmptyString => [EmptyString]
  | String a rest =>
      if Ascii.eqb a sep then EmptyString :: split sep rest
      else match split sep rest with
           | [] => [String a EmptyString]
           | hd :: tl => String a hd :: tl
           end
  end.

(** [segs.join(sep)]. *)
Definition join (sep : string) (segs : list string) : string :=
  String.concat sep segs.

(** [s.endsWith(suffix)]. *)
Definition endsWith (s suffix : string) : bool :=
  let n := String.length s in
  let m := String.length suffix in
  (m <=? n)%nat && String.eqb (String.substring (n - m) m s) suffix.

(** Whether the character occurs in the string. *)
Definition includes (c : ascii) (s : string) : bool :=
  match indexOf c s with Some _ => true | None => false end.

End JsString.

(* ===================================================================== *)
(** ** Results of fallible code *)
(* ===================================================================== *)

(** The exceptions the sources throw or let through. A [DOMException] is
    told apart by its [name], as [isNotFound] of [src/error.ts] does. *)
Inductive exn :=
  | Error (message : string)
  | TypeError (message : string)
  | RangeError (message : string)
  | SyntaxError
  | DOMException (name : string).

Inductive result (A : Type) :=
  | Ok (a : A)
  | Err (e : exn).
Arguments Ok {A} a.
Arguments Err {A} e.

Definition NotFoundError : exn := DOMException "NotFoundError".
Definition TypeMismatchError : exn := DOMException "TypeMismatchError".
Definition InvalidModificationError : exn :=
  DOMException "InvalidModificationError".

(** [isNotFound(err)] *)
Definition isNotFound (err : exn) : bool :=
  match err with
  | DOMException name => String.eqb name "NotFoundError"
  | _ => false
  end.

Definition is_type_error {A} (r : result A) : Prop :=
  exists message, r = Err (TypeError message).

#[global] Instance exn_eq_dec : EqDecision exn.
Proof. solve_decision. Defined.

(* ===================================================================== *)
(** ** The platform: URL parsing *)
(* ===================================================================== *)

(** A parsed URL, as far as the sources read it: its serialization and
    the two components [resolvePath] takes from it. *)
Record URL := mkURL { href : string; pathname : string; search : string }.

(** A request-like object: the sources read its [url] only. For a
    request made from an absolute URL this is the serialization of the
    URL ([Request_of] below); for the requests [OPFSCache.keys] makes
    from a path, the path is kept as it is: the platform resolves it
    against the base URL of the page, which the model has none of. *)
Record Request := mkRequest { url : string }.

(** The platform's URL parser ([new URL(s)]; [None] where it throws and
    [URL.canParse(s)] is false), with two facts about it:
    - the serialization of a parsed URL parses again, to the same
      pathname and search;
    - an absolute URL has a scheme, so a string without a colon is none. *)
Class URLParser := {
  URL_parse : string -> option URL;
  URL_parse_href :
    forall s u,
      URL_parse s = Some u ->
      exists u',
        URL_parse (href u) = Some u' /\
        pathname u' = pathname u /\ search u' = search u;
  URL_parse_scheme :
    forall s u, URL_parse s = Some u -> JsString.includes ":" s = true
}.

Definition URL_canParse `{URLParser} (s : string) : bool :=
  match URL_parse s with Some _ => true | None => false end.


(* ===================================================================== *)
(** ** The path resolver ([src/path.ts]) *)
(* ===================================================================== *)

Module PathResolver.
Import JsString.

Record ResolvedPath := mkResolvedPath { dir : list string; file : string }.

(** [RequestInfo | URL], and whatever else reaches the function at run
    time, where the last branch of the source applies. *)
Inductive RequestInfo :=
  | ReqString (s : string)
  | ReqRequest (r : Request)
  | ReqURL (u : URL)
  | ReqOther.

Definition dquote : string := String (ascii_of_nat 34) EmptyString.

Definition is_dot_segment (seg : string) : bool :=
  String.eqb seg "." || String.eqb seg "..".

(** [pathname.split("/").filter((s) => s.length > 0)] *)
Definition segments_of (pathname : string) : list string :=
  List.filter (fun s => (0 <? String.length s)%nat) (split "/" pathname).

Section Resolver.
Context `{URLParser}.

(** Lines 13-37: the pathname and the search of the key. *)
Definition extract (request : RequestInfo) : result (string * string) :=
  match request with
  | ReqString s =>
      if URL_canParse s then
        match URL_parse s with
        | Some u => Ok (pathname u, search u)
        | None => Err (TypeError "Invalid URL")
        end
      else
        match indexOf "?" s with
        | None => Ok (s, EmptyString)
        | Some qIndex => Ok (substring s 0 qIndex, substring_from s qIndex)
        end
  | ReqRequest r =>
      match URL_parse (url r) with
      | Some u => Ok (pathname u, search u)
      | None => Err (TypeError "Invalid URL")
      end
  | ReqURL u => Ok (pathname u, search u)
  | ReqOther => Err (TypeError "Expected a string, Request, or URL")
  end.

(** Lines 39-53: split, the two guards, and the pop. *)
Definition finish (pathname search : string) : result ResolvedPath :=
  let segments := segments_of pathname in
  if (List.length segments =? 0)%nat then
    Err (TypeError "Path resolved to zero segments")
  else
    match List.find is_dot_segment segments with
    | Some seg =>
        Err (TypeError ("Invalid path segment: " +:+ dquote +:+ seg +:+ dquote))
    | None =>
        match last segments with
        | Some popped =>
            Ok (mkResolvedPath (removelast segments) (popped +:+ search))
        | None => Err (TypeError "Path resolved to zero segments")
        end
    end.

Definition resolvePath (request : RequestInfo) : result ResolvedPath :=
  match extract request with
  | Ok (pathname, search) => finish pathname search
  | Err e => Err e
  end.
End Resolver.

End PathResolver.

(* ===================================================================== *)
(** ** The platform: JSON and the response carrier *)
(* ===================================================================== *)

(** Modelled from the spec: [CacheEntryMeta] of [src/types.ts], which is
    not among the sources; section 3 gives its three fields, and
    [OPFSCache.put] builds it with exactly these. The headers are the
    string-keyed object [Object.fromEntries] returns. *)
Record CacheEntryMeta := mkMeta {
  headers : gmap string string;
  status : Z;
  statusText : string
}.

(** What the [Response] constructor has in hand as [init.headers] once
    the value is converted: the members of an object in the order of its
    properties, the items of an array of arrays, or nothing, where the
    value is one the conversion refuses (a number, a string, a boolean,
    an array with an item that is no array, a name or a value with a
    character outside Latin-1). *)
Inductive HeadersInit :=
  | HeadersRecord (members : list (string * string))
  | HeadersSequence (items : list (list string))
  | HeadersRefused.

(** What the constructor has in hand as [init.statusText]: the string
    of the value, or nothing, where the string has a character outside
    Latin-1, which the conversion to a byte string refuses. *)
Inductive StatusTextInit :=
  | StatusText (text : string)
  | StatusTextRefused.

(** What [JSON.parse] hands back, as far as [OPFSCache.match] reads it.
    Each of the three properties may be missing from the parsed value
    (or be [null], which [??] takes for missing as well); one that is
    there is held the way the [Response] constructor converts it: the
    status as the [unsigned short] of the value, the status text as a
    [StatusTextInit], the headers as a [HeadersInit]. *)
Record JsonMeta := mkJsonMeta {
  json_headers : option HeadersInit;
  json_status : option Z;
  json_statusText : option StatusTextInit
}.

Definition json_of_meta (m : CacheEntryMeta) : JsonMeta :=
  mkJsonMeta (Some (HeadersRecord (map_to_list (headers m))))
             (Some (status m)) (Some (StatusText (statusText m))).

(** [JSON.stringify] on a [CacheEntryMeta] and [JSON.parse] ([None] where
    it throws a [SyntaxError]), with the round trip between them: the
    status and the status text come back, and so do the headers, as the
    members of an object, in the order the platform keeps them in. *)
Class JSON := {
  JSON_stringify : CacheEntryMeta -> string;
  JSON_parse : string -> option JsonMeta;
  JSON_parse_stringify :
    forall m, exists members,
      JSON_parse (JSON_stringify m)
      = Some (mkJsonMeta (Some (HeadersRecord members))
                         (Some (status m)) (Some (StatusText (statusText m)))) /\
      members ≡ₚ map_to_list (headers m)
}.

(** The response carrier. [body] is [None] for a null body, else the
    bytes the stream delivers. [headers] is the header list as it is
    read back from the response: one value for each name, the name in
    lower case, and the values of a name that was appended more than
    once joined by a comma and a space. *)
Module Response.
Record t := make {
  body : option string;
  bodyUsed : bool;
  status : Z;
  statusText : string;
  headers : gmap string string
}.

(** The bytes read from the body; a null body reads as no bytes. *)
Definition bytes (r : t) : string :=
  match body r with Some b => b | None => EmptyString end.

(** [response.headers] iterated, and [Object.fromEntries] of that. *)
Definition entries (r : t) : list (string * string) := map_to_list (headers r).

(** [init] of [new Response(body, init)], its members converted. *)
Record init := mkInit {
  init_status : Z;
  init_statusText : StatusTextInit;
  init_headers : HeadersInit
}.

Fixpoint every (P : ascii -> bool) (s : string) : bool :=
  match s with
  | EmptyString => true
  | String c rest => P c && every P rest
  end.

(** The statuses the constructor takes, and among them those of a
    response that has no body. *)
Definition status_in_range (s : Z) : bool := (200 <=? s)%Z && (s <=? 599)%Z.

Definition null_body_status (s : Z) : bool :=
  (s =? 101)%Z || (s =? 103)%Z || (s =? 204)%Z || (s =? 205)%Z || (s =? 304)%Z.

(** A reason phrase: tabs, spaces, and the visible and the high bytes. *)
Definition is_reason_phrase_char (c : ascii) : bool :=
  let n := nat_of_ascii c in
  (n =? 9)%nat || (n =? 32)%nat || ((33 <=? n)%nat && (n <=? 126)%nat)
  || (128 <=? n)%nat.

Definition is_reason_phrase (text : string) : bool :=
  every is_reason_phrase_char text.

(** A header name is a token that is not empty. *)
Definition is_token_char (c : ascii) : bool :=
  let n := nat_of_ascii c in
  ((48 <=? n)%nat && (n <=? 57)%nat) || ((65 <=? n)%nat && (n <=? 90)%nat)
  || ((97 <=? n)%nat && (n <=? 122)%nat)
  || JsString.includes c "!#$%&'*+-.^_`|~".

Definition is_header_name (name : string) : bool :=
  (0 <? String.length name)%nat && every is_token_char name.

(** A header value is normalized before it is looked at: the white space
    at its two ends is taken off. What is left must hold no NUL and no
    line break. *)
Definition is_http_whitespace (c : ascii) : bool :=
  let n := nat_of_ascii c in
  (n =? 9)%nat || (n =? 10)%nat || (n =? 13)%nat || (n =? 32)%nat.

Fixpoint strip_leading (s : string) : string :=
  match s with
  | EmptyString => EmptyString
  | String c rest => if is_http_whitespace c then strip_leading rest else s
  end.

Fixpoint strip_trailing (s : string) : string :=
  match s with
  | EmptyString => EmptyString
  | String c rest =>
      match strip_trailing rest with
      | EmptyString =>
          if is_http_whitespace c then EmptyString else String c EmptyString
      | kept => String c kept
      end
  end.

Definition normalize (value : string) : string :=
  strip_trailing (strip_leading value).

Definition is_header_value (value : string) : bool :=
  every (fun c => let n := nat_of_ascii c in
                  negb ((n =? 0)%nat || (n =? 10)%nat || (n =? 13)%nat))
        value.

(** Names are compared and read back in lower case. *)
Definition lower_char (c : ascii) : ascii :=
  let n := nat_of_ascii c in
  if (65 <=? n)%nat && (n <=? 90)%nat then ascii_of_nat (n + 32) else c.

Fixpoint lower (s : string) : string :=
  match s with
  | EmptyString => EmptyString
  | String c rest => String (lower_char c) (lower rest)
  end.

(** The names a response made by a script leaves out without a word. *)
Definition is_forbidden_name (name : string) : bool :=
  String.eqb (lower name) "set-cookie" || String.eqb (lower name) "set-cookie2".

(** One header appended to the header list of a response. *)
Definition append (name value : string) (h : gmap string string)
  : result (gmap string string) :=
  let value := normalize value in
  if negb (is_header_name name && is_header_value value) then
    Err (TypeError "Invalid header")
  else if is_forbidden_name name then Ok h
  else
    Ok (<[lower name := match h !! lower name with
                        | Some held => held +:+ ", " +:+ value
                        | None => value
                        end]> h).

Fixpoint fill_members (members : list (string * string))
    (h : gmap string string) : result (gmap string string) :=
  match members with
  | [] => Ok h
  | (name, value) :: rest =>
      match append name value h with
      | Ok h' => fill_members rest h'
      | Err e => Err e
      end
  end.

Fixpoint fill_items (items : list (list string)) (h : gmap string string)
  : result (gmap string string) :=
  match items with
  | [] => Ok h
  | [name; value] :: rest =>
      match append name value h with
      | Ok h' => fill_items rest h'
      | Err e => Err e
      end
  | _ :: _ => Err (TypeError "Invalid header pair")
  end.

(** The header list of a new response, filled from [init.headers]. *)
Definition fill (i : HeadersInit) : result (gmap string string) :=
  match i with
  | HeadersRecord members => fill_members members ∅
  | HeadersSequence items => fill_items items ∅
  | HeadersRefused => Err (TypeError "Invalid headers")
  end.

(** [new Response(body, init)], in the order of the platform's checks:
    the conversion of [init], the range of the status, the status text,
    the headers, and last the body, which a null body status excludes.
    The messages of the errors are the platform's own; the ones here
    stand for them. *)
Definition new_ (body : option string) (i : init) : result t :=
  match init_headers i, init_statusText i with
  | HeadersRefused, _ => Err (TypeError "Invalid headers")
  | _, StatusTextRefused => Err (TypeError "Invalid status text")
  | headers, StatusText text =>
      if negb (status_in_range (init_status i)) then
        Err (RangeError "Status out of range")
      else if negb (is_reason_phrase text) then
        Err (TypeError "Invalid status text")
      else
        match fill headers with
        | Err e => Err e
        | Ok h =>
            match body with
            | Some _ =>
                if null_body_status (init_status i) then
                  Err (TypeError "Body with a null body status")
                else Ok (make body false (init_status i) text h)
            | None => Ok (make None false (init_status i) text h)
            end
        end
  end.

(** A header the constructor reads back as it is given: a name in lower
    case that it does not leave out, and a value that is normalized. *)
Definition kept_header (name value : string) : bool :=
  is_header_name name && String.eqb (lower name) name
  && negb (is_forbidden_name name)
  && String.eqb (normalize value) value && is_header_value value.

(** A response the constructor builds again, beside a body, from the
    status, the status text and the headers read off it. *)
Definition rebuildable (r : t) : bool :=
  status_in_range (status r) && negb (null_body_status (status r))
  && is_reason_phrase (statusText r)
  && forallb (fun kv => kept_header (fst kv) (snd kv)) (entries r).
End Response.

Definition Object_fromEntries (kvs : list (string * string)) : gmap string string :=
  list_to_map kvs.

(* ===================================================================== *)
(** ** The storage behind the handles *)
(* ===================================================================== *)

Module Storage.

(** An entry of a directory: a file with its bytes, or a directory. *)
#[warnings="-register-all"] Inductive node :=
  | File (data : string)
  | Dir (entries : gmap string node).

Abbreviation directory := (gmap string node).

(** A directory handle is the path of the directory below the cache
    root; a file handle is the directory handle and the file's name. *)
Abbreviation handle := (list string).
Record file_handle := mkFileHandle { parent : handle; fname : string }.

(** A writable stream: the file it will replace on [close], and what
    has been written to it so far. *)
Record writable := mkWritable { target : file_handle; buffer : string }.

Fixpoint resolve_dir (d : directory) (h : handle) : option directory :=
  match h with
  | [] => Some d
  | seg :: rest =>
      match d !! seg with
      | Some (Dir sub) => resolve_dir sub rest
      | _ => None
      end
  end.

Fixpoint modify_dir (f : directory -> directory) (h : handle) (d : directory)
  : directory :=
  match h with
  | [] => f d
  | seg :: rest =>
      match d !! seg with
      | Some (Dir sub) => <[seg := Dir (modify_dir f rest sub)]> d
      | _ => d
      end
  end.

(** The calls made on handles; the journal keeps them in order. *)
Inductive call :=
  | GetDirectoryHandle (dir : handle) (name : string) (create : bool)
  | GetFileHandle (dir : handle) (name : string) (create : bool)
  | GetFile (f : file_handle)
  | CreateWritable (f : file_handle)
  | WritableWrite (f : file_handle) (data : string)
  | WritableClose (f : file_handle)
  | RemoveEntry (dir : handle) (name : string)
  | Entries (dir : handle).

#[global] Instance file_handle_eq_dec : EqDecision file_handle.
Proof. solve_decision. Defined.

#[global] Instance call_eq_dec : EqDecision call.
Proof. solve_decision. Defined.

(** What the journal keeps of a call: the call, whether it returned
    (or threw), and the content of the root directory after it. *)
Record entry := mkEntry { made : call; returned : bool; content : directory }.

(** The state: the content of the cache's root directory, and the
    journal of the calls made so far. An execution cut short after a call
    leaves the content journalled with that call. *)
Record storage := mkStorage {
  root : directory;
  journal : list entry
}.

Definition io (A : Type) : Type := storage -> result A * storage.

Definition ret {A} (a : A) : io A := fun st => (Ok a, st).
Definition throw {A} (e : exn) : io A := fun st => (Err e, st).
Definition bind {A B} (m : io A) (k : A -> io B) : io B :=
  fun st =>
    match m st with
    | (Ok a, st') => k a st'
    | (Err e, st') => (Err e, st')
    end.

(** [try { body } catch (err) { handler }] *)
Definition try_catch {A} (body : io A) (handler : exn -> io A) : io A :=
  fun st =>
    match body st with
    | (Ok a, st') => (Ok a, st')
    | (Err e, st') => handler e st'
    end.

Definition is_ok {A} (r : result A) : bool :=
  match r with Ok _ => true | Err _ => false end.

(** The state after one more call. *)
Definition logged (st : storage) (c : call) (ok : bool) (d : directory)
  : storage :=
  mkStorage d (journal st ++ [mkEntry c ok d]).

(** One call on a handle: run it on the content and journal it. *)
Definition perform {A} (c : call) (f : directory -> result A * directory)
  : io A :=
  fun st =>
    let (r, d) := f (root st) in (r, logged st c (is_ok r) d).

(** The calls on a directory handle, on the content of the root. The
    platform refuses a name that is no valid file name (the empty name,
    ".", "..", a name with a slash or another separator of the system
    below) with a [TypeError], before it looks into the directory. No
    directory holds such a name, and the three calls that take a name
    are modelled on the names the platform takes; [portable_name] below
    tells of a name that it is one of them on every system. *)
Definition getDirectoryHandle_on (h : handle) (name : string) (create : bool)
    (d : directory) : result handle * directory :=
  match resolve_dir d h with
  | None => (Err NotFoundError, d)
  | Some es =>
      match es !! name with
      | Some (Dir _) => (Ok (h ++ [name]), d)
      | Some (File _) => (Err TypeMismatchError, d)
      | None =>
          if create
          then (Ok (h ++ [name]), modify_dir (insert name (Dir ∅)) h d)
          else (Err NotFoundError, d)
      end
  end.

Definition getFileHandle_on (h : handle) (name : string) (create : bool)
    (d : directory) : result file_handle * directory :=
  match resolve_dir d h with
  | None => (Err NotFoundError, d)
  | Some es =>
      match es !! name with
      | Some (File _) => (Ok (mkFileHandle h name), d)
      | Some (Dir _) => (Err TypeMismatchError, d)
      | None =>
          if create
          then (Ok (mkFileHandle h name),
                modify_dir (insert name (File EmptyString)) h d)
          else (Err NotFoundError, d)
      end
  end.

Definition read_file (f : file_handle) (d : directory) : option string :=
  match resolve_dir d (parent f) with
  | Some es =>
      match es !! fname f with
      | Some (File data) => Some data
      | _ => None
      end
  | None => None
  end.

Definition getFile_on (f : file_handle) (d : directory)
  : result string * directory :=
  match read_file f d with
  | Some data => (Ok data, d)
  | None => (Err NotFoundError, d)
  end.

Definition createWritable_on (f : file_handle) (d : directory)
  : result writable * directory :=
  match read_file f d with
  | Some _ => (Ok (mkWritable f EmptyString), d)
  | None => (Err NotFoundError, d)
  end.

Definition close_on (w : writable) (d : directory) : result unit * directory :=
  match read_file (target w) d with
  | Some _ =>
      (Ok tt,
       modify_dir (insert (fname (target w)) (File (buffer w)))
                  (parent (target w)) d)
  | None => (Err NotFoundError, d)
  end.

(** [removeEntry] removes a file or an empty directory; on a directory
    with entries it throws. *)
Definition removeEntry_on (h : handle) (name : string) (d : directory)
  : result unit * directory :=
  match resolve_dir d h with
  | None => (Err NotFoundError, d)
  | Some es =>
      match es !! name with
      | None => (Err NotFoundError, d)
      | Some (File _) => (Ok tt, modify_dir (delete name) h d)
      | Some (Dir sub) =>
          if bool_decide (map_to_list sub = [])
          then (Ok tt, modify_dir (delete name) h d)
          else (Err InvalidModificationError, d)
      end
  end.

Definition getDirectoryHandle (h : handle) (name : string) (create : bool)
  : io handle :=
  perform (GetDirectoryHandle h name create) (getDirectoryHandle_on h name create).

Definition getFileHandle (h : handle) (name : string) (create : bool)
  : io file_handle :=
  perform (GetFileHandle h name create) (getFileHandle_on h name create).

Definition getFile (f : file_handle) : io string :=
  perform (GetFile f) (getFile_on f).

Definition createWritable (f : file_handle) : io writable :=
  perform (CreateWritable f) (createWritable_on f).

Definition write (w : writable) (data : string) : io writable :=
  perform (WritableWrite (target w) data)
          (fun d => (Ok (mkWritable (target w) (buffer w +:+ data)), d)).

Definition close (w : writable) : io unit :=
  perform (WritableClose (target w)) (close_on w).

(** [body.pipeTo(writable)] for a body that delivers its bytes: they
    are written, then the stream is closed. A body whose stream is
    locked by a reader, or fails before its end, makes the platform's
    [pipeTo] reject instead and leaves the file as it was; such a body
    is none of the bodies here, and what is stated about a [write] that
    got this far is stated for a body that can be read to its end. *)
Definition pipeTo (body : string) (w : writable) : io unit :=
  bind (write w body) close.

Definition removeEntry (h : handle) (name : string) : io unit :=
  perform (RemoveEntry h name) (removeEntry_on h name).

(** A fresh cache: an empty root and no call made. *)
Definition empty : storage := mkStorage ∅ [].

End Storage.

Declare Scope io_scope.
Delimit Scope io_scope with io.
Notation "'let*' x ':=' m 'in' k" := (Storage.bind m (fun x => k))
  (at level 10, x name, m at level 100, k at level 200) : io_scope.

(* ===================================================================== *)
(** ** The file-system adapter ([src/fs.ts]) *)
(* ===================================================================== *)

Module OPFSFileSystem.
Import JsString Storage.
#[local] Open Scope io_scope.

Definition META_SUFFIX : string := ".meta".

(** The memoized root handle: the empty path. The root directory itself
    is taken as given. *)
Definition getRoot : io handle := ret [].

(** The loop of [navigate], from the directory reached so far. *)
Fixpoint navigate_from (dir : handle) (segments : list string) (create : bool)
  : io (option handle) :=
  match segments with
  | [] => ret (Some dir)
  | seg :: rest =>
      fun st =>
        match getDirectoryHandle dir seg create st with
        | (Ok dir', st') => navigate_from dir' rest create st'
        | (Err err, st') =>
            if negb create && isNotFound err then (Ok None, st')
            else (Err err, st')
        end
  end.

Definition navigate (segments : list string) (create : bool)
  : io (option handle) :=
  let* dir := getRoot in navigate_from dir segments create.

Definition rethrow_unless_not_found {A} (miss : A) (err : exn) : io A :=
  if isNotFound err then ret miss else throw err.

Definition exists_ (dirSegments : list string) (fileName : string) : io bool :=
  let* dir := navigate dirSegments false in
  match dir with
  | None => ret false
  | Some dir =>
      try_catch (let* _ := getFileHandle dir fileName false in ret true)
                (rethrow_unless_not_found false)
  end.

(** The loop body of [walk] for one entry of a directory, and [walk]
    over all of them. The sub-walks are joined before the result is
    read; their results are taken in the order of the iteration. *)
Fixpoint walk_entry (prefix : list string) (name : string) (n : node)
  : list (list string) :=
  match n with
  | Dir sub =>
      map_fold (fun nm ch acc => walk_entry (prefix ++ [name]) nm ch ++ acc) [] sub
  | File _ =>
      if negb (endsWith name META_SUFFIX) then [prefix ++ [name]] else []
  end.

Definition walk (dir : directory) (prefix : list string) : list (list string) :=
  map_fold (fun nm ch acc => walk_entry prefix nm ch ++ acc) [] dir.

(** The directories [walk] iterates, for the journal. *)
Fixpoint walked_entry (prefix : list string) (name : string) (n : node)
  : list (list string) :=
  match n with
  | Dir sub =>
      (prefix ++ [name])
        :: map_fold (fun nm ch acc => walked_entry (prefix ++ [name]) nm ch ++ acc)
                    [] sub
  | File _ => []
  end.

Definition walked (dir : directory) : list (list string) :=
  [] :: map_fold (fun nm ch acc => walked_entry [] nm ch ++ acc) [] dir.

Definition list : io (Datatypes.list (Datatypes.list string)) :=
  let* _ := getRoot in
  fun st =>
    (Ok (walk (root st) []),
     mkStorage (root st)
       (journal st
          ++ map (fun h => mkEntry (Entries h) true (root st)) (walked (root st)))).

(** The first loop of [cleanEmptyDirs]: [None] where it returns early. *)
Fixpoint collect_parents (dir : handle) (segments : Datatypes.list string)
    (parents : Datatypes.list handle) : io (option (Datatypes.list handle)) :=
  match segments with
  | [] => ret (Some parents)
  | seg :: rest =>
      fun st =>
        match getDirectoryHandle dir seg false st with
        | (Ok dir', st') => collect_parents dir' rest (parents ++ [dir']) st'
        | (Err _, st') => (Ok None, st')
        end
  end.

(** The second loop, over [parents[i]] and [segments[i]] from the
    deepest to the shallowest. *)
Fixpoint remove_upwards (steps : Datatypes.list (handle * string)) : io unit :=
  match steps with
  | [] => ret tt
  | (parent, seg) :: rest =>
      fun st =>
        match removeEntry parent seg st with
        | (Ok _, st') => remove_upwards rest st'
        | (Err _, st') => (Ok tt, st')
        end
  end.

Definition cleanEmptyDirs (segments : Datatypes.list string) : io unit :=
  if (length segments =? 0)%nat then ret tt
  else
    let* dir := getRoot in
    let* parents := collect_parents dir (firstn (length segments - 1) segments) [dir] in
    match parents with
    | None => ret tt
    | Some parents => remove_upwards (rev (zip parents segments))
    end.

Definition delete (dirSegments : Datatypes.list string) (fileName : string)
  : io bool :=
  let* dir := navigate dirSegments false in
  match dir with
  | None => ret false
  | Some dir =>
      let* existed := try_catch (let* _ := removeEntry dir fileName in ret true)
                           (rethrow_unless_not_found false) in
      let* _ := try_catch (removeEntry dir (fileName +:+ META_SUFFIX))
                     (rethrow_unless_not_found tt) in
      let* _ := (if existed : bool then cleanEmptyDirs dirSegments else ret tt) in
      ret existed
  end.

Section WithJSON.
Context `{JSON}.

Definition parse_meta (text : string) : io (option JsonMeta) :=
  match JSON_parse text with
  | Some meta => ret (Some meta)
  | None => throw SyntaxError
  end.

Definition readEntry (dirSegments : Datatypes.list string) (fileName : string)
  : io (option (string * option JsonMeta)) :=
  let* dir := navigate dirSegments false in
  match dir with
  | None => ret None
  | Some dir =>
      try_catch
        (let* handle := getFileHandle dir fileName false in
         let* file := getFile handle in
         let* meta := try_catch
                   (let* metaHandle := getFileHandle dir (fileName +:+ META_SUFFIX) false in
                    let* metaFile := getFile metaHandle in
                    parse_meta metaFile)
                   (rethrow_unless_not_found None) in
         ret (Some (file, meta)))
        (rethrow_unless_not_found None)
  end.

Definition write (dirSegments : Datatypes.list string) (fileName : string)
    (body : option string) (meta : CacheEntryMeta) : io unit :=
  let* dir := navigate dirSegments true in
  match dir with
  | None => throw (Error "Failed to create directory structure")
  | Some dir =>
      let* metaHandle := getFileHandle dir (fileName +:+ META_SUFFIX) true in
      let* metaWritable := createWritable metaHandle in
      let* metaWritable := Storage.write metaWritable (JSON_stringify meta) in
      let* _ := close metaWritable in
      let* fileHandle := getFileHandle dir fileName true in
      let* writable := createWritable fileHandle in
      match body with
      | None => close writable
      | Some body => pipeTo body writable
      end
  end.

End WithJSON.
End OPFSFileSystem.

(* ===================================================================== *)
(** ** The cache facade ([src/cache.ts]) *)
(* ===================================================================== *)

Module OPFSCache.
Import JsString Storage PathResolver.
#[local] Open Scope io_scope.

Section WithPlatform.
Context `{URLParser} `{JSON}.

(** [resolvePath] inside an operation: its error is thrown before the
    operation makes any call. *)
Definition resolved (request : RequestInfo) : io ResolvedPath :=
  match resolvePath request with
  | Ok p => ret p
  | Err e => throw e
  end.

Definition match_ (request : RequestInfo) : io (option Response.t) :=
  let* p := resolved request in
  let* entry := OPFSFileSystem.readEntry (dir p) (file p) in
  match entry with
  | None => ret None
  | Some (data, meta) =>
      match Response.new_ (Some data)
              (Response.mkInit
                 (default 200%Z (meta ≫= json_status))
                 (default (StatusText EmptyString) (meta ≫= json_statusText))
                 (default (HeadersRecord []) (meta ≫= json_headers))) with
      | Ok response => ret (Some response)
      | Err e => throw e
      end
  end.

Definition put (request : RequestInfo) (response : Response.t) : io unit :=
  if Response.bodyUsed response then
    throw (TypeError "Response body has already been consumed")
  else
    let* p := resolved request in
    let meta := mkMeta (Object_fromEntries (Response.entries response))
                       (Response.status response)
                       (Response.statusText response) in
    OPFSFileSystem.write (dir p) (file p) (Response.body response) meta.

Definition delete (request : RequestInfo) : io bool :=
  let* p := resolved request in
  OPFSFileSystem.delete (dir p) (file p).

(** The requests are made from paths, [new Request("/" + ...)], and
    are held by their path. *)
Definition keys (request : option RequestInfo) : io (list Request) :=
  match request with
  | Some request =>
      let* p := resolved request in
      let* found := OPFSFileSystem.exists_ (dir p) (file p) in
      if found : bool then
        ret [mkRequest ("/" +:+ join "/" (dir p ++ [file p]))]
      else ret []
  | None =>
      let* entries := OPFSFileSystem.list in
      ret (map (fun segs => mkRequest ("/" +:+ join "/" segs)) entries)
  end.

End WithPlatform.
End OPFSCache.

(* ===================================================================== *)
(** ** A reference URL parser *)
(* ===================================================================== *)

(** A parser for [http] and [https] URLs that are already in serialized
    form: scheme, a non-empty host, a path that starts with a slash and
    has no dot segment, then the query and the fragment. On these the
    serialization is the input itself. It stands in for the platform's
    parser where a closed example needs one. *)
Module RefURL.
Import JsString.

Fixpoint strip_prefix (p s : string) : option string :=
  match p with
  | EmptyString => Some s
  | String a p' =>
      match s with
      | String b s' => if Ascii.eqb a b then strip_prefix p' s' else None
      | EmptyString => None
      end
  end.

(** The part of [s] before the first [c], and the part from it on. *)
Definition cut_at (c : ascii) (s : string) : string * string :=
  match indexOf c s with
  | Some i => (substring s 0 i, substring_from s i)
  | None => (s, EmptyString)
  end.

Definition after_scheme (s : string) : option string :=
  match strip_prefix "https://" s with
  | Some rest => Some rest
  | None => strip_prefix "http://" s
  end.

Definition parse (s : string) : option URL :=
  match after_scheme s with
  | None => None
  | Some rest =>
      let (host, tail) := cut_at "/" rest in
      let (before_hash, _) := cut_at "#" tail in
      let (path, query) := cut_at "?" before_hash in
      if (String.length host =? 0)%nat || (String.length path =? 0)%nat
         || includes "?" host || includes "#" host
         || existsb PathResolver.is_dot_segment (split "/" path)
      then None
      else Some (mkURL s path
                   (if (String.length query =? 1)%nat then EmptyString else query))
  end.

End RefURL.

(* ===================================================================== *)
(** ** A reference JSON codec for the sidecar *)
(* ===================================================================== *)

(** The text [JSON.stringify] gives for a [CacheEntryMeta], and a parser
    for texts of that layout (members in this order, no white space, the
    headers read member by member as they are written). It stands in
    for the platform's JSON where a closed example needs one. *)
Module RefJSON.

Definition dq : ascii := ascii_of_nat 34.
Definition backslash : ascii := ascii_of_nat 92.

Definition hex_digits : string := "0123456789abcdef".

Definition hex_digit (n : nat) : ascii :=
  match String.get n hex_digits with Some c => c | None => "0"%char end.

Definition hex_value (c : ascii) : option nat := JsString.indexOf c hex_digits.

(** The two-character escapes of JSON, by the character they stand for. *)
Definition short_escape (c : ascii) : option ascii :=
  if Ascii.eqb c dq then Some dq
  else if Ascii.eqb c backslash then Some backslash
  else if Ascii.eqb c (ascii_of_nat 8) then Some "b"%char
  else if Ascii.eqb c (ascii_of_nat 12) then Some "f"%char
  else if Ascii.eqb c (ascii_of_nat 10) then Some "n"%char
  else if Ascii.eqb c (ascii_of_nat 13) then Some "r"%char
  else if Ascii.eqb c (ascii_of_nat 9) then Some "t"%char
  else None.

Definition short_unescape (e : ascii) : option ascii :=
  if Ascii.eqb e dq then Some dq
  else if Ascii.eqb e backslash then Some backslash
  else if Ascii.eqb e "/"%char then Some "/"%char
  else if Ascii.eqb e "b"%char then Some (ascii_of_nat 8)
  else if Ascii.eqb e "f"%char then Some (ascii_of_nat 12)
  else if Ascii.eqb e "n"%char then Some (ascii_of_nat 10)
  else if Ascii.eqb e "r"%char then Some (ascii_of_nat 13)
  else if Ascii.eqb e "t"%char then Some (ascii_of_nat 9)
  else None.

Definition escape_char (c : ascii) : string :=
  match short_escape c with
  | Some e => String backslash (String e EmptyString)
  | None =>
      if (nat_of_ascii c <? 32)%nat then
        String backslash
          (String "u" (String "0" (String "0"
             (String (hex_digit (nat_of_ascii c / 16))
                (String (hex_digit (nat_of_ascii c mod 16)) EmptyString)))))
      else String c EmptyString
  end.

Fixpoint escape (s : string) : string :=
  match s with
  | EmptyString => EmptyString
  | String c rest => escape_char c +:+ escape rest
  end.

Definition quote (s : string) : string :=
  String dq (escape s +:+ String dq EmptyString).

Definition prepend (c : ascii) (r : option (string * string))
  : option (string * string) :=
  match r with
  | Some (s, rest) => Some (String c s, rest)
  | None => None
  end.

Definition hex4 (h1 h2 h3 h4 : ascii) : option nat :=
  match hex_value h1, hex_value h2, hex_value h3, hex_value h4 with
  | Some a, Some b, Some c, Some d => Some (((a * 16 + b) * 16 + c) * 16 + d)
  | _, _, _, _ => None
  end.

(** The characters of a string literal after its opening quote, up to
    the closing one; the text after it is returned too. *)
Fixpoint read_chars (s : string) : option (string * string) :=
  match s with
  | EmptyString => None
  | String c rest =>
      if Ascii.eqb c dq then Some (EmptyString, rest)
      else if Ascii.eqb c backslash then
        match rest with
        | String e rest1 =>
            match short_unescape e with
            | Some d => prepend d (read_chars rest1)
            | None =>
                if Ascii.eqb e "u" then
                  match rest1 with
                  | String h1 (String h2 (String h3 (String h4 rest2))) =>
                      match hex4 h1 h2 h3 h4 with
                      | Some code =>
                          if (code <? 256)%nat
                          then prepend (ascii_of_nat code) (read_chars rest2)
                          else None
                      | None => None
                      end
                  | _ => None
                  end
                else None
            end
        | EmptyString => None
        end
      else if (nat_of_ascii c <? 32)%nat then None
      else prepend c (read_chars rest)
  end.

Definition read_string (s : string) : option (string * string) :=
  match s with
  | String c rest => if Ascii.eqb c dq then read_chars rest else None
  | EmptyString => None
  end.

Definition is_number_char (c : ascii) : bool :=
  JsString.includes c "-0123456789".

Fixpoint read_number_text (s : string) : string * string :=
  match s with
  | EmptyString => (EmptyString, EmptyString)
  | String c rest =>
      if is_number_char c then
        let (n, rest') := read_number_text rest in (String c n, rest')
      else (EmptyString, s)
  end.

Definition print_number (z : Z) : string :=
  NilZero.string_of_int (Z.to_int z).

Definition read_number (s : string) : option (Z * string) :=
  let (text, rest) := read_number_text s in
  match NilZero.int_of_string text with
  | Some d => Some (Z.of_int d, rest)
  | None => None
  end.

Definition print_member (kv : string * string) : string :=
  quote (fst kv) +:+ ":" +:+ quote (snd kv).

Definition print_object (kvs : list (string * string)) : string :=
  "{" +:+ JsString.join "," (map print_member kvs) +:+ "}".

Definition read_member (s : string) : option ((string * string) * string) :=
  match read_string s with
  | Some (k, rest) =>
      match RefURL.strip_prefix ":" rest with
      | Some rest1 =>
          match read_string rest1 with
          | Some (v, rest2) => Some ((k, v), rest2)
          | None => None
          end
      | None => None
      end
  | None => None
  end.

(** The members after the first, each behind its comma, up to the closing
    brace. *)
Fixpoint read_more_members (fuel : nat) (s : string)
  : option (list (string * string) * string) :=
  match s with
  | EmptyString => None
  | String c rest =>
      if Ascii.eqb c "}" then Some ([], rest)
      else if Ascii.eqb c "," then
        match fuel with
        | O => None
        | S fuel' =>
            match read_member rest with
            | Some (kv, rest1) =>
                match read_more_members fuel' rest1 with
                | Some (kvs, rest2) => Some (kv :: kvs, rest2)
                | None => None
                end
            | None => None
            end
        end
      else None
  end.

Definition read_object (s : string) : option (list (string * string) * string) :=
  match s with
  | String c rest =>
      if Ascii.eqb c "{" then
        match rest with
        | String c' rest' =>
            if Ascii.eqb c' "}" then Some ([], rest')
            else
              match read_member rest with
              | Some (kv, rest1) =>
                  match read_more_members (String.length rest1) rest1 with
                  | Some (kvs, rest2) => Some (kv :: kvs, rest2)
                  | None => None
                  end
              | None => None
              end
        | EmptyString => None
        end
      else None
  | EmptyString => None
  end.

Definition stringify (m : CacheEntryMeta) : string :=
  "{" +:+ quote "headers" +:+ ":" +:+ print_object (map_to_list (headers m))
  +:+ "," +:+ quote "status" +:+ ":" +:+ print_number (status m)
  +:+ "," +:+ quote "statusText" +:+ ":" +:+ quote (statusText m) +:+ "}".

Definition parse (s : string) : option JsonMeta :=
  rest ← RefURL.strip_prefix ("{" +:+ quote "headers" +:+ ":") s;
  '(kvs, rest) ← read_object rest;
  rest ← RefURL.strip_prefix ("," +:+ quote "status" +:+ ":") rest;
  '(st, rest) ← read_number rest;
  rest ← RefURL.strip_prefix ("," +:+ quote "statusText" +:+ ":") rest;
  '(text, rest) ← read_string rest;
  match rest with
  | String c EmptyString =>
      if Ascii.eqb c "}"
      then Some (mkJsonMeta (Some (HeadersRecord kvs)) (Some st)
                   (Some (StatusText text)))
      else None
  | _ => None
  end.

End RefJSON.

(* ===================================================================== *)
(** ** The vocabulary of the statements *)
(* ===================================================================== *)

Module Outcome.
Import Storage.

(** The name of the sidecar of a data file. *)
Definition sidecar (fileName : string) : string :=
  fileName +:+ OPFSFileSystem.META_SUFFIX.

(** Calls between [st] and [st'] that changed nothing: the content is the
    same, and every call journalled in between left that content. *)
Definition read_only (st st' : storage) : Prop :=
  root st' = root st /\
  exists calls : list (call * bool),
    journal st' =
    journal st ++ map (fun c => mkEntry (fst c) (snd c) (root st)) calls.

(** Where a walk down [segs] that creates nothing ends: in a directory,
    at a missing segment ([Ok None]), or at a file standing in the way. *)
Fixpoint locate (d : directory) (segs : list string)
  : result (option directory) :=
  match segs with
  | [] => Ok (Some d)
  | seg :: rest =>
      match d !! seg with
      | Some (Dir sub) => locate sub rest
      | Some (File _) => Err TypeMismatchError
      | None => Ok None
      end
  end.

(** No file stands where the walk down [segs] needs a directory. *)
Fixpoint dirs_clear (d : directory) (segs : list string) : bool :=
  match segs with
  | [] => true
  | seg :: rest =>
      match d !! seg with
      | Some (Dir sub) => dirs_clear sub rest
      | Some (File _) => false
      | None => true
      end
  end.

Definition not_a_directory (n : option node) : bool :=
  match n with Some (Dir _) => false | _ => true end.

(** The entry can be written: the directories can be walked or made, and
    neither the data file's name nor the sidecar's is taken by a
    directory. *)
Definition writable_at (d : directory) (dirSegments : list string)
    (fileName : string) : bool :=
  dirs_clear d dirSegments &&
  match resolve_dir d dirSegments with
  | Some es =>
      not_a_directory (es !! fileName) &&
      not_a_directory (es !! sidecar fileName)
  | None => true
  end.

(** A file of that name is in the directory. *)
Definition data_file_present (es : directory) (fileName : string) : bool :=
  match es !! fileName with Some (File _) => true | _ => false end.

(** The entries [removeEntry] took away, in the order of the calls. *)
Definition removals_of (l : list entry) : list (handle * string) :=
  omap (fun e =>
          match made e with
          | RemoveEntry h name => if returned e then Some (h, name) else None
          | _ => None
          end) l.

Definition removed (st : storage) : list (handle * string) :=
  removals_of (journal st).

(** The journal up to and with the first entry of the call [c]. *)
Fixpoint up_to_call (c : call) (seen rest : list entry) : option (list entry) :=
  match rest with
  | [] => None
  | e :: rest' =>
      if bool_decide (made e = c) then Some (seen ++ [e])
      else up_to_call c (seen ++ [e]) rest'
  end.

(** The storage as an execution leaves it that ran from [before] towards
    [after] and was cut short right after its first call [c]. *)
Definition cut_short (before : storage) (c : call) (after : storage)
  : option storage :=
  match up_to_call c [] (drop (length (journal before)) (journal after)) with
  | Some made_so_far =>
      match last made_so_far with
      | Some e => Some (mkStorage (content e) (journal before ++ made_so_far))
      | None => None
      end
  | None => None
  end.

(** A call of the walk down the directories. *)
Definition is_navigation (e : entry) : Prop :=
  exists h name create, made e = GetDirectoryHandle h name create.

(** The calls [write] makes on the sidecar and on the data file, with
    the contents they leave. *)
Definition sidecar_calls (dirSegments : list string) (fileName text : string)
    (opened closed : directory) : list entry :=
  let f := mkFileHandle dirSegments (sidecar fileName) in
  [mkEntry (GetFileHandle dirSegments (sidecar fileName) true) true opened;
   mkEntry (CreateWritable f) true opened;
   mkEntry (WritableWrite f text) true opened;
   mkEntry (WritableClose f) true closed].

Definition data_calls (dirSegments : list string) (fileName : string)
    (body : option string) (opened closed : directory) : list entry :=
  let f := mkFileHandle dirSegments fileName in
  [mkEntry (GetFileHandle dirSegments fileName true) true opened;
   mkEntry (CreateWritable f) true opened]
  ++ match body with
     | Some bytes => [mkEntry (WritableWrite f bytes) true opened]
     | None => []
     end
  ++ [mkEntry (WritableClose f) true closed].

(** What [getFileHandle] with [create] does to a directory where the
    name is not taken: an empty file appears. *)
Definition touch (name : string) (es : directory) : directory :=
  match es !! name with
  | None => <[name := File EmptyString]> es
  | Some _ => es
  end.

(** The content [write] leaves, from the content after the walk down. *)
Definition written (dirSegments : list string) (fileName text : string)
    (body : option string) (d1 : directory) : directory * directory * directory * directory :=
  let d2 := modify_dir (touch (sidecar fileName)) dirSegments d1 in
  let d3 := modify_dir (insert (sidecar fileName) (File text)) dirSegments d2 in
  let d4 := modify_dir (touch fileName) dirSegments d3 in
  let d5 := modify_dir (insert fileName (File (default EmptyString body)))
              dirSegments d4 in
  (d2, d3, d4, d5).

(** A directory that holds nothing but the chain of directories [segs],
    with [leaf] as the content of the last. *)
Fixpoint chain (segs : list string) (leaf : directory) : directory :=
  match segs with
  | [] => leaf
  | seg :: rest => {[ seg := Dir (chain rest leaf) ]}
  end.

(** The removals of a climb from the end of [segs] up to [above]: the
    deepest directory first. *)
Fixpoint climb_from (above : handle) (segs : list string)
  : list (handle * string) :=
  match segs with
  | [] => []
  | seg :: rest => climb_from (above ++ [seg]) rest ++ [(above, seg)]
  end.

(** The handles [cleanEmptyDirs] collects below [dir] on its way down. *)
Fixpoint below (dir : handle) (segs : list string) : list handle :=
  match segs with
  | [] => []
  | seg :: rest => (dir ++ [seg]) :: below (dir ++ [seg]) rest
  end.

(** The two files of an entry. *)
Definition entry_files (fileName data meta_text : string) : directory :=
  {[ fileName := File data; sidecar fileName := File meta_text ]}.

(** The directory after the walk down [segs] that makes what is
    missing. *)
Fixpoint mkdirs (segs : list string) (d : directory) : directory :=
  match segs with
  | [] => d
  | seg :: rest =>
      match d !! seg with
      | Some (Dir sub) => <[seg := Dir (mkdirs rest sub)]> d
      | Some (File _) => d
      | None => <[seg := Dir (mkdirs rest ∅)]> d
      end
  end.

(** The number of directories in a tree, the measure of the induction
    on trees. *)
Fixpoint node_size (n : node) : nat :=
  match n with
  | File _ => 0
  | Dir es => S (map_fold (fun _ ch acc => node_size ch + acc) 0 es)
  end.

(** Whether [path], read from node [n], ends on a file. *)
Fixpoint file_at (n : node) (path : list string) : bool :=
  match path, n with
  | [], File _ => true
  | seg :: rest, Dir es =>
      match es !! seg with
      | Some ch => file_at ch rest
      | None => false
      end
  | _, _ => false
  end.

(** Whatever it returns, the operation leaves the content as it was. *)
Definition keeps_content {A} (m : io A) : Prop :=
  forall st, root (snd (m st)) = root st.

(** The bytes of the file [path] ends on, read from node [n]. *)
Fixpoint file_content (n : node) (path : list string) : option string :=
  match path, n with
  | [], File data => Some data
  | seg :: rest, Dir es =>
      match es !! seg with
      | Some ch => file_content ch rest
      | None => None
      end
  | _, _ => None
  end.

(** The entry is not there: a directory of its path is missing, or the
    last one holds neither the data file nor the sidecar. *)
Definition absent (d : directory) (dirSegments : list string) (fileName : string)
  : Prop :=
  locate d dirSegments = Ok None \/
  exists es,
    resolve_dir d dirSegments = Some es /\
    es !! fileName = None /\ es !! sidecar fileName = None.

(** What [match] makes of a data file and of the parsed sidecar beside
    it: the response the constructor builds, or its error. *)
Definition matched (data : string) (meta : option JsonMeta)
  : result (option Response.t) :=
  match Response.new_ (Some data)
          (Response.mkInit
             (default 200%Z (meta ≫= json_status))
             (default (StatusText EmptyString) (meta ≫= json_statusText))
             (default (HeadersRecord []) (meta ≫= json_headers))) with
  | Ok response => Ok (Some response)
  | Err e => Err e
  end.

(** A name that the platform takes for a file or a directory whatever
    the system below it: not empty, neither "." nor "..", and without a
    slash or a backslash. A handle call that is given any other name for
    an entry that is not there may be refused with a [TypeError]. *)
Definition portable_name (name : string) : bool :=
  (0 <? String.length name)%nat
  && negb (PathResolver.is_dot_segment name)
  && negb (JsString.includes "/" name)
  && negb (JsString.includes "\" name).

(** The call is made on the file, or asks for its handle. *)
Definition on_file (f : file_handle) (c : call) : bool :=
  match c with
  | GetFileHandle dir name _ => bool_decide (mkFileHandle dir name = f)
  | GetFile g | CreateWritable g | WritableWrite g _ | WritableClose g =>
      bool_decide (g = f)
  | _ => false
  end.

End Outcome.

(* ===================================================================== *)
(** ** Helpers of the reference codec's proofs *)
(* ===================================================================== *)

Module RefJSONAux.
Import RefJSON.

(** Every character of the string passes the test. *)
Fixpoint all_chars (P : ascii -> bool) (s : string) : bool :=
  match s with
  | EmptyString => true
  | String c rest => P c && all_chars P rest
  end.


(** The members of an object after the first, as they are printed. *)
Fixpoint more_members (kvs : list (string * string)) : string :=
  match kvs with
  | [] => EmptyString
  | kv :: rest => "," +:+ print_member kv +:+ more_members rest
  end.


End RefJSONAux.

(* ===================================================================== *)
(** ** Responses and storages the examples run on *)
(* ===================================================================== *)

Module Examples.
Import Storage PathResolver.

(** The metadata [put] stores for a response. *)
Definition meta_of (response : Response.t) : CacheEntryMeta :=
  mkMeta (Object_fromEntries (Response.entries response))
         (Response.status response) (Response.statusText response).


(** What [match] returns for a response that was put, where the
    constructor builds it again: the stored bytes as a body that is
    unread, under the status, the status text and the headers. *)
Definition as_matched (response : Response.t) : Response.t :=
  Response.make (Some (Response.bytes response)) false
    (Response.status response) (Response.statusText response)
    (Response.headers response).


Definition hello : Response.t :=
  Response.make (Some "hello") false 200 "OK"
    {[ "content-type" := "text/plain" ]}.

Definition gone : Response.t :=
  Response.make (Some "new") false 404 "Not Found" ∅.

(** A response without a body, [new Response(null, {status: 204})]. *)
Definition no_content : Response.t :=
  Response.make None false 204 EmptyString ∅.


Definition data_url : string := "https://localhost:3000/data".



Section WithPlatform.
Context `{URLParser} `{JSON}.

Definition plain_meta : CacheEntryMeta := mkMeta ∅ 200 "OK".

(** One entry under a/b/c, and the same with a second one under a/b/d. *)
Definition only_entry : storage :=
  snd (OPFSFileSystem.write ["a"; "b"; "c"] "f" (Some "data") plain_meta
         Storage.empty).

Definition with_sibling : storage :=
  snd (OPFSFileSystem.write ["a"; "b"; "d"] "g" (Some "more") plain_meta
         only_entry).


(** The storage after [hello] was put at "/data", and the second [put]
    on the key, complete and cut short right after the sidecar's
    [close]. *)
Definition stored : storage :=
  snd (OPFSCache.put (ReqString "/data") hello Storage.empty).

Definition overwritten : storage :=
  snd (OPFSCache.put (ReqString "/data") gone stored).

Definition sidecar_closed : call :=
  WritableClose (mkFileHandle [] "data.meta").

Definition crashed : storage :=
  default Storage.empty (Outcome.cut_short stored sidecar_closed overwritten).

(** The storage after one [put] on the key "/x.meta", and after a
    second. *)
Definition put_once : storage :=
  snd (OPFSCache.put (ReqString "/x.meta") hello Storage.empty).

Definition put_twice : storage :=
  snd (OPFSCache.put (ReqString "/x.meta") gone put_once).

(** A response whose body is the text of a sidecar with the status
    204. *)
Definition sidecar_like : Response.t :=
  Response.make (Some (JSON_stringify (mkMeta ∅ 204 EmptyString))) false 200 "OK" ∅.

(** The storage after a [put] on "/a/b/c", after a [put] on "/a/b",
    which fails on the directory b and leaves its sidecar, and after a
    [delete] on each of the two keys: the directory a is left, empty. *)
Definition abc_stored : storage :=
  snd (OPFSCache.put (ReqString "/a/b/c") hello Storage.empty).

Definition ab_refused : storage :=
  snd (OPFSCache.put (ReqString "/a/b") gone abc_stored).

Definition abc_deleted : storage :=
  snd (OPFSCache.delete (ReqString "/a/b/c") ab_refused).

Definition ab_deleted : storage :=
  snd (OPFSCache.delete (ReqString "/a/b") abc_deleted).


End WithPlatform.

(** An empty directory under the name of the data file. *)
Definition directory_in_the_way : storage :=
  mkStorage {[ "a" := Dir ∅ ]} [].


(** A data file alone, and one beside a sidecar that is no JSON. *)
Definition bare_file : storage := mkStorage {[ "data" := File "payload" ]} [].

Definition broken_sidecar : storage :=
  mkStorage {[ "data" := File "payload"; "data.meta" := File "{" ]} [].


End Examples.

(* ===================================================================== *)
(** * Properties *)
(* ===================================================================== *)

Import JsString Storage PathResolver Outcome Examples.

#[local] Arguments String.append !_ _ : simpl nomatch.

Section ResolverFacts.
Context `{URLParser}.

Lemma canParse_needs_scheme (s : string) :
  includes ":" s = false -> URL_canParse s = false.
Proof.
  intros Hs. unfold URL_canParse.
  destruct (URL_parse s) as [u|] eqn:Hu; [|reflexivity].
  apply URL_parse_scheme in Hu. congruence.
Qed.

Lemma segments_of_nonempty (pathname seg : string) :
  In seg (segments_of pathname) -> seg <> EmptyString.
Proof.
  unfold segments_of. intros Hin%filter_In. destruct Hin as [_ Hlen].
  intros ->. discriminate Hlen.
Qed.

Lemma is_dot_segment_true (seg : string) :
  is_dot_segment seg = true <-> seg = "." \/ seg = "..".
Proof.
  unfold is_dot_segment. rewrite orb_true_iff, !String.eqb_eq. tauto.
Qed.

Lemma is_dot_segment_false (seg : string) :
  is_dot_segment seg = false <-> seg <> "." /\ seg <> "..".
Proof.
  unfold is_dot_segment. rewrite orb_false_iff, !String.eqb_neq. tauto.
Qed.

Lemma finish_Ok (pathname search : string) (p : ResolvedPath) :
  finish pathname search = Ok p ->
  exists popped,
    segments_of pathname = dir p ++ [popped] /\
    file p = popped +:+ search /\
    Forall (fun seg => is_dot_segment seg = false) (segments_of pathname).
Proof.
  unfold finish.
  destruct (length (segments_of pathname) =? 0)%nat; [discriminate|].
  destruct (find is_dot_segment (segments_of pathname)) eqn:Hfind; [discriminate|].
  destruct (last (segments_of pathname)) as [popped|] eqn:Hlast; [|discriminate].
  intros [= <-]. exists popped. simpl.
  apply last_Some in Hlast as [front Hfront].
  rewrite Hfront, removelast_last. repeat split.
  rewrite <- Hfront. apply List.Forall_forall. intros seg Hin.
  destruct (is_dot_segment seg) eqn:Hdot; [|reflexivity].
  eapply find_none in Hfind; eauto.
Qed.

Lemma finish_rejects (pathname search : string) :
  segments_of pathname = [] \/
  Exists (fun seg => seg = "." \/ seg = "..") (segments_of pathname) ->
  is_type_error (finish pathname search).
Proof.
  unfold finish, is_type_error. intros [Hnil | Hdot].
  - rewrite Hnil. simpl. eauto.
  - destruct (length (segments_of pathname) =? 0)%nat; [eauto|].
    destruct (find is_dot_segment (segments_of pathname)) eqn:Hfind; [eauto|].
    exfalso. apply List.Exists_exists in Hdot as (seg & Hin & Hseg).
    eapply find_none in Hfind; eauto.
    apply is_dot_segment_true in Hseg. congruence.
Qed.

End ResolverFacts.

Lemma app_assoc_str (a b c : string) : (a +:+ b) +:+ c = a +:+ (b +:+ c).
Proof. induction a as [|x a IH]; simpl; [reflexivity | now rewrite IH]. Qed.

Lemma app_nil_r_str (a : string) : a +:+ EmptyString = a.
Proof. induction a as [|x a IH]; simpl; [reflexivity | now rewrite IH]. Qed.

Lemma length_app_str (a b : string) :
  String.length (a +:+ b) = String.length a + String.length b.
Proof. induction a as [|x a IH]; simpl; [reflexivity | now rewrite IH]. Qed.

Lemma strip_prefix_app (p r : string) : RefURL.strip_prefix p (p +:+ r) = Some r.
Proof.
  induction p as [|a p IH]; simpl; [reflexivity|].
  now rewrite Ascii.eqb_refl.
Qed.

Lemma strip_prefix_Some (p s r : string) :
  RefURL.strip_prefix p s = Some r -> s = p +:+ r.
Proof.
  revert s. induction p as [|a p IH]; simpl; intros s Hs.
  - now injection Hs as ->.
  - destruct s as [|b s]; [discriminate|].
    destruct (Ascii.eqb_spec a b) as [->|]; [|discriminate].
    now rewrite (IH _ Hs).
Qed.

Lemma RefURL_parse_href (s : string) (u : URL) :
  RefURL.parse s = Some u -> href u = s.
Proof.
  unfold RefURL.parse.
  destruct (RefURL.after_scheme s) as [rest|]; [|discriminate].
  destruct (RefURL.cut_at "/" rest) as [host tail].
  destruct (RefURL.cut_at "#" tail) as [before_hash ?].
  destruct (RefURL.cut_at "?" before_hash) as [path query].
  match goal with |- context [if ?c then _ else _] => destruct c end;
    [discriminate|].
  now intros [= <-].
Qed.

Lemma RefURL_parse_scheme (s : string) (u : URL) :
  RefURL.parse s = Some u -> includes ":" s = true.
Proof.
  unfold RefURL.parse, RefURL.after_scheme.
  destruct (RefURL.strip_prefix "https://" s) as [rest|] eqn:Hs.
  - intros _. apply strip_prefix_Some in Hs as ->. reflexivity.
  - destruct (RefURL.strip_prefix "http://" s) as [rest|] eqn:Hp; [|discriminate].
    intros _. apply strip_prefix_Some in Hp as ->. reflexivity.
Qed.

#[global] Program Instance RefURL_parser : URLParser := {| URL_parse := RefURL.parse |}.
Next Obligation.
  intros s u Hp. exists u. now rewrite (RefURL_parse_href _ _ Hp).
Qed.
Next Obligation. exact RefURL_parse_scheme. Qed.


Section RefJSONFacts.
Import RefJSON RefJSONAux.

Lemma read_chars_escape_char (c : ascii) (tail : string) :
  read_chars (escape_char c +:+ tail) = prepend c (read_chars tail).
Proof.
  destruct c as [[|] [|] [|] [|] [|] [|] [|] [|]]; reflexivity.
Qed.

Lemma read_chars_escape (s rest : string) :
  read_chars (escape s +:+ String dq rest) = Some (s, rest).
Proof.
  induction s as [|c s IH]; simpl; [reflexivity|].
  now rewrite app_assoc_str, read_chars_escape_char, IH.
Qed.

Lemma read_string_quote (s rest : string) :
  read_string (quote s +:+ rest) = Some (s, rest).
Proof.
  unfold quote, read_string. simpl.
  rewrite app_assoc_str. simpl. apply read_chars_escape.
Qed.

Lemma read_number_text_app (t rest : string) :
  all_chars is_number_char t = true ->
  match rest with
  | EmptyString => True
  | String c _ => is_number_char c = false
  end ->
  read_number_text (t +:+ rest) = (t, rest).
Proof.
  induction t as [|c t IH]; simpl; intros Ht Hrest.
  - destruct rest as [|c rest]; [reflexivity|]. simpl. now rewrite Hrest.
  - apply andb_true_iff in Ht as [Hc Ht]. now rewrite Hc, IH.
Qed.

Lemma uint_chars (d : Decimal.uint) :
  all_chars is_number_char (NilEmpty.string_of_uint d) = true.
Proof.
  induction d as [|d IH|d IH|d IH|d IH|d IH|d IH|d IH|d IH|d IH|d IH];
    [reflexivity | ..]; cbn [NilEmpty.string_of_uint all_chars];
    rewrite IH; reflexivity.
Qed.

Lemma int_chars (d : Decimal.int) :
  all_chars is_number_char (NilZero.string_of_int d) = true.
Proof.
  assert (Hu : forall u, all_chars is_number_char (NilZero.string_of_uint u) = true).
  { intros u. destruct u; [reflexivity | ..];
      match goal with
      | |- context [NilZero.string_of_uint ?x] => exact (uint_chars x)
      end. }
  destruct d as [d|d]; simpl; auto.
Qed.

Lemma int_of_string_of_Z (z : Z) :
  exists d, NilZero.int_of_string (print_number z) = Some d /\ Z.of_int d = z.
Proof.
  unfold print_number. exists (Z.to_int z). split; [|apply DecimalZ.of_to].
  apply NilZero.isi; destruct z; simpl; try discriminate;
    intros [= Hp]; now apply Unsigned.to_uint_nonnil in Hp.
Qed.

Lemma read_number_print (z : Z) (rest : string) :
  match rest with
  | EmptyString => True
  | String c _ => is_number_char c = false
  end ->
  read_number (print_number z +:+ rest) = Some (z, rest).
Proof.
  intros Hrest. unfold read_number.
  rewrite read_number_text_app; [| apply int_chars | exact Hrest].
  destruct (int_of_string_of_Z z) as (d & -> & ->). reflexivity.
Qed.

Lemma read_member_print (kv : string * string) (rest : string) :
  read_member (print_member kv +:+ rest) = Some (kv, rest).
Proof.
  destruct kv as [k v]. unfold read_member, print_member. cbn [fst snd].
  rewrite !app_assoc_str, read_string_quote, strip_prefix_app.
  now rewrite read_string_quote.
Qed.

Lemma read_more_members_comma (fuel : nat) (rest : string) :
  read_more_members (S fuel) ("," +:+ rest) =
  match read_member rest with
  | Some (kv, rest1) =>
      match read_more_members fuel rest1 with
      | Some (kvs, rest2) => Some (kv :: kvs, rest2)
      | None => None
      end
  | None => None
  end.
Proof. reflexivity. Qed.

Lemma read_more_members_print (kvs : list (string * string)) (fuel : nat)
    (rest : string) :
  length kvs <= fuel ->
  read_more_members fuel (more_members kvs +:+ "}" +:+ rest) = Some (kvs, rest).
Proof.
  revert fuel. induction kvs as [|kv kvs IH]; intros fuel Hfuel.
  - destruct fuel; reflexivity.
  - destruct fuel as [|fuel]; [simpl in Hfuel; lia|].
    cbn [more_members].
    rewrite !app_assoc_str, read_more_members_comma, read_member_print.
    rewrite IH by (simpl in Hfuel; lia). reflexivity.
Qed.

Lemma more_members_length (kvs : list (string * string)) :
  length kvs <= String.length (more_members kvs).
Proof.
  induction kvs as [|kv kvs IH]; simpl; [lia|].
  rewrite length_app_str. lia.
Qed.

Lemma join_members (kv : string * string) (kvs : list (string * string)) :
  join "," (map print_member (kv :: kvs)) = print_member kv +:+ more_members kvs.
Proof.
  revert kv. induction kvs as [|kv' kvs IH]; intros kv.
  - cbn [more_members]. now rewrite app_nil_r_str.
  - change (join "," (map print_member (kv :: kv' :: kvs)))
      with (print_member kv +:+ "," +:+ join "," (map print_member (kv' :: kvs))).
    now rewrite IH.
Qed.

Lemma read_object_nonempty (text : string) :
  (exists tail, text = String dq tail) ->
  read_object ("{" +:+ text) =
  match read_member text with
  | Some (kv, rest1) =>
      match read_more_members (String.length rest1) rest1 with
      | Some (kvs, rest2) => Some (kv :: kvs, rest2)
      | None => None
      end
  | None => None
  end.
Proof. intros [tail ->]. reflexivity. Qed.

Lemma read_object_print (kvs : list (string * string)) (rest : string) :
  read_object (print_object kvs +:+ rest) = Some (kvs, rest).
Proof.
  unfold print_object. destruct kvs as [|kv kvs]; [reflexivity|].
  rewrite join_members, !app_assoc_str.
  rewrite read_object_nonempty.
  - rewrite read_member_print, read_more_members_print; [reflexivity|].
    rewrite length_app_str. pose proof (more_members_length kvs). lia.
  - unfold print_member, quote. simpl. eauto.
Qed.

Lemma stringify_layout (m : CacheEntryMeta) :
  stringify m =
  ("{" +:+ quote "headers" +:+ ":") +:+ print_object (map_to_list (headers m))
  +:+ ("," +:+ quote "status" +:+ ":") +:+ print_number (status m)
  +:+ ("," +:+ quote "statusText" +:+ ":") +:+ quote (statusText m) +:+ "}".
Proof. reflexivity. Qed.

Lemma RefJSON_parse_stringify (m : CacheEntryMeta) :
  parse (stringify m) = Some (json_of_meta m).
Proof.
  unfold parse. rewrite stringify_layout.
  rewrite strip_prefix_app. cbn [mbind option_bind].
  rewrite read_object_print. cbn [mbind option_bind].
  rewrite strip_prefix_app. cbn [mbind option_bind].
  rewrite read_number_print by reflexivity. cbn [mbind option_bind].
  rewrite strip_prefix_app. cbn [mbind option_bind].
  rewrite read_string_quote. cbn [mbind option_bind].
  reflexivity.
Qed.

Lemma RefJSON_round_trip (m : CacheEntryMeta) :
  exists members,
    parse (stringify m)
    = Some (mkJsonMeta (Some (HeadersRecord members))
                       (Some (status m)) (Some (StatusText (statusText m)))) /\
    members ≡ₚ map_to_list (headers m).
Proof.
  exists (map_to_list (headers m)). split; [|reflexivity].
  apply RefJSON_parse_stringify.
Qed.

End RefJSONFacts.

#[global] Instance RefJSON_codec : JSON :=
  {| JSON_stringify := RefJSON.stringify;
     JSON_parse := RefJSON.parse;
     JSON_parse_stringify := RefJSON_round_trip |}.

(** ** The directory tree *)

Lemma resolve_dir_app (d : directory) (h k : handle) :
  resolve_dir d (h ++ k) = resolve_dir d h ≫= fun sub => resolve_dir sub k.
Proof.
  revert d. induction h as [|seg h IH]; intros d; simpl; [reflexivity|].
  destruct (d !! seg) as [[data|sub]|]; simpl; auto.
Qed.

Lemma resolve_dir_snoc (d es : directory) (h : handle) (name : string) :
  resolve_dir d h = Some es ->
  resolve_dir d (h ++ [name]) =
  match es !! name with Some (Dir sub) => Some sub | _ => None end.
Proof.
  intros Hh. rewrite resolve_dir_app, Hh. simpl.
  destruct (es !! name) as [[data|sub]|]; reflexivity.
Qed.

Lemma resolve_modify_dir (f : directory -> directory) (d es : directory)
    (h : handle) :
  resolve_dir d h = Some es ->
  resolve_dir (modify_dir f h d) h = Some (f es).
Proof.
  revert d. induction h as [|seg h IH]; intros d; simpl.
  - now intros [= ->].
  - destruct (d !! seg) as [[data|sub]|] eqn:Hseg; try discriminate.
    intros Hsub. rewrite lookup_insert_eq. now apply IH.
Qed.

Lemma modify_dir_missing (f : directory -> directory) (d : directory)
    (h : handle) :
  resolve_dir d h = None -> modify_dir f h d = d.
Proof.
  revert d. induction h as [|seg h IH]; intros d; simpl; [discriminate|].
  destruct (d !! seg) as [[data|sub]|] eqn:Hseg; try reflexivity.
  intros Hsub. rewrite (IH _ Hsub). now apply insert_id.
Qed.

(** ** Single calls *)

Lemma getDirectoryHandle_dir (st : storage) (h : handle) (name : string)
    (create : bool) (es sub : directory) :
  resolve_dir (root st) h = Some es -> es !! name = Some (Dir sub) ->
  getDirectoryHandle h name create st =
  (Ok (h ++ [name]), logged st (GetDirectoryHandle h name create) true (root st)).
Proof.
  intros Hh Hn. unfold getDirectoryHandle, perform, getDirectoryHandle_on.
  now rewrite Hh, Hn.
Qed.

Lemma getDirectoryHandle_file (st : storage) (h : handle) (name : string)
    (create : bool) (es : directory) (data : string) :
  resolve_dir (root st) h = Some es -> es !! name = Some (File data) ->
  getDirectoryHandle h name create st =
  (Err TypeMismatchError, logged st (GetDirectoryHandle h name create) false (root st)).
Proof.
  intros Hh Hn. unfold getDirectoryHandle, perform, getDirectoryHandle_on.
  now rewrite Hh, Hn.
Qed.

Lemma getDirectoryHandle_none (st : storage) (h : handle) (name : string)
    (create : bool) (es : directory) :
  resolve_dir (root st) h = Some es -> es !! name = None ->
  getDirectoryHandle h name create st =
  if create
  then (Ok (h ++ [name]),
        logged st (GetDirectoryHandle h name create) true
               (modify_dir (insert name (Dir ∅)) h (root st)))
  else (Err NotFoundError, logged st (GetDirectoryHandle h name create) false (root st)).
Proof.
  intros Hh Hn. unfold getDirectoryHandle, perform, getDirectoryHandle_on.
  rewrite Hh, Hn. now destruct create.
Qed.

Lemma getFileHandle_file (st : storage) (h : handle) (name : string)
    (create : bool) (es : directory) (data : string) :
  resolve_dir (root st) h = Some es -> es !! name = Some (File data) ->
  getFileHandle h name create st =
  (Ok (mkFileHandle h name), logged st (GetFileHandle h name create) true (root st)).
Proof.
  intros Hh Hn. unfold getFileHandle, perform, getFileHandle_on.
  now rewrite Hh, Hn.
Qed.

Lemma getFileHandle_dir (st : storage) (h : handle) (name : string)
    (create : bool) (es sub : directory) :
  resolve_dir (root st) h = Some es -> es !! name = Some (Dir sub) ->
  getFileHandle h name create st =
  (Err TypeMismatchError, logged st (GetFileHandle h name create) false (root st)).
Proof.
  intros Hh Hn. unfold getFileHandle, perform, getFileHandle_on.
  now rewrite Hh, Hn.
Qed.

Lemma getFileHandle_none (st : storage) (h : handle) (name : string)
    (create : bool) (es : directory) :
  resolve_dir (root st) h = Some es -> es !! name = None ->
  getFileHandle h name create st =
  if create
  then (Ok (mkFileHandle h name),
        logged st (GetFileHandle h name create) true
               (modify_dir (insert name (File EmptyString)) h (root st)))
  else (Err NotFoundError, logged st (GetFileHandle h name create) false (root st)).
Proof.
  intros Hh Hn. unfold getFileHandle, perform, getFileHandle_on.
  rewrite Hh, Hn. now destruct create.
Qed.

Lemma read_file_at (d es : directory) (h : handle) (name data : string) :
  resolve_dir d h = Some es -> es !! name = Some (File data) ->
  read_file (mkFileHandle h name) d = Some data.
Proof. intros Hh Hn. unfold read_file. simpl. now rewrite Hh, Hn. Qed.

Lemma getFile_file (st : storage) (h : handle) (name data : string)
    (es : directory) :
  resolve_dir (root st) h = Some es -> es !! name = Some (File data) ->
  getFile (mkFileHandle h name) st =
  (Ok data, logged st (GetFile (mkFileHandle h name)) true (root st)).
Proof.
  intros Hh Hn. unfold getFile, perform, getFile_on.
  now rewrite (read_file_at _ _ _ _ _ Hh Hn).
Qed.

Lemma createWritable_file (st : storage) (h : handle) (name data : string)
    (es : directory) :
  resolve_dir (root st) h = Some es -> es !! name = Some (File data) ->
  createWritable (mkFileHandle h name) st =
  (Ok (mkWritable (mkFileHandle h name) EmptyString),
   logged st (CreateWritable (mkFileHandle h name)) true (root st)).
Proof.
  intros Hh Hn. unfold createWritable, perform, createWritable_on.
  now rewrite (read_file_at _ _ _ _ _ Hh Hn).
Qed.

Lemma close_file (st : storage) (h : handle) (name data text : string)
    (es : directory) :
  resolve_dir (root st) h = Some es -> es !! name = Some (File data) ->
  close (mkWritable (mkFileHandle h name) text) st =
  (Ok tt,
   logged st (WritableClose (mkFileHandle h name)) true
          (modify_dir (insert name (File text)) h (root st))).
Proof.
  intros Hh Hn. unfold close, perform, close_on. simpl.
  now rewrite (read_file_at _ _ _ _ _ Hh Hn).
Qed.

Lemma write_buffer (st : storage) (w : writable) (data : string) :
  Storage.write w data st =
  (Ok (mkWritable (target w) (buffer w +:+ data)),
   logged st (WritableWrite (target w) data) true (root st)).
Proof. reflexivity. Qed.

(** ** Navigation *)

Lemma read_only_refl (st : storage) : read_only st st.
Proof. split; [reflexivity|]. exists []. simpl. now rewrite app_nil_r. Qed.

Lemma read_only_logged (st : storage) (c : call) (ok : bool) :
  read_only st (logged st c ok (root st)).
Proof. split; [reflexivity|]. now exists [(c, ok)]. Qed.

Lemma read_only_trans (st1 st2 st3 : storage) :
  read_only st1 st2 -> read_only st2 st3 -> read_only st1 st3.
Proof.
  intros [Hr1 [c1 Hj1]] [Hr2 [c2 Hj2]]. split; [congruence|].
  exists (c1 ++ c2). rewrite Hj2, Hj1, Hr1, map_app. now rewrite app_assoc.
Qed.

#[local] Hint Resolve read_only_refl read_only_logged : core.

Lemma locate_found (d es : directory) (segs : list string) :
  locate d segs = Ok (Some es) <-> resolve_dir d segs = Some es.
Proof.
  revert d. induction segs as [|seg rest IH]; intros d; simpl.
  - split; intros [= ->]; reflexivity.
  - destruct (d !! seg) as [[data|sub]|]; try apply IH; split; discriminate.
Qed.

Lemma navigate_from_locate (segs : list string) (h : handle) (st : storage)
    (d : directory) :
  resolve_dir (root st) h = Some d ->
  exists st',
    read_only st st' /\
    OPFSFileSystem.navigate_from h segs false st =
    (match locate d segs with
     | Ok (Some _) => Ok (Some (h ++ segs))
     | Ok None => Ok None
     | Err e => Err e
     end, st').
Proof.
  revert h st d. induction segs as [|seg rest IH]; intros h st d Hh; simpl.
  - exists st. rewrite app_nil_r. auto.
  - destruct (d !! seg) as [[data|sub]|] eqn:Hseg.
    + rewrite (getDirectoryHandle_file _ _ _ _ _ _ Hh Hseg). simpl. eauto.
    + rewrite (getDirectoryHandle_dir _ _ _ _ _ _ Hh Hseg).
      destruct (IH (h ++ [seg]) (logged st (GetDirectoryHandle h seg false) true (root st)) sub)
        as (st' & Hro & ->).
      { simpl. rewrite (resolve_dir_snoc _ _ _ _ Hh), Hseg. reflexivity. }
      exists st'. split; [eapply read_only_trans; eauto|].
      now rewrite <- app_assoc.
    + rewrite (getDirectoryHandle_none _ _ _ _ _ Hh Hseg). simpl. eauto.
Qed.

Lemma navigate_locate (segs : list string) (st : storage) :
  exists st',
    read_only st st' /\
    OPFSFileSystem.navigate segs false st =
    (match locate (root st) segs with
     | Ok (Some _) => Ok (Some segs)
     | Ok None => Ok None
     | Err e => Err e
     end, st').
Proof.
  unfold OPFSFileSystem.navigate, bind, OPFSFileSystem.getRoot, ret.
  apply (navigate_from_locate segs [] st (root st)). reflexivity.
Qed.

Lemma navigate_found (segs : list string) (st : storage) (es : directory) :
  resolve_dir (root st) segs = Some es ->
  exists st', read_only st st' /\ OPFSFileSystem.navigate segs false st = (Ok (Some segs), st').
Proof.
  intros Hes%locate_found. destruct (navigate_locate segs st) as (st' & Hro & Hn).
  rewrite Hes in Hn. eauto.
Qed.

(** ** Reading an entry *)
Section Reading.
Context `{JSON}.

Lemma readEntry_hit (st : storage) (dirSegments : list string)
    (fileName data : string) (es : directory) :
  resolve_dir (root st) dirSegments = Some es ->
  es !! fileName = Some (File data) ->
  exists st',
    read_only st st' /\
    OPFSFileSystem.readEntry dirSegments fileName st =
    (match es !! sidecar fileName with
     | None => Ok (Some (data, None))
     | Some (File text) =>
         match JSON_parse text with
         | Some meta => Ok (Some (data, Some meta))
         | None => Err SyntaxError
         end
     | Some (Dir _) => Err TypeMismatchError
     end, st').
Proof.
  intros Hdir Hfile. unfold OPFSFileSystem.readEntry, bind.
  destruct (navigate_found _ _ _ Hdir) as (st1 & Hro1 & ->).
  destruct Hro1 as [Hr1 Hj1]. rewrite <- Hr1 in Hdir.
  unfold try_catch.
  rewrite (getFileHandle_file _ _ _ _ _ _ Hdir Hfile).
  set (st2 := logged st1 _ _ _).
  rewrite (getFile_file st2 _ _ _ _ Hdir Hfile).
  set (st3 := logged st2 _ _ _).
  assert (Hro3 : read_only st st3).
  { eapply read_only_trans; [split; eassumption|].
    eapply read_only_trans; [apply (read_only_logged st1)|].
    apply (read_only_logged st2). }
  fold (sidecar fileName).
  destruct (es !! sidecar fileName) as [[text|sub]|] eqn:Hmeta.
  - rewrite (getFileHandle_file st3 _ _ _ _ _ Hdir Hmeta).
    set (st4 := logged st3 _ _ _).
    rewrite (getFile_file st4 _ _ _ _ Hdir Hmeta).
    set (st5 := logged st4 _ _ _).
    exists st5. split.
    { eapply read_only_trans; [exact Hro3|].
      eapply read_only_trans; [apply (read_only_logged st3)|].
      apply (read_only_logged st4). }
    unfold OPFSFileSystem.parse_meta. destruct (JSON_parse text); reflexivity.
  - rewrite (getFileHandle_dir st3 _ _ _ _ _ Hdir Hmeta). simpl.
    eexists. split; [|reflexivity].
    eapply read_only_trans; [exact Hro3|]. apply (read_only_logged st3).
  - rewrite (getFileHandle_none st3 _ _ _ _ Hdir Hmeta). simpl.
    eexists. split; [|reflexivity].
    eapply read_only_trans; [exact Hro3|]. apply (read_only_logged st3).
Qed.

Lemma readEntry_no_directory (st : storage) (dirSegments : list string)
    (fileName : string) :
  locate (root st) dirSegments = Ok None ->
  exists st', read_only st st' /\ OPFSFileSystem.readEntry dirSegments fileName st = (Ok None, st').
Proof.
  intros Hloc. unfold OPFSFileSystem.readEntry, bind.
  destruct (navigate_locate dirSegments st) as (st1 & Hro1 & ->).
  rewrite Hloc. eauto.
Qed.

Lemma readEntry_no_file (st : storage) (dirSegments : list string)
    (fileName : string) (es : directory) :
  resolve_dir (root st) dirSegments = Some es ->
  es !! fileName = None ->
  exists st', read_only st st' /\ OPFSFileSystem.readEntry dirSegments fileName st = (Ok None, st').
Proof.
  intros Hdir Hfile. unfold OPFSFileSystem.readEntry, bind.
  destruct (navigate_found _ _ _ Hdir) as (st1 & Hro1 & ->).
  pose proof Hro1 as [Hr1 _]. rewrite <- Hr1 in Hdir.
  unfold try_catch.
  rewrite (getFileHandle_none _ _ _ _ _ Hdir Hfile). simpl.
  eexists. split; [|reflexivity].
  eapply read_only_trans; [exact Hro1|]. apply read_only_logged.
Qed.

End Reading.

(** ** Writing an entry *)

Lemma sidecar_neq (fileName : string) : sidecar fileName <> fileName.
Proof.
  unfold sidecar. intros Heq.
  assert (Hlen : String.length (fileName +:+ OPFSFileSystem.META_SUFFIX)
                 = String.length fileName) by now rewrite Heq.
  revert Hlen. clear Heq. induction fileName as [|c s IH]; simpl.
  - discriminate.
  - intros [= Hlen]. auto.
Qed.

Lemma dirs_clear_empty (segs : list string) : dirs_clear ∅ segs = true.
Proof. destruct segs; simpl; [reflexivity|]. now rewrite lookup_empty. Qed.

Lemma resolve_dir_empty (segs : list string) :
  default ∅ (resolve_dir (∅ : directory) segs) = ∅.
Proof. destruct segs; simpl; [reflexivity|]. now rewrite lookup_empty. Qed.

Lemma navigate_from_create (segs : list string) (h : handle) (st : storage)
    (d : directory) :
  resolve_dir (root st) h = Some d ->
  dirs_clear d segs = true ->
  exists st',
    OPFSFileSystem.navigate_from h segs true st = (Ok (Some (h ++ segs)), st') /\
    resolve_dir (root st') (h ++ segs) = Some (default ∅ (resolve_dir d segs)).
Proof.
  revert h st d. induction segs as [|seg rest IH]; intros h st d Hh Hclear; simpl.
  - exists st. rewrite app_nil_r. auto.
  - simpl in Hclear. destruct (d !! seg) as [[data|sub]|] eqn:Hseg.
    + discriminate.
    + rewrite (getDirectoryHandle_dir _ _ _ _ _ _ Hh Hseg).
      destruct (IH (h ++ [seg])
                  (logged st (GetDirectoryHandle h seg true) true (root st)) sub)
        as (st' & -> & Hres); [|exact Hclear|].
      { simpl. rewrite (resolve_dir_snoc _ _ _ _ Hh), Hseg. reflexivity. }
      replace ((h ++ [seg]) ++ rest) with (h ++ seg :: rest) in *
        by now rewrite <- app_assoc.
      exists st'. auto.
    + rewrite (getDirectoryHandle_none _ _ _ _ _ Hh Hseg).
      set (st1 := logged st _ _ _).
      destruct (IH (h ++ [seg]) st1 ∅) as (st' & -> & Hres).
      { subst st1. simpl.
        rewrite (resolve_dir_snoc _ (<[seg := Dir ∅]> d)).
        - now rewrite lookup_insert_eq.
        - now apply resolve_modify_dir. }
      { apply dirs_clear_empty. }
      replace ((h ++ [seg]) ++ rest) with (h ++ seg :: rest) in *
        by now rewrite <- app_assoc.
      exists st'. split; [reflexivity|].
      now rewrite Hres, resolve_dir_empty.
Qed.

Lemma getFileHandle_create (st : storage) (h : handle) (name : string)
    (es : directory) :
  resolve_dir (root st) h = Some es ->
  not_a_directory (es !! name) = true ->
  exists st' data,
    getFileHandle h name true st = (Ok (mkFileHandle h name), st') /\
    resolve_dir (root st') h = Some (<[name := File data]> es).
Proof.
  intros Hh Hnd. destruct (es !! name) as [[data|sub]|] eqn:Hn; [| discriminate |].
  - rewrite (getFileHandle_file _ _ _ _ _ _ Hh Hn).
    eexists _, data. split; [reflexivity|]. simpl.
    now rewrite insert_id.
  - rewrite (getFileHandle_none _ _ _ _ _ Hh Hn).
    eexists _, EmptyString. split; [reflexivity|]. simpl.
    now apply resolve_modify_dir.
Qed.

Lemma bind_ok {A B} (m : io A) (k : A -> io B) (st st' : storage) (a : A) :
  m st = (Ok a, st') -> bind m k st = k a st'.
Proof. intros Hm. unfold bind. now rewrite Hm. Qed.

Lemma bind_err {A B} (m : io A) (k : A -> io B) (st st' : storage) (e : exn) :
  m st = (Err e, st') -> bind m k st = (Err e, st').
Proof. intros Hm. unfold bind. now rewrite Hm. Qed.

Lemma navigate_create (segs : list string) (st : storage) :
  dirs_clear (root st) segs = true ->
  exists st',
    OPFSFileSystem.navigate segs true st = (Ok (Some segs), st') /\
    resolve_dir (root st') segs = Some (default ∅ (resolve_dir (root st) segs)).
Proof.
  intros Hclear.
  apply (navigate_from_create segs [] st (root st) eq_refl Hclear).
Qed.

(** [createWritable], the write and [close] on a file that is there
    replace its content. *)
Lemma replace_content {A} (st : storage) (h : handle) (name old text : string)
    (es : directory) (k : unit -> io A) :
  resolve_dir (root st) h = Some es ->
  es !! name = Some (File old) ->
  exists st',
    bind (createWritable (mkFileHandle h name))
      (fun w => bind (Storage.write w text) (fun w' => bind (close w') k)) st
    = k tt st' /\
    resolve_dir (root st') h = Some (<[name := File text]> es).
Proof.
  intros Hh Hn.
  erewrite bind_ok by (eapply createWritable_file; eassumption).
  erewrite bind_ok by apply write_buffer.
  erewrite bind_ok by (eapply close_file; simpl; eassumption).
  eexists. split; [reflexivity|]. simpl. now apply resolve_modify_dir.
Qed.

Lemma bind_ret_r {A} (m : io A) (st : storage) : bind m ret st = m st.
Proof. unfold bind, ret. now destruct (m st) as [[a|e] st']. Qed.

Section Writing.
Context `{JSON}.

Lemma write_succeeds (st : storage) (dirSegments : list string)
    (fileName : string) (body : option string) (meta : CacheEntryMeta) :
  writable_at (root st) dirSegments fileName = true ->
  exists st',
    OPFSFileSystem.write dirSegments fileName body meta st = (Ok tt, st') /\
    resolve_dir (root st') dirSegments =
    Some (<[fileName := File (default EmptyString body)]>
            (<[sidecar fileName := File (JSON_stringify meta)]>
               (default ∅ (resolve_dir (root st) dirSegments)))).
Proof.
  unfold writable_at. intros [Hclear Hnames]%andb_true_iff.
  set (es0 := default ∅ (resolve_dir (root st) dirSegments)) in *.
  assert (Hfree : not_a_directory (es0 !! fileName) = true /\
                  not_a_directory (es0 !! sidecar fileName) = true).
  { subst es0. destruct (resolve_dir (root st) dirSegments); simpl.
    - now apply andb_true_iff.
    - now rewrite !lookup_empty. }
  destruct Hfree as [Hfile Hmeta].
  destruct (navigate_create dirSegments st Hclear) as (st1 & Hnav & Hdir1).
  fold es0 in Hdir1.
  unfold OPFSFileSystem.write. fold (sidecar fileName).
  erewrite bind_ok by exact Hnav. cbv beta iota.
  destruct (getFileHandle_create st1 _ _ _ Hdir1 Hmeta) as (st2 & d2 & Hget2 & Hdir2).
  erewrite bind_ok by exact Hget2.
  destruct (replace_content st2 dirSegments (sidecar fileName) d2
              (JSON_stringify meta) _
              (fun _ =>
                 bind (getFileHandle dirSegments fileName true)
                   (fun fileHandle =>
                      bind (createWritable fileHandle)
                        (fun writable =>
                           match body with
                           | Some body0 => pipeTo body0 writable
                           | None => close writable
                           end)))
              Hdir2 (lookup_insert_eq _ _ _))
    as (st3 & Hrep3 & Hdir3).
  rewrite insert_insert_eq in Hdir3.
  change (EmptyString +:+ JSON_stringify meta) with (JSON_stringify meta).
  rewrite Hrep3.
  assert (Hfile3 : not_a_directory
                     (<[sidecar fileName := File (JSON_stringify meta)]> es0
                        !! fileName) = true).
  { rewrite lookup_insert_ne by apply sidecar_neq. exact Hfile. }
  destruct (getFileHandle_create st3 _ _ _ Hdir3 Hfile3) as (st4 & d4 & Hget4 & Hdir4).
  erewrite bind_ok by exact Hget4.
  erewrite bind_ok
    by (eapply createWritable_file; [exact Hdir4 | apply lookup_insert_eq]).
  destruct body as [body|]; simpl.
  - unfold pipeTo. erewrite bind_ok by apply write_buffer.
    cbn [target buffer String.append].
    erewrite close_file; [| exact Hdir4 | apply lookup_insert_eq].
    eexists. split; [reflexivity|]. simpl.
    erewrite resolve_modify_dir by exact Hdir4.
    now rewrite insert_insert_eq.
  - erewrite close_file; [| exact Hdir4 | apply lookup_insert_eq].
    eexists. split; [reflexivity|]. simpl.
    erewrite resolve_modify_dir by exact Hdir4.
    now rewrite insert_insert_eq.
Qed.

End Writing.

(** ** Removing entries *)

Lemma removeEntry_none (st : storage) (h : handle) (name : string)
    (es : directory) :
  resolve_dir (root st) h = Some es -> es !! name = None ->
  removeEntry h name st =
  (Err NotFoundError, logged st (RemoveEntry h name) false (root st)).
Proof.
  intros Hh Hn. unfold removeEntry, perform, removeEntry_on.
  now rewrite Hh, Hn.
Qed.

Lemma removeEntry_file (st : storage) (h : handle) (name data : string)
    (es : directory) :
  resolve_dir (root st) h = Some es -> es !! name = Some (File data) ->
  removeEntry h name st =
  (Ok tt, logged st (RemoveEntry h name) true (modify_dir (delete name) h (root st))).
Proof.
  intros Hh Hn. unfold removeEntry, perform, removeEntry_on.
  now rewrite Hh, Hn.
Qed.

Lemma removeEntry_empty_dir (st : storage) (h : handle) (name : string)
    (es : directory) :
  resolve_dir (root st) h = Some es -> es !! name = Some (Dir ∅) ->
  removeEntry h name st =
  (Ok tt, logged st (RemoveEntry h name) true (modify_dir (delete name) h (root st))).
Proof.
  intros Hh Hn. unfold removeEntry, perform, removeEntry_on.
  now rewrite Hh, Hn.
Qed.

Lemma removeEntry_error (st st' : storage) (h : handle) (name : string) (e : exn) :
  removeEntry h name st = (Err e, st') -> root st' = root st.
Proof.
  unfold removeEntry, perform, removeEntry_on.
  destruct (resolve_dir (root st) h) as [es|]; [|now intros [= _ <-]].
  destruct (es !! name) as [[data|sub]|]; try (now intros [= _ <-]).
  case_bool_decide; now intros [= _ <-].
Qed.

(** ** Pruning never throws *)

Lemma collect_parents_ok (segs : list string) (dir : handle)
    (parents : list handle) (st : storage) :
  exists r st', read_only st st' /\
    OPFSFileSystem.collect_parents dir segs parents st = (Ok r, st').
Proof.
  revert dir parents st. induction segs as [|seg rest IH]; intros dir parents st.
  - simpl. unfold ret. eauto using read_only_refl.
  - simpl. unfold getDirectoryHandle, perform, getDirectoryHandle_on.
    destruct (resolve_dir (root st) dir) as [es|] eqn:Hdir.
    + destruct (es !! seg) as [[data|sub]|] eqn:Hseg.
      * eexists _, _. split; [|reflexivity]. apply read_only_logged.
      * match goal with
        | |- context [OPFSFileSystem.collect_parents ?d rest ?p ?s] =>
            destruct (IH d p s) as (r & st' & Hro & ->)
        end.
        exists r, st'. split; [|reflexivity].
        eapply read_only_trans; [|exact Hro]. apply read_only_logged.
      * eexists _, _. split; [|reflexivity]. apply read_only_logged.
    + eexists _, _. split; [|reflexivity]. apply read_only_logged.
Qed.

Lemma remove_upwards_ok (steps : list (handle * string)) (st : storage) :
  exists st', OPFSFileSystem.remove_upwards steps st = (Ok tt, st').
Proof.
  revert st. induction steps as [|[parent seg] rest IH]; intros st; simpl.
  - unfold ret. eauto.
  - destruct (removeEntry parent seg st) as [[[]|e] st1]; eauto.
Qed.

Lemma cleanEmptyDirs_ok (segments : list string) (st : storage) :
  exists st', OPFSFileSystem.cleanEmptyDirs segments st = (Ok tt, st').
Proof.
  unfold OPFSFileSystem.cleanEmptyDirs.
  destruct (length segments =? 0)%nat; [unfold ret; eauto|].
  unfold OPFSFileSystem.getRoot.
  erewrite bind_ok by reflexivity.
  destruct (collect_parents_ok (firstn (length segments - 1) segments) [] [[]] st)
    as (r & st1 & _ & Hcollect).
  erewrite bind_ok by exact Hcollect.
  destruct r as [parents|]; [apply remove_upwards_ok | unfold ret; eauto].
Qed.

(** ** Deleting an entry *)

Lemma try_catch_ok {A} (body : io A) (handler : exn -> io A)
    (st st' : storage) (a : A) :
  body st = (Ok a, st') -> try_catch body handler st = (Ok a, st').
Proof. intros Hb. unfold try_catch. now rewrite Hb. Qed.

Lemma try_catch_err {A} (body : io A) (handler : exn -> io A)
    (st st' : storage) (e : exn) :
  body st = (Err e, st') -> try_catch body handler st = handler e st'.
Proof. intros Hb. unfold try_catch. now rewrite Hb. Qed.

Lemma modify_dir_id (f : directory -> directory) (d es : directory)
    (h : handle) :
  resolve_dir d h = Some es -> f es = es -> modify_dir f h d = d.
Proof.
  revert d. induction h as [|seg h IH]; intros d; simpl.
  - now intros [= ->].
  - destruct (d !! seg) as [[data|sub]|] eqn:Hseg; try discriminate.
    intros Hsub Hf. rewrite (IH _ Hsub Hf). now apply insert_id.
Qed.

(** [removeEntry] on a name that is no directory. *)
Lemma removeEntry_not_directory (st : storage) (h : handle) (name : string)
    (es : directory) :
  resolve_dir (root st) h = Some es ->
  not_a_directory (es !! name) = true ->
  exists st',
    removeEntry h name st =
    (if data_file_present es name then Ok tt else Err NotFoundError, st') /\
    journal st' =
    journal st ++
      [mkEntry (RemoveEntry h name) (data_file_present es name) (root st')] /\
    root st' = modify_dir (delete name) h (root st) /\
    resolve_dir (root st') h = Some (delete name es).
Proof.
  intros Hh Hnd. unfold data_file_present.
  destruct (es !! name) as [[data|sub]|] eqn:Hn; [| discriminate |].
  - rewrite (removeEntry_file _ _ _ _ _ Hh Hn).
    eexists. split; [reflexivity|]. simpl.
    split; [reflexivity | split; [reflexivity|]].
    now apply resolve_modify_dir.
  - rewrite (removeEntry_none _ _ _ _ Hh Hn).
    eexists. split; [reflexivity|]. simpl.
    assert (Hid : delete name es = es) by now apply delete_id.
    split; [reflexivity|]. rewrite Hid. split; [|exact Hh].
    symmetry. now apply modify_dir_id with es.
Qed.

Lemma data_file_present_delete (es : directory) (name other : string) :
  other <> name ->
  data_file_present (delete other es) name = data_file_present es name.
Proof.
  intros Hne. unfold data_file_present. now rewrite lookup_delete_ne.
Qed.

(** [delete] returns false, without throwing, when a segment of the
    directory path is missing. In a directory where neither the data
    file's name nor the sidecar's is that of a directory, and for a name
    the platform takes, it returns true exactly when the data file was
    there, whether or not the sidecar was, and never throws; and when
    the data file was not there it makes no call after the two
    removals: no pruning. *)
Lemma delete_reports_data_file (st : storage) (dirSegments : list string)
    (fileName : string) :
  Forall (fun seg => portable_name seg = true) dirSegments ->
  (locate (root st) dirSegments = Ok None ->
   exists st',
     read_only st st' /\
     OPFSFileSystem.delete dirSegments fileName st = (Ok false, st')) /\
  (forall es,
     resolve_dir (root st) dirSegments = Some es ->
     portable_name fileName = true ->
     not_a_directory (es !! fileName) = true ->
     not_a_directory (es !! sidecar fileName) = true ->
     exists st',
       OPFSFileSystem.delete dirSegments fileName st =
       (Ok (data_file_present es fileName), st') /\
       (data_file_present es fileName = false ->
        exists st1,
          read_only st st1 /\
          journal st' =
          journal st1 ++
            [mkEntry (RemoveEntry dirSegments fileName) false (root st);
             mkEntry (RemoveEntry dirSegments (sidecar fileName))
               (data_file_present es (sidecar fileName)) (root st')] /\
          root st' = modify_dir (delete (sidecar fileName)) dirSegments (root st))).
Proof.
  intros _. split.
  - intros Hloc. unfold OPFSFileSystem.delete.
    destruct (navigate_locate dirSegments st) as (st1 & Hro & Hnav).
    rewrite Hloc in Hnav. erewrite bind_ok by exact Hnav. eauto.
  - intros es Hdir _ Hfile Hmeta. unfold OPFSFileSystem.delete.
    destruct (navigate_found _ _ _ Hdir) as (st1 & Hro & Hnav).
    erewrite bind_ok by exact Hnav. cbv beta iota.
    pose proof Hro as [Hr1 _]. rewrite <- Hr1 in Hdir.
    destruct (removeEntry_not_directory st1 _ _ _ Hdir Hfile)
      as (st2 & Hrm2 & Hj2 & Hr2 & Hdir2).
    assert (Hmeta2 : not_a_directory (delete fileName es !! sidecar fileName) = true).
    { rewrite lookup_delete_ne by (apply not_eq_sym, sidecar_neq). exact Hmeta. }
    destruct (removeEntry_not_directory st2 _ _ _ Hdir2 Hmeta2)
      as (st3 & Hrm3 & Hj3 & Hr3 & Hdir3).
    fold (sidecar fileName).
    destruct (data_file_present es fileName) eqn:Hpresent.
    + erewrite bind_ok; cycle 1.
      { apply try_catch_ok. erewrite bind_ok by exact Hrm2. reflexivity. }
      assert (Hsecond :
        try_catch (removeEntry dirSegments (sidecar fileName))
          (OPFSFileSystem.rethrow_unless_not_found tt) st2 = (Ok tt, st3)).
      { unfold try_catch. rewrite Hrm3.
        destruct (data_file_present (delete fileName es) (sidecar fileName));
          reflexivity. }
      erewrite bind_ok by exact Hsecond.
      destruct (cleanEmptyDirs_ok dirSegments st3) as (st4 & Hclean).
      erewrite bind_ok by exact Hclean.
      eexists. split; [reflexivity|]. discriminate.
    + erewrite bind_ok; cycle 1.
      { erewrite try_catch_err by (erewrite bind_err by exact Hrm2; reflexivity).
        reflexivity. }
      assert (Hsecond :
        try_catch (removeEntry dirSegments (sidecar fileName))
          (OPFSFileSystem.rethrow_unless_not_found tt) st2 = (Ok tt, st3)).
      { unfold try_catch. rewrite Hrm3.
        destruct (data_file_present (delete fileName es) (sidecar fileName));
          reflexivity. }
      erewrite bind_ok by exact Hsecond.
      erewrite bind_ok by reflexivity.
      eexists. split; [reflexivity|]. intros _.
      assert (Hsame : root st2 = root st1).
      { rewrite Hr2. apply modify_dir_id with es; [exact Hdir|].
        apply delete_id. unfold data_file_present in Hpresent.
        destruct (es !! fileName) as [[?|?]|]; try discriminate; reflexivity. }
      exists st1. split; [exact Hro|].
      rewrite Hj3, Hj2, <- app_assoc. simpl.
      rewrite Hr3, Hsame, Hr1. split; [|reflexivity].
      rewrite data_file_present_delete by (apply not_eq_sym, sidecar_neq).
      reflexivity.
Qed.

Lemma navigate_from_blocked (segs : list string) (h : handle) (st : storage)
    (d : directory) :
  resolve_dir (root st) h = Some d ->
  dirs_clear d segs = false ->
  exists st',
    OPFSFileSystem.navigate_from h segs true st = (Err TypeMismatchError, st').
Proof.
  revert h st d. induction segs as [|seg rest IH]; intros h st d Hh Hclear;
    simpl in *; [discriminate|].
  destruct (d !! seg) as [[data|sub]|] eqn:Hseg; [| | discriminate].
  - rewrite (getDirectoryHandle_file _ _ _ _ _ _ Hh Hseg). simpl. eauto.
  - rewrite (getDirectoryHandle_dir _ _ _ _ _ _ Hh Hseg).
    apply (IH _ _ sub); [|exact Hclear].
    simpl. now rewrite (resolve_dir_snoc _ _ _ _ Hh), Hseg.
Qed.

Lemma dirs_clear_resolved (d es : directory) (segs : list string) :
  resolve_dir d segs = Some es -> dirs_clear d segs = true.
Proof.
  revert d. induction segs as [|seg rest IH]; intros d; simpl; [reflexivity|].
  destruct (d !! seg) as [[data|sub]|]; try discriminate. apply IH.
Qed.

Lemma dirs_clear_unresolved (d : directory) (segs : list string) :
  dirs_clear d segs = true -> resolve_dir d segs = None \/
  exists es, resolve_dir d segs = Some es.
Proof. destruct (resolve_dir d segs); eauto. Qed.

Section Writing.
Context `{JSON}.

Lemma write_blocked (st : storage) (dirSegments : list string)
    (fileName : string) (body : option string) (meta : CacheEntryMeta) :
  writable_at (root st) dirSegments fileName = false ->
  exists st',
    OPFSFileSystem.write dirSegments fileName body meta st =
    (Err TypeMismatchError, st').
Proof.
  unfold writable_at. intros Hblocked. unfold OPFSFileSystem.write.
  destruct (dirs_clear (root st) dirSegments) eqn:Hclear; simpl in Hblocked.
  - destruct (resolve_dir (root st) dirSegments) as [es|] eqn:Hdir; [|discriminate].
    destruct (navigate_create dirSegments st Hclear) as (st1 & Hnav & Hdir1).
    rewrite Hdir in Hdir1. simpl in Hdir1.
    erewrite bind_ok by exact Hnav. cbv beta iota.
    fold (sidecar fileName).
    destruct (es !! sidecar fileName) as [[text|sub]|] eqn:Hmeta.
    + assert (Hfile : exists sub, es !! fileName = Some (Dir sub)).
      { destruct (es !! fileName) as [[?|sub]|]; try discriminate; eauto. }
      destruct Hfile as [sub Hfile].
      erewrite bind_ok by (eapply getFileHandle_file; eassumption).
      match goal with
      | |- context [bind (createWritable ?f) (fun w => bind (Storage.write w ?t)
                      (fun w' => bind (close w') ?k))] =>
          destruct (replace_content (logged st1 (GetFileHandle dirSegments
                       (sidecar fileName) true) true (root st1))
                      dirSegments (sidecar fileName) text t es k Hdir1 Hmeta)
            as (st3 & Hrep & Hdir3); rewrite Hrep
      end.
      erewrite bind_err; [eauto|].
      eapply getFileHandle_dir; [exact Hdir3|].
      rewrite lookup_insert_ne by apply sidecar_neq. exact Hfile.
    + erewrite bind_err; [eauto|]. eapply getFileHandle_dir; eassumption.
    + assert (Hfile : exists sub, es !! fileName = Some (Dir sub)).
      { destruct (es !! fileName) as [[?|sub]|]; try discriminate; eauto. }
      destruct Hfile as [sub Hfile].
      rewrite (bind_ok _ _ _ _ _
                 (getFileHandle_none st1 _ _ true _ Hdir1 Hmeta)).
      match goal with
      | |- context [bind (createWritable ?f) (fun w => bind (Storage.write w ?t)
                      (fun w' => bind (close w') ?k)) ?s] =>
          destruct (replace_content s dirSegments (sidecar fileName) EmptyString t
                      (<[sidecar fileName := File EmptyString]> es) k)
            as (st3 & Hrep & Hdir3);
            [simpl; now apply resolve_modify_dir | apply lookup_insert_eq |];
            rewrite Hrep
      end.
      erewrite bind_err; [eauto|].
      eapply getFileHandle_dir; [exact Hdir3|].
      rewrite !lookup_insert_ne by apply sidecar_neq. exact Hfile.
  - destruct (navigate_from_blocked dirSegments [] st (root st) eq_refl Hclear)
      as (st1 & Hnav).
    erewrite bind_err; [eauto|]. exact Hnav.
Qed.

End Writing.

(* ===================================================================== *)
(** ** The path resolver *)
(* ===================================================================== *)

Section ResolverClaims.
Context `{URLParser}.

Lemma append_nonempty (a b : string) : a <> EmptyString -> a +:+ b <> EmptyString.
Proof. destruct a; [congruence | discriminate]. Qed.

(** C10. Whenever [resolvePath] returns, every segment of [dir] is
    non-empty and is neither "." nor "..", and [file] is the last
    non-empty segment of the pathname (again neither "." nor "..")
    with the search appended, hence non-empty. *)
Theorem resolved_path_well_formed (request : RequestInfo) (p : ResolvedPath) :
  resolvePath request = Ok p ->
  Forall (fun seg => seg <> EmptyString /\ seg <> "." /\ seg <> "..") (dir p) /\
  exists last_segment pathname search : string,
    extract request = Ok (pathname, search) /\
    segments_of pathname = dir p ++ [last_segment] /\
    file p = last_segment +:+ search /\
    last_segment <> EmptyString /\ last_segment <> "." /\ last_segment <> ".." /\
    file p <> EmptyString.
Proof.
  unfold resolvePath.
  destruct (extract request) as [[pathname search]|e] eqn:Hextract; [|discriminate].
  intros (popped & Hsegs & Hfile & Hdots)%finish_Ok.
  assert (Hall : Forall (fun seg => seg <> EmptyString /\ seg <> "." /\ seg <> "..")
                        (segments_of pathname)).
  { apply List.Forall_forall. intros seg Hin. split.
    - now apply segments_of_nonempty with pathname.
    - apply is_dot_segment_false.
      now apply (proj1 (List.Forall_forall _ _) Hdots). }
  rewrite Hsegs in Hall. apply Forall_app in Hall as [Hdir Hlast].
  split; [exact Hdir|].
  apply Forall_inv in Hlast as (Hne & Hdot & Hdotdot).
  exists popped, pathname, search. repeat split; try assumption.
  rewrite Hfile. now apply append_nonempty.
Qed.

Lemma resolved_error (request : RequestInfo) `{JSON} (e : exn) (A : Type)
    (k : ResolvedPath -> io A) (st : storage) :
  resolvePath request = Err e ->
  bind (OPFSCache.resolved request) k st = (Err e, st).
Proof. intros Hr. unfold OPFSCache.resolved, bind, throw. now rewrite Hr. Qed.

Lemma resolved_ok (request : RequestInfo) `{JSON} (p : ResolvedPath) (A : Type)
    (k : ResolvedPath -> io A) (st : storage) :
  resolvePath request = Ok p ->
  bind (OPFSCache.resolved request) k st = k p st.
Proof. intros Hr. unfold OPFSCache.resolved, bind, ret. now rewrite Hr. Qed.

Lemma raw_path_extract (s : string) :
  includes ":" s = false -> includes "?" s = false ->
  extract (ReqString s) = Ok (s, EmptyString).
Proof.
  intros Hcolon Hq. unfold extract. rewrite (canParse_needs_scheme _ Hcolon).
  unfold includes in Hq. now destruct (indexOf "?" s).
Qed.

Lemma raw_path_rejected (s : string) :
  includes ":" s = false -> includes "?" s = false ->
  (segments_of s = [] \/
   Exists (fun seg => seg = "." \/ seg = "..") (segments_of s)) ->
  is_type_error (resolvePath (ReqString s)).
Proof.
  intros Hcolon Hq Hbad. unfold resolvePath.
  rewrite (raw_path_extract _ Hcolon Hq). now apply finish_rejects.
Qed.

Context `{JSON}.

(** C4. A key whose pathname has no non-empty segment, or has a segment
    "." or "..", is rejected with a [TypeError], and so is a key that is
    no string, request or URL; the four operations of the cache then
    throw that error and leave the storage and its journal as they
    were: no call on a handle has been made. *)
Theorem invalid_key_rejected_before_storage :
  (forall request pathname search,
     extract request = Ok (pathname, search) ->
     segments_of pathname = [] \/
     Exists (fun seg => seg = "." \/ seg = "..") (segments_of pathname) ->
     is_type_error (resolvePath request)) /\
  is_type_error (resolvePath ReqOther) /\
  Forall (fun s => is_type_error (resolvePath (ReqString s)))
         [EmptyString; "/"; "/a/../b"; "/./a"] /\
  (forall request,
     is_type_error (resolvePath request) ->
     forall (st : storage) (response : Response.t),
       (exists m, OPFSCache.match_ request st = (Err (TypeError m), st)) /\
       (exists m, OPFSCache.put request response st = (Err (TypeError m), st)) /\
       (exists m, OPFSCache.delete request st = (Err (TypeError m), st)) /\
       (exists m, OPFSCache.keys (Some request) st = (Err (TypeError m), st))).
Proof.
  split; [|split; [|split]].
  - intros request pathname search Hextract Hbad.
    unfold resolvePath. rewrite Hextract. now apply finish_rejects.
  - unfold is_type_error. simpl. eauto.
  - repeat constructor; apply raw_path_rejected; try reflexivity.
    + left. reflexivity.
    + left. reflexivity.
    + right. vm_compute. apply Exists_cons_tl, Exists_cons_hd. now right.
    + right. vm_compute. apply Exists_cons_hd. now left.
  - intros request [m Hm] st response. repeat split.
    + exists m. unfold OPFSCache.match_. now apply resolved_error.
    + unfold OPFSCache.put. destruct (Response.bodyUsed response).
      * unfold throw. eauto.
      * exists m. now apply resolved_error.
    + exists m. unfold OPFSCache.delete. now apply resolved_error.
    + exists m. unfold OPFSCache.keys. now apply resolved_error.
Qed.


End ResolverClaims.

Section FacadeClaims.
Context `{URLParser} `{JSON}.

(** C7. A data file without a sidecar is matched with status 200, an
    empty status text and no headers; a sidecar that is there and does
    not parse makes [match] throw the parser's error. Neither changes
    the storage. *)
Theorem match_tolerates_missing_sidecar (request : RequestInfo)
    (p : ResolvedPath) (st : storage) (es : directory) (data : string) :
  resolvePath request = Ok p ->
  resolve_dir (root st) (dir p) = Some es ->
  es !! file p = Some (File data) ->
  (es !! sidecar (file p) = None ->
   exists st',
     read_only st st' /\
     OPFSCache.match_ request st =
     (Ok (Some (Response.make (Some data) false 200 EmptyString ∅)), st')) /\
  (forall text,
     es !! sidecar (file p) = Some (File text) ->
     JSON_parse text = None ->
     exists st',
       read_only st st' /\
       OPFSCache.match_ request st = (Err SyntaxError, st')).
Proof.
  intros Hres Hdir Hfile.
  destruct (readEntry_hit st _ _ _ _ Hdir Hfile) as (st' & Hro & Hread).
  split.
  - intros Hmeta. rewrite Hmeta in Hread. exists st'. split; [exact Hro|].
    unfold OPFSCache.match_. rewrite (resolved_ok _ _ _ _ _ Hres).
    erewrite bind_ok by exact Hread. reflexivity.
  - intros text Hmeta Hparse. rewrite Hmeta, Hparse in Hread.
    exists st'. split; [exact Hro|].
    unfold OPFSCache.match_. rewrite (resolved_ok _ _ _ _ _ Hres).
    now erewrite bind_err by exact Hread.
Qed.

Lemma headers_survive (response : Response.t) :
  Object_fromEntries (Response.entries response) = Response.headers response.
Proof. apply list_to_map_to_list. Qed.

Lemma put_writes (request : RequestInfo) (p : ResolvedPath)
    (response : Response.t) (st : storage) :
  resolvePath request = Ok p ->
  Response.bodyUsed response = false ->
  OPFSCache.put request response st =
  OPFSFileSystem.write (dir p) (file p) (Response.body response)
    (meta_of response) st.
Proof.
  intros Hres Hbody. unfold OPFSCache.put. rewrite Hbody.
  now rewrite (resolved_ok _ _ _ _ _ Hres).
Qed.

(** A [put] that completes had an unread body, a key that resolves and
    a place to write to. *)
Lemma put_completed (request : RequestInfo) (response : Response.t)
    (st : storage) :
  fst (OPFSCache.put request response st) = Ok tt ->
  exists p,
    resolvePath request = Ok p /\
    Response.bodyUsed response = false /\
    writable_at (root st) (dir p) (file p) = true.
Proof.
  unfold OPFSCache.put. destruct (Response.bodyUsed response) eqn:Hused;
    [discriminate|].
  destruct (resolvePath request) as [p|e] eqn:Hres.
  - rewrite (resolved_ok _ _ _ _ _ Hres). intros Hok.
    exists p. repeat split.
    destruct (writable_at (root st) (dir p) (file p)) eqn:Hw; [reflexivity|].
    destruct (write_blocked st (dir p) (file p) (Response.body response)
                (meta_of response) Hw) as (st' & Hblocked).
    unfold meta_of in Hblocked. rewrite Hblocked in Hok. discriminate.
  - now rewrite (resolved_error _ _ _ _ _ Hres).
Qed.

End FacadeClaims.

Lemma writable_at_empty (dirSegments : list string) (fileName : string) :
  writable_at ∅ dirSegments fileName = true.
Proof.
  unfold writable_at. rewrite dirs_clear_empty.
  destruct dirSegments as [|seg rest]; simpl.
  - now rewrite !lookup_empty.
  - now rewrite lookup_empty.
Qed.

Section Pruning.
Context `{JSON}.

Lemma removeEntry_directory_was_empty (st st' : storage) (h : handle)
    (name : string) (es sub : directory) :
  removeEntry h name st = (Ok tt, st') ->
  resolve_dir (root st) h = Some es ->
  es !! name = Some (Dir sub) ->
  sub = ∅.
Proof.
  unfold removeEntry, perform, removeEntry_on. intros Hrm Hh Hn.
  rewrite Hh, Hn in Hrm. case_bool_decide as Hempty; [|discriminate].
  now apply map_to_list_empty_iff.
Qed.

Lemma remove_upwards_halts (st st1 : storage) (parent : handle) (seg : string)
    (rest : list (handle * string)) (e : exn) :
  removeEntry parent seg st = (Err e, st1) ->
  OPFSFileSystem.remove_upwards ((parent, seg) :: rest) st = (Ok tt, st1).
Proof. intros Hrm. simpl. now rewrite Hrm. Qed.

End Pruning.

(** ** The order of the calls of [write] *)

Lemma navigate_from_journal (segs : list string) (h : handle) (create : bool)
    (st : storage) :
  exists calls,
    journal (snd (OPFSFileSystem.navigate_from h segs create st)) =
    journal st ++ calls /\
    Forall is_navigation calls.
Proof.
  revert h st. induction segs as [|seg rest IH]; intros h st; simpl.
  - exists []. now rewrite app_nil_r.
  - unfold getDirectoryHandle at 1, perform.
    destruct (getDirectoryHandle_on h seg create (root st)) as [[h'|e] d] eqn:Hget.
    + destruct (IH h' (logged st (GetDirectoryHandle h seg create) true d))
        as (calls & Hj & Hnav).
      exists (mkEntry (GetDirectoryHandle h seg create) true d :: calls).
      split.
      * simpl. rewrite Hj. simpl. now rewrite <- app_assoc.
      * constructor; [|exact Hnav]. red. simpl. eauto.
    + exists [mkEntry (GetDirectoryHandle h seg create) false d]. split.
      * simpl. now destruct (negb create && isNotFound e).
      * repeat constructor. red. simpl. eauto.
Qed.

Lemma up_to_call_first (c : call) (seen before after : list entry) (e : entry) :
  Forall (fun e' => made e' <> c) before ->
  made e = c ->
  up_to_call c seen (before ++ e :: after) = Some (seen ++ before ++ [e]).
Proof.
  revert seen. induction before as [|e' before IH]; intros seen Hbefore He; simpl.
  - now rewrite bool_decide_eq_true_2.
  - apply Forall_cons in Hbefore as [He' Hbefore].
    rewrite bool_decide_eq_false_2 by exact He'.
    rewrite IH by assumption. now rewrite <- app_assoc.
Qed.

Lemma cut_short_first (before after : storage) (c : call)
    (calls rest : list entry) (e : entry) :
  journal after = journal before ++ calls ++ e :: rest ->
  Forall (fun e' => made e' <> c) calls ->
  made e = c ->
  cut_short before c after =
  Some (mkStorage (content e) (journal before ++ calls ++ [e])).
Proof.
  intros Hj Hcalls He. unfold cut_short.
  rewrite Hj, drop_app_length.
  rewrite (up_to_call_first c [] calls rest e Hcalls He). simpl.
  now rewrite last_snoc.
Qed.

Lemma modify_dir_ext (f g : directory -> directory) (d es : directory)
    (h : handle) :
  resolve_dir d h = Some es -> f es = g es -> modify_dir f h d = modify_dir g h d.
Proof.
  revert d. induction h as [|seg h IH]; intros d; simpl.
  - now intros [= ->].
  - destruct (d !! seg) as [[data|sub]|]; try discriminate.
    intros Hsub Hfg. now rewrite (IH _ Hsub Hfg).
Qed.

Lemma getFileHandle_creates (st : storage) (h : handle) (name : string)
    (es : directory) :
  resolve_dir (root st) h = Some es ->
  not_a_directory (es !! name) = true ->
  exists data,
    getFileHandle h name true st =
    (Ok (mkFileHandle h name),
     logged st (GetFileHandle h name true) true
       (modify_dir (touch name) h (root st))) /\
    touch name es = <[name := File data]> es.
Proof.
  intros Hh Hnd. unfold touch.
  destruct (es !! name) as [[data|sub]|] eqn:Hn; [| discriminate |].
  - rewrite (getFileHandle_file _ _ _ _ _ _ Hh Hn).
    exists data. rewrite (modify_dir_id _ _ es) by (unfold touch; now rewrite ?Hn).
    split; [reflexivity|]. now rewrite insert_id.
  - rewrite (getFileHandle_none _ _ _ _ _ Hh Hn).
    exists EmptyString. split; [|reflexivity].
    erewrite (modify_dir_ext (touch name)); [reflexivity | exact Hh |].
    unfold touch. now rewrite Hn.
Qed.

Section WriteTrace.
Context `{JSON}.

Lemma write_trace (st : storage) (dirSegments : list string)
    (fileName : string) (body : option string) (meta : CacheEntryMeta) :
  writable_at (root st) dirSegments fileName = true ->
  exists st1 d2 d3 d4 d5,
    OPFSFileSystem.navigate dirSegments true st = (Ok (Some dirSegments), st1) /\
    written dirSegments fileName (JSON_stringify meta) body (root st1) =
    (d2, d3, d4, d5) /\
    OPFSFileSystem.write dirSegments fileName body meta st =
    (Ok tt,
     mkStorage d5
       (journal st1
          ++ sidecar_calls dirSegments fileName (JSON_stringify meta) d2 d3
          ++ data_calls dirSegments fileName body d4 d5)) /\
    resolve_dir d3 dirSegments =
    Some (<[sidecar fileName := File (JSON_stringify meta)]>
            (default ∅ (resolve_dir (root st) dirSegments))) /\
    resolve_dir d5 dirSegments =
    Some (<[fileName := File (default EmptyString body)]>
            (<[sidecar fileName := File (JSON_stringify meta)]>
               (default ∅ (resolve_dir (root st) dirSegments)))).
Proof.
  unfold writable_at. intros [Hclear Hnames]%andb_true_iff.
  set (es0 := default ∅ (resolve_dir (root st) dirSegments)) in *.
  assert (Hfree : not_a_directory (es0 !! fileName) = true /\
                  not_a_directory (es0 !! sidecar fileName) = true).
  { subst es0. destruct (resolve_dir (root st) dirSegments); simpl.
    - now apply andb_true_iff.
    - now rewrite !lookup_empty. }
  destruct Hfree as [Hfile Hmeta].
  destruct (navigate_create dirSegments st Hclear) as (st1 & Hnav & Hdir1).
  fold es0 in Hdir1.
  exists st1.
  unfold OPFSFileSystem.write. fold (sidecar fileName).
  erewrite bind_ok by exact Hnav. cbv beta iota.
  destruct (getFileHandle_creates st1 _ _ _ Hdir1 Hmeta) as (old & Hget2 & Htouch2).
  set (d2 := modify_dir (touch (sidecar fileName)) dirSegments (root st1)) in *.
  assert (Hdir2 : resolve_dir d2 dirSegments =
                  Some (<[sidecar fileName := File old]> es0)).
  { subst d2. erewrite resolve_modify_dir by exact Hdir1. now rewrite Htouch2. }
  erewrite bind_ok by exact Hget2.
  erewrite bind_ok
    by (eapply createWritable_file; [exact Hdir2 | apply lookup_insert_eq]).
  erewrite bind_ok by apply write_buffer.
  cbn [target buffer String.append].
  erewrite bind_ok
    by (eapply close_file; [exact Hdir2 | apply lookup_insert_eq]).
  set (d3 := modify_dir (insert (sidecar fileName) (File (JSON_stringify meta)))
               dirSegments d2).
  assert (Hdir3 : resolve_dir d3 dirSegments =
                  Some (<[sidecar fileName := File (JSON_stringify meta)]> es0)).
  { subst d3. erewrite resolve_modify_dir by exact Hdir2.
    now rewrite insert_insert_eq. }
  assert (Hfile3 : not_a_directory
                     (<[sidecar fileName := File (JSON_stringify meta)]> es0
                        !! fileName) = true).
  { rewrite lookup_insert_ne by apply sidecar_neq. exact Hfile. }
  match goal with
  | |- context [bind (getFileHandle dirSegments fileName true) _ ?s] =>
      destruct (getFileHandle_creates s _ _ _ Hdir3 Hfile3)
        as (old4 & Hget4 & Htouch4)
  end.
  cbn [root logged] in Hget4.
  set (d4 := modify_dir (touch fileName) dirSegments d3) in *.
  assert (Hdir4 : resolve_dir d4 dirSegments =
                  Some (<[fileName := File old4]>
                          (<[sidecar fileName := File (JSON_stringify meta)]> es0))).
  { subst d4. erewrite resolve_modify_dir by exact Hdir3. now rewrite Htouch4. }
  erewrite bind_ok by exact Hget4.
  erewrite bind_ok
    by (eapply createWritable_file; [exact Hdir4 | apply lookup_insert_eq]).
  set (d5 := modify_dir (insert fileName (File (default EmptyString body)))
               dirSegments d4).
  assert (Hdir5 : resolve_dir d5 dirSegments =
                  Some (<[fileName := File (default EmptyString body)]>
                          (<[sidecar fileName := File (JSON_stringify meta)]> es0))).
  { subst d5. erewrite resolve_modify_dir by exact Hdir4.
    now rewrite insert_insert_eq. }
  exists d2, d3, d4, d5. split; [exact Hnav|]. split; [reflexivity|].
  split; [|split; [exact Hdir3 | exact Hdir5]].
  destruct body as [bytes|]; simpl.
  - unfold pipeTo. erewrite bind_ok by apply write_buffer.
    cbn [target buffer String.append].
    erewrite close_file; [| exact Hdir4 | apply lookup_insert_eq].
    unfold logged. simpl. rewrite <- !app_assoc. reflexivity.
  - erewrite close_file; [| exact Hdir4 | apply lookup_insert_eq].
    unfold logged. simpl. rewrite <- !app_assoc. reflexivity.
Qed.

End WriteTrace.

Lemma navigate_journal (segs : list string) (create : bool) (st : storage) :
  exists calls,
    journal (snd (OPFSFileSystem.navigate segs create st)) = journal st ++ calls /\
    Forall is_navigation calls.
Proof. apply (navigate_from_journal segs [] create st). Qed.

Lemma exists_found (st : storage) (dirSegments : list string)
    (fileName : string) (es : directory) :
  resolve_dir (root st) dirSegments = Some es ->
  not_a_directory (es !! fileName) = true ->
  exists st',
    read_only st st' /\
    OPFSFileSystem.exists_ dirSegments fileName st =
    (Ok (data_file_present es fileName), st').
Proof.
  intros Hdir Hnd. unfold OPFSFileSystem.exists_.
  destruct (navigate_found _ _ _ Hdir) as (st1 & Hro & Hnav).
  erewrite bind_ok by exact Hnav. cbv beta iota.
  pose proof Hro as [Hr1 _]. rewrite <- Hr1 in Hdir.
  unfold data_file_present.
  destruct (es !! fileName) as [[data|sub]|] eqn:Hfile; [| discriminate |].
  - erewrite try_catch_ok
      by (erewrite bind_ok by (eapply getFileHandle_file; eassumption);
          reflexivity).
    eexists. split; [|reflexivity].
    eapply read_only_trans; [exact Hro|]. apply read_only_logged.
  - erewrite try_catch_err
      by (erewrite bind_err
            by (rewrite (getFileHandle_none _ _ _ _ _ Hdir Hfile); reflexivity);
          reflexivity).
    eexists. split; [|reflexivity].
    eapply read_only_trans; [exact Hro|]. apply read_only_logged.
Qed.

Section CutShort.
Context `{URLParser} `{JSON}.

(** Every completed [write] makes its calls in this order: the walk
    down the directories, the sidecar up to its [close], and only then
    the data file. *)
Lemma write_commits_sidecar_first (st : storage) (dirSegments : list string)
    (fileName : string) (body : option string) (meta : CacheEntryMeta) :
  writable_at (root st) dirSegments fileName = true ->
  exists walk_down d2 d3 d4 d5,
    Forall is_navigation walk_down /\
    OPFSFileSystem.write dirSegments fileName body meta st =
    (Ok tt,
     mkStorage d5
       (journal st ++ walk_down
          ++ sidecar_calls dirSegments fileName (JSON_stringify meta) d2 d3
          ++ data_calls dirSegments fileName body d4 d5)) /\
    resolve_dir d3 dirSegments =
    Some (<[sidecar fileName := File (JSON_stringify meta)]>
            (default ∅ (resolve_dir (root st) dirSegments))).
Proof.
  intros Hwritable.
  destruct (write_trace st dirSegments fileName body meta Hwritable)
    as (st1 & d2 & d3 & d4 & d5 & Hnav & _ & Hwrite & Hdir3 & _).
  destruct (navigate_journal dirSegments true st) as (walk_down & Hj & Hwalk).
  rewrite Hnav in Hj. simpl in Hj.
  exists walk_down, d2, d3, d4, d5. split; [exact Hwalk|].
  split; [|exact Hdir3]. rewrite Hwrite, Hj. now rewrite <- app_assoc.
Qed.

(** X17. The write of an entry whose data file is not there yet, cut
    short after the sidecar's [close], leaves a miss: [exists] returns
    false, and [readEntry] and [match] return nothing. *)
Lemma new_entry_cut_short_is_a_miss (st : storage) (dirSegments : list string)
    (fileName : string) (body : option string) (meta : CacheEntryMeta) :
  writable_at (root st) dirSegments fileName = true ->
  default ∅ (resolve_dir (root st) dirSegments) !! fileName = None ->
  exists cut,
    cut_short st (WritableClose (mkFileHandle dirSegments (sidecar fileName)))
      (snd (OPFSFileSystem.write dirSegments fileName body meta st)) = Some cut /\
    fst (OPFSFileSystem.exists_ dirSegments fileName cut) = Ok false /\
    fst (OPFSFileSystem.readEntry dirSegments fileName cut) = Ok None /\
    forall request,
      resolvePath request = Ok (mkResolvedPath dirSegments fileName) ->
      fst (OPFSCache.match_ request cut) = Ok None.
Proof.
  intros Hwritable Hnew.
  destruct (write_commits_sidecar_first st dirSegments fileName body meta Hwritable)
    as (walk_down & d2 & d3 & d4 & d5 & Hwalk & Hwrite & Hdir3).
  rewrite Hwrite. simpl snd.
  set (c := WritableClose (mkFileHandle dirSegments (sidecar fileName))).
  eexists. split.
  { unfold sidecar_calls.
    apply (cut_short_first st _ c
             (walk_down ++
                [mkEntry (GetFileHandle dirSegments (sidecar fileName) true) true d2;
                 mkEntry (CreateWritable (mkFileHandle dirSegments (sidecar fileName)))
                   true d2;
                 mkEntry (WritableWrite (mkFileHandle dirSegments (sidecar fileName))
                            (JSON_stringify meta)) true d2])
             (data_calls dirSegments fileName body d4 d5)
             (mkEntry c true d3)).
    - simpl. now rewrite <- !app_assoc.
    - apply Forall_app. split.
      + eapply Forall_impl; [exact Hwalk|].
        intros e (h & name & create & ->). discriminate.
      + repeat constructor; discriminate.
    - reflexivity. }
  set (cut := mkStorage _ _).
  assert (Hdir : resolve_dir (root cut) dirSegments =
                 Some (<[sidecar fileName := File (JSON_stringify meta)]>
                         (default ∅ (resolve_dir (root st) dirSegments))))
    by exact Hdir3.
  assert (Hfile : <[sidecar fileName := File (JSON_stringify meta)]>
                    (default ∅ (resolve_dir (root st) dirSegments))
                    !! fileName = None).
  { rewrite lookup_insert_ne by apply sidecar_neq. exact Hnew. }
  destruct (exists_found cut _ fileName _ Hdir) as (st' & _ & Hexists).
  { now rewrite Hfile. }
  destruct (readEntry_no_file cut _ _ _ Hdir Hfile) as (st'' & _ & Hread).
  split; [|split].
  - rewrite Hexists. unfold data_file_present. now rewrite Hfile.
  - now rewrite Hread.
  - intros request Hres. unfold OPFSCache.match_.
    rewrite (resolved_ok _ _ _ _ _ Hres). simpl.
    erewrite bind_ok by exact Hread. reflexivity.
Qed.

End CutShort.

(** ** Chains of directories and the removals in the journal *)

Lemma resolve_dir_chain (segs : list string) (leaf : directory) :
  resolve_dir (chain segs leaf) segs = Some leaf.
Proof.
  induction segs as [|seg rest IH]; simpl; [reflexivity|].
  now rewrite lookup_singleton_eq.
Qed.

Lemma modify_dir_chain (f : directory -> directory) (segs : list string)
    (leaf : directory) :
  modify_dir f segs (chain segs leaf) = chain segs (f leaf).
Proof.
  induction segs as [|seg rest IH]; simpl; [reflexivity|].
  rewrite lookup_singleton_eq, IH. apply insert_singleton_eq.
Qed.

Lemma chain_app (xs ys : list string) (leaf : directory) :
  chain (xs ++ ys) leaf = chain xs (chain ys leaf).
Proof. induction xs as [|x xs IH]; simpl; [reflexivity | now rewrite IH]. Qed.

Lemma removed_removals (st : storage) : removed st = removals_of (journal st).
Proof. reflexivity. Qed.

Lemma removals_of_app (l1 l2 : list entry) :
  removals_of (l1 ++ l2) = removals_of l1 ++ removals_of l2.
Proof. apply omap_app. Qed.

Lemma removals_of_navigation (calls : list entry) :
  Forall is_navigation calls -> removals_of calls = [].
Proof.
  induction 1 as [|e l (h & name & create & He) _ IH]; [reflexivity|].
  unfold removals_of in *. simpl. now rewrite He.
Qed.

Lemma removed_logged (st : storage) (c : call) (ok : bool) (d : directory) :
  removed (logged st c ok d) = removed st ++ removals_of [mkEntry c ok d].
Proof. unfold logged. rewrite !removed_removals. apply removals_of_app. Qed.

(** ** More on [modify_dir] *)

Lemma modify_dir_compose (f g : directory -> directory) (d : directory)
    (h : handle) :
  modify_dir g h (modify_dir f h d) = modify_dir (fun es => g (f es)) h d.
Proof.
  revert d. induction h as [|seg h IH]; intros d; simpl; [reflexivity|].
  destruct (d !! seg) as [[data|sub]|] eqn:Hseg; simpl; rewrite ?Hseg; try reflexivity.
  now rewrite lookup_insert_eq, insert_insert_eq, IH.
Qed.

Lemma modify_dir_app (f : directory -> directory) (d : directory) (h k : handle) :
  modify_dir f (h ++ k) d = modify_dir (modify_dir f k) h d.
Proof.
  revert d. induction h as [|seg h IH]; intros d; simpl; [reflexivity|].
  destruct (d !! seg) as [[data|sub]|]; try reflexivity. now rewrite IH.
Qed.

Lemma removeEntry_nonempty (st : storage) (h : handle) (name : string)
    (es sub : directory) :
  resolve_dir (root st) h = Some es -> es !! name = Some (Dir sub) ->
  sub <> ∅ ->
  removeEntry h name st =
  (Err InvalidModificationError, logged st (RemoveEntry h name) false (root st)).
Proof.
  intros Hh Hn Hsub. unfold removeEntry, perform, removeEntry_on.
  rewrite Hh, Hn. rewrite bool_decide_eq_false_2; [reflexivity|].
  now rewrite map_to_list_empty_iff.
Qed.

(** ** The climb over a chain of empty directories *)

Lemma collect_parents_found (segs : list string) (dir : handle)
    (parents : list handle) (st : storage) (es : directory) :
  resolve_dir (root st) (dir ++ segs) = Some es ->
  exists st',
    root st' = root st /\ removed st' = removed st /\
    OPFSFileSystem.collect_parents dir segs parents st =
    (Ok (Some (parents ++ below dir segs)), st').
Proof.
  revert dir parents st. induction segs as [|seg rest IH];
    intros dir parents st Hes; simpl.
  - exists st. now rewrite app_nil_r.
  - rewrite resolve_dir_app in Hes.
    destruct (resolve_dir (root st) dir) as [here|] eqn:Hdir; [|discriminate].
    simpl in Hes.
    destruct (here !! seg) as [[data|sub]|] eqn:Hseg; try discriminate.
    rewrite (getDirectoryHandle_dir _ _ _ _ _ _ Hdir Hseg).
    destruct (IH (dir ++ [seg]) (parents ++ [dir ++ [seg]])
                (logged st (GetDirectoryHandle dir seg false) true (root st)))
      as (st' & Hroot & Hremoved & ->).
    { simpl. rewrite resolve_dir_app, (resolve_dir_snoc _ _ _ _ Hdir), Hseg.
      exact Hes. }
    exists st'. split; [exact Hroot|]. split.
    + rewrite Hremoved, removed_logged. apply app_nil_r.
    + now rewrite <- app_assoc.
Qed.

Lemma remove_upwards_chain (rest : list string) (above : handle) (st : storage)
    (steps : list (handle * string)) :
  resolve_dir (root st) above = Some (chain rest ∅) ->
  exists st',
    OPFSFileSystem.remove_upwards (climb_from above rest ++ steps) st =
    OPFSFileSystem.remove_upwards steps st' /\
    root st' = modify_dir (fun _ => ∅) above (root st) /\
    removed st' = removed st ++ climb_from above rest.
Proof.
  revert above st steps. induction rest as [|seg rest IH];
    intros above st steps Habove.
  - exists st. simpl. split; [reflexivity|]. split.
    + symmetry. now apply modify_dir_id with ∅.
    + now rewrite app_nil_r.
  - simpl in *. rewrite <- app_assoc. simpl.
    destruct (IH (above ++ [seg]) st ((above, seg) :: steps))
      as (st1 & -> & Hroot1 & Hremoved1).
    { rewrite (resolve_dir_snoc _ _ _ _ Habove). now rewrite lookup_singleton_eq. }
    assert (Habove1 : resolve_dir (root st1) above = Some {[ seg := Dir ∅ ]}).
    { rewrite Hroot1, modify_dir_app.
      erewrite resolve_modify_dir by exact Habove.
      simpl. rewrite lookup_singleton_eq. now rewrite insert_singleton_eq. }
    simpl.
    rewrite (removeEntry_empty_dir _ _ _ _ Habove1 (lookup_singleton_eq _ _)).
    eexists. split; [reflexivity|]. split.
    + simpl. rewrite Hroot1, modify_dir_app, modify_dir_compose.
      apply modify_dir_ext with {[ seg := Dir (chain rest ∅) ]}; [exact Habove|].
      simpl. rewrite lookup_singleton_eq, insert_singleton_eq.
      apply delete_singleton_eq.
    + rewrite removed_logged, Hremoved1. now rewrite <- app_assoc.
Qed.

Lemma steps_climb (segs : list string) (above : handle) :
  segs <> [] ->
  rev (zip (above :: below above (firstn (length segs - 1) segs)) segs) =
  climb_from above segs.
Proof.
  revert above. induction segs as [|seg rest IH]; intros above Hne; [congruence|].
  destruct rest as [|r rs]; [reflexivity|].
  specialize (IH (above ++ [seg])).
  replace (length (seg :: r :: rs) - 1) with (S (length rs)) by (simpl; lia).
  replace (length (r :: rs) - 1) with (length rs) in IH by (simpl; lia).
  cbn [firstn below zip zip_with rev climb_from] in *.
  rewrite IH by discriminate. reflexivity.
Qed.

Lemma climb_from_snoc (above : handle) (xs : list string) (x : string) :
  climb_from above (xs ++ [x]) = (above ++ xs, x) :: climb_from above xs.
Proof.
  revert above. induction xs as [|y xs IH]; intros above; simpl.
  - now rewrite app_nil_r.
  - rewrite IH. now rewrite <- app_assoc.
Qed.

Lemma navigate_found_removed (segs : list string) (st : storage) (es : directory) :
  resolve_dir (root st) segs = Some es ->
  exists st',
    root st' = root st /\ removed st' = removed st /\
    OPFSFileSystem.navigate segs false st = (Ok (Some segs), st').
Proof.
  intros Hes. destruct (navigate_found _ _ _ Hes) as (st' & [Hroot _] & Hnav).
  exists st'. split; [exact Hroot|]. split; [|exact Hnav].
  destruct (navigate_journal segs false st) as (calls & Hj & Hcalls).
  rewrite Hnav in Hj. simpl in Hj.
  rewrite !removed_removals, Hj, removals_of_app.
  rewrite (removals_of_navigation calls Hcalls). apply app_nil_r.
Qed.

(** [delete] of a data file that is there, up to the pruning. *)
Lemma delete_found (st : storage) (dirSegments : list string)
    (fileName data : string) (es : directory) :
  resolve_dir (root st) dirSegments = Some es ->
  es !! fileName = Some (File data) ->
  not_a_directory (es !! sidecar fileName) = true ->
  exists st3,
    OPFSFileSystem.delete dirSegments fileName st =
    (Ok true, snd (OPFSFileSystem.cleanEmptyDirs dirSegments st3)) /\
    root st3 =
    modify_dir (fun es => delete (sidecar fileName) (delete fileName es))
      dirSegments (root st) /\
    removed st3 =
    removed st ++
      (dirSegments, fileName)
      :: (if data_file_present es (sidecar fileName)
          then [(dirSegments, sidecar fileName)] else []).
Proof.
  intros Hdir Hfile Hmeta. unfold OPFSFileSystem.delete.
  destruct (navigate_found_removed _ _ _ Hdir) as (st1 & Hr1 & Hrem1 & Hnav).
  erewrite bind_ok by exact Hnav. cbv beta iota.
  rewrite <- Hr1 in Hdir.
  destruct (removeEntry_not_directory st1 _ fileName _ Hdir)
    as (st2 & Hrm2 & Hj2 & Hr2 & Hdir2); [now rewrite Hfile|].
  assert (Hpresent : data_file_present es fileName = true)
    by (unfold data_file_present; now rewrite Hfile).
  rewrite Hpresent in Hrm2, Hj2.
  assert (Hmeta2 : not_a_directory (delete fileName es !! sidecar fileName) = true).
  { rewrite lookup_delete_ne by (apply not_eq_sym, sidecar_neq). exact Hmeta. }
  destruct (removeEntry_not_directory st2 _ _ _ Hdir2 Hmeta2)
    as (st3 & Hrm3 & Hj3 & Hr3 & Hdir3).
  rewrite data_file_present_delete in Hrm3, Hj3 by (apply not_eq_sym, sidecar_neq).
  fold (sidecar fileName).
  erewrite bind_ok; cycle 1.
  { apply try_catch_ok. erewrite bind_ok by exact Hrm2. reflexivity. }
  assert (Hsecond :
    try_catch (removeEntry dirSegments (sidecar fileName))
      (OPFSFileSystem.rethrow_unless_not_found tt) st2 = (Ok tt, st3)).
  { unfold try_catch. rewrite Hrm3.
    destruct (data_file_present es (sidecar fileName)); reflexivity. }
  erewrite bind_ok by exact Hsecond.
  destruct (cleanEmptyDirs_ok dirSegments st3) as (st4 & Hclean).
  erewrite bind_ok by exact Hclean.
  exists st3. rewrite Hclean. split; [reflexivity|]. split.
  - rewrite Hr3, Hr2, Hr1. apply modify_dir_compose.
  - rewrite (removed_removals st3), Hj3, removals_of_app, <- removed_removals.
    rewrite (removed_removals st2), Hj2, removals_of_app, <- removed_removals.
    rewrite Hrem1, <- app_assoc. f_equal. unfold removals_of. simpl.
    now destruct (data_file_present es (sidecar fileName)).
Qed.

Lemma resolve_dir_chain_firstn (segs : list string) (leaf : directory) (n : nat) :
  resolve_dir (chain segs leaf) (firstn n segs) = Some (chain (skipn n segs) leaf).
Proof.
  rewrite <- (firstn_skipn n segs) at 1. rewrite chain_app.
  apply resolve_dir_chain.
Qed.

Lemma cleanEmptyDirs_chain (segs : list string) (st : storage) :
  root st = chain segs ∅ ->
  exists st',
    OPFSFileSystem.cleanEmptyDirs segs st = (Ok tt, st') /\
    root st' = ∅ /\
    removed st' = removed st ++ climb_from [] segs.
Proof.
  intros Hroot. unfold OPFSFileSystem.cleanEmptyDirs.
  destruct segs as [|seg rest] eqn:Hsegs.
  - exists st. simpl. now rewrite app_nil_r.
  - rewrite <- Hsegs in *.
    assert (Hne : segs <> []) by (rewrite Hsegs; discriminate).
    replace (length segs =? 0)%nat with false
      by (rewrite Hsegs; reflexivity).
    erewrite bind_ok by reflexivity.
    destruct (collect_parents_found (firstn (length segs - 1) segs) [] [[]] st
                (chain (skipn (length segs - 1) segs) ∅))
      as (st1 & Hroot1 & Hremoved1 & Hcollect).
    { simpl. rewrite Hroot. apply resolve_dir_chain_firstn. }
    erewrite bind_ok by exact Hcollect. cbv beta iota.
    change ([[]] ++ below [] (firstn (length segs - 1) segs))
      with ([] :: below [] (firstn (length segs - 1) segs)).
    rewrite (steps_climb segs [] Hne).
    destruct (remove_upwards_chain segs [] st1 [])
      as (st2 & Hup & Hroot2 & Hremoved2).
    { simpl. now rewrite Hroot1, Hroot. }
    rewrite app_nil_r in Hup. rewrite Hup.
    exists st2. split; [reflexivity|]. split.
    + exact Hroot2.
    + now rewrite Hremoved2, Hremoved1.
Qed.

Lemma entry_files_deleted (fileName data meta_text : string) :
  delete (sidecar fileName) (delete fileName (entry_files fileName data meta_text))
  = ∅.
Proof.
  unfold entry_files. rewrite delete_insert_eq.
  rewrite (delete_id _ fileName) by apply lookup_singleton_ne, sidecar_neq.
  apply delete_singleton_eq.
Qed.

Lemma only_entry_pruned (segs : list string) (fileName data meta_text : string)
    (st : storage) :
  root st = chain segs (entry_files fileName data meta_text) ->
  exists st',
    OPFSFileSystem.delete segs fileName st = (Ok true, st') /\
    root st' = ∅ /\
    removed st' =
    removed st ++ [(segs, fileName); (segs, sidecar fileName)]
      ++ climb_from [] segs.
Proof.
  intros Hroot.
  assert (Hdir : resolve_dir (root st) segs =
                 Some (entry_files fileName data meta_text))
    by (rewrite Hroot; apply resolve_dir_chain).
  assert (Hmeta : entry_files fileName data meta_text !! sidecar fileName
                  = Some (File meta_text)).
  { unfold entry_files. rewrite lookup_insert_ne by (apply not_eq_sym, sidecar_neq).
    apply lookup_singleton_eq. }
  destruct (delete_found st segs fileName data _ Hdir)
    as (st3 & Hdelete & Hroot3 & Hremoved3).
  { apply lookup_insert_eq. }
  { now rewrite Hmeta. }
  unfold data_file_present in Hremoved3. rewrite Hmeta in Hremoved3.
  destruct (cleanEmptyDirs_chain segs st3) as (st4 & Hclean & Hroot4 & Hremoved4).
  { rewrite Hroot3, Hroot, modify_dir_chain. now rewrite entry_files_deleted. }
  rewrite Hclean in Hdelete. exists st4. split; [exact Hdelete|].
  split; [exact Hroot4|].
  rewrite Hremoved4, Hremoved3. now rewrite <- app_assoc.
Qed.

Lemma firstn_all_but_last (xs : list string) (x : string) :
  firstn (length (xs ++ [x]) - 1) (xs ++ [x]) = xs.
Proof.
  rewrite length_app. simpl.
  replace (length xs + 1 - 1) with (length xs) by lia.
  rewrite firstn_app, firstn_all, Nat.sub_diag. simpl. apply app_nil_r.
Qed.

Lemma remove_upwards_blocked (segs : list string) (others : directory)
    (st : storage) :
  root st = chain segs others ->
  others <> ∅ ->
  exists st',
    OPFSFileSystem.remove_upwards (climb_from [] segs) st = (Ok tt, st') /\
    root st' = root st /\ removed st' = removed st.
Proof.
  intros Hroot Hothers.
  destruct segs as [|bottom front _] using rev_ind.
  - exists st. auto.
  - rewrite climb_from_snoc. simpl app.
    assert (Hdir : resolve_dir (root st) front = Some {[ bottom := Dir others ]})
      by (rewrite Hroot, chain_app; apply resolve_dir_chain).
    rewrite (remove_upwards_halts _ _ _ _ _ _
               (removeEntry_nonempty _ _ _ _ _ Hdir (lookup_singleton_eq _ _)
                  Hothers)).
    eexists. split; [reflexivity|]. split; [reflexivity|].
    rewrite removed_logged. apply app_nil_r.
Qed.

Lemma sibling_stops_pruning (segs : list string) (c fileName data meta_text : string)
    (others : directory) (st : storage) :
  others !! c = None ->
  others <> ∅ ->
  root st = chain segs (<[c := Dir (entry_files fileName data meta_text)]> others) ->
  exists st',
    OPFSFileSystem.delete (segs ++ [c]) fileName st = (Ok true, st') /\
    root st' = chain segs others /\
    removed st' =
    removed st ++
      [(segs ++ [c], fileName); (segs ++ [c], sidecar fileName); (segs, c)].
Proof.
  intros Hfresh Hothers Hroot.
  set (entry := entry_files fileName data meta_text) in *.
  assert (Hsegs : resolve_dir (root st) segs = Some (<[c := Dir entry]> others))
    by (rewrite Hroot; apply resolve_dir_chain).
  assert (Hdir : resolve_dir (root st) (segs ++ [c]) = Some entry).
  { rewrite (resolve_dir_snoc _ _ _ _ Hsegs). now rewrite lookup_insert_eq. }
  assert (Hmeta : entry !! sidecar fileName = Some (File meta_text)).
  { unfold entry, entry_files.
    rewrite lookup_insert_ne by (apply not_eq_sym, sidecar_neq).
    apply lookup_singleton_eq. }
  destruct (delete_found st (segs ++ [c]) fileName data _ Hdir)
    as (st3 & Hdelete & Hroot3 & Hremoved3).
  { apply lookup_insert_eq. }
  { now rewrite Hmeta. }
  unfold data_file_present in Hremoved3. rewrite Hmeta in Hremoved3.
  assert (Hroot3' : root st3 = chain segs (<[c := Dir ∅]> others)).
  { rewrite Hroot3, modify_dir_app, Hroot, modify_dir_chain. f_equal.
    simpl. rewrite lookup_insert_eq, insert_insert_eq.
    unfold entry. now rewrite entry_files_deleted. }
  (* the pruning *)
  unfold OPFSFileSystem.cleanEmptyDirs in Hdelete.
  replace (length (segs ++ [c]) =? 0)%nat with false in Hdelete
    by (rewrite length_app; simpl; symmetry; apply Nat.eqb_neq; lia).
  erewrite bind_ok in Hdelete by reflexivity.
  destruct (collect_parents_found
              (firstn (length (segs ++ [c]) - 1) (segs ++ [c])) [] [[]] st3
              (<[c := Dir ∅]> others))
    as (st4 & Hroot4 & Hremoved4 & Hcollect).
  { rewrite firstn_all_but_last. simpl. rewrite Hroot3'. apply resolve_dir_chain. }
  erewrite bind_ok in Hdelete by exact Hcollect. cbv beta iota in Hdelete.
  change ([[]] ++ below [] (firstn (length (segs ++ [c]) - 1) (segs ++ [c])))
    with ([] :: below [] (firstn (length (segs ++ [c]) - 1) (segs ++ [c])))
    in Hdelete.
  rewrite (steps_climb (segs ++ [c]) []) in Hdelete
    by (intros Hnil; apply app_eq_nil in Hnil as [_ [=]]).
  rewrite climb_from_snoc in Hdelete. simpl app in Hdelete.
  assert (Hsegs4 : resolve_dir (root st4) segs = Some (<[c := Dir ∅]> others))
    by (rewrite Hroot4, Hroot3'; apply resolve_dir_chain).
  cbn [OPFSFileSystem.remove_upwards] in Hdelete.
  rewrite (removeEntry_empty_dir _ _ _ _ Hsegs4 (lookup_insert_eq _ _ _))
    in Hdelete.
  set (st5 := logged st4 _ _ _) in Hdelete.
  assert (Hroot5 : root st5 = chain segs others).
  { subst st5. simpl. rewrite Hroot4, Hroot3', modify_dir_chain.
    now rewrite delete_insert_eq, delete_id. }
  destruct (remove_upwards_blocked segs others st5 Hroot5 Hothers)
    as (st6 & Hup & Hroot6 & Hremoved6).
  rewrite Hup in Hdelete. exists st6. split; [exact Hdelete|].
  split; [now rewrite Hroot6|].
  rewrite Hremoved6. subst st5. rewrite removed_logged, Hremoved4, Hremoved3.
  rewrite <- app_assoc. reflexivity.
Qed.

(** ** The content [write] leaves *)

Lemma mkdirs_empty (segs : list string) : mkdirs segs ∅ = chain segs ∅.
Proof.
  induction segs as [|seg rest IH]; simpl; [reflexivity|].
  rewrite lookup_empty, IH. apply insert_empty.
Qed.

Lemma navigate_from_create_root (segs : list string) (h : handle) (st : storage)
    (d : directory) :
  resolve_dir (root st) h = Some d ->
  dirs_clear d segs = true ->
  root (snd (OPFSFileSystem.navigate_from h segs true st)) =
  modify_dir (mkdirs segs) h (root st).
Proof.
  revert h st d. induction segs as [|seg rest IH]; intros h st d Hh Hclear.
  - simpl. symmetry. now apply modify_dir_id with d.
  - simpl in Hclear |- *. destruct (d !! seg) as [[data|sub]|] eqn:Hseg.
    + discriminate.
    + rewrite (getDirectoryHandle_dir _ _ _ _ _ _ Hh Hseg).
      rewrite (IH _ _ sub); [| |exact Hclear].
      * simpl. rewrite modify_dir_app.
        apply modify_dir_ext with d; [exact Hh|]. simpl. now rewrite Hseg.
      * simpl. now rewrite (resolve_dir_snoc _ _ _ _ Hh), Hseg.
    + rewrite (getDirectoryHandle_none _ _ _ _ _ Hh Hseg).
      rewrite (IH _ _ ∅); [| |apply dirs_clear_empty].
      * simpl. rewrite modify_dir_app, modify_dir_compose.
        apply modify_dir_ext with d; [exact Hh|]. simpl.
        rewrite lookup_insert_eq, insert_insert_eq. now rewrite Hseg.
      * simpl. rewrite (resolve_dir_snoc _ (<[seg := Dir ∅]> d)).
        -- now rewrite lookup_insert_eq.
        -- now apply resolve_modify_dir.
Qed.

Lemma resolve_dir_mkdirs (segs : list string) (d : directory) :
  dirs_clear d segs = true ->
  resolve_dir (mkdirs segs d) segs = Some (default ∅ (resolve_dir d segs)).
Proof.
  revert d. induction segs as [|seg rest IH]; intros d Hclear; [reflexivity|].
  simpl in *. destruct (d !! seg) as [[data|sub]|] eqn:Hseg; [discriminate| |].
  - rewrite lookup_insert_eq. now apply IH.
  - rewrite lookup_insert_eq, IH by apply dirs_clear_empty.
    now rewrite resolve_dir_empty.
Qed.

Section WriteContent.
Context `{JSON}.

(** The content [write] leaves: the missing directories are made, and
    in the last one the sidecar and the data file are set. *)
Lemma write_root (st : storage) (dirSegments : list string)
    (fileName : string) (body : option string) (meta : CacheEntryMeta) :
  writable_at (root st) dirSegments fileName = true ->
  root (snd (OPFSFileSystem.write dirSegments fileName body meta st)) =
  modify_dir
    (fun es => <[fileName := File (default EmptyString body)]>
                 (<[sidecar fileName := File (JSON_stringify meta)]> es))
    dirSegments (mkdirs dirSegments (root st)).
Proof.
  intros Hwritable.
  destruct (write_trace st dirSegments fileName body meta Hwritable)
    as (st1 & d2 & d3 & d4 & d5 & Hnav & Hwritten & -> & _).
  simpl. unfold written in Hwritten. injection Hwritten as <- <- <- <-.
  assert (Hclear : dirs_clear (root st) dirSegments = true)
    by (unfold writable_at in Hwritable; now apply andb_true_iff in Hwritable).
  assert (Hroot1 : root st1 = mkdirs dirSegments (root st)).
  { pose proof (navigate_from_create_root dirSegments [] st (root st) eq_refl Hclear)
      as Hroot.
    unfold OPFSFileSystem.navigate in Hnav.
    erewrite bind_ok in Hnav by reflexivity. now rewrite Hnav in Hroot. }
  rewrite Hroot1, !modify_dir_compose.
  eapply modify_dir_ext; [now apply resolve_dir_mkdirs|].
  set (es0 := default ∅ (resolve_dir (root st) dirSegments)).
  assert (Htouch : forall name (es : directory) x,
            <[name := x]> (touch name es) = <[name := x]> es).
  { intros name es x. unfold touch. destruct (es !! name); [reflexivity|].
    apply insert_insert_eq. }
  now rewrite !Htouch.
Qed.

Lemma write_on_empty (dirSegments : list string) (fileName : string)
    (body : option string) (meta : CacheEntryMeta) :
  fst (OPFSFileSystem.write dirSegments fileName body meta Storage.empty) = Ok tt /\
  root (snd (OPFSFileSystem.write dirSegments fileName body meta Storage.empty)) =
  chain dirSegments
    (entry_files fileName (default EmptyString body) (JSON_stringify meta)).
Proof.
  assert (Hwritable : writable_at (root Storage.empty) dirSegments fileName = true)
    by apply writable_at_empty.
  split.
  - destruct (write_succeeds _ dirSegments fileName body meta Hwritable)
      as (st' & -> & _). reflexivity.
  - rewrite (write_root _ _ _ _ _ Hwritable). simpl.
    rewrite mkdirs_empty, modify_dir_chain. reflexivity.
Qed.

End WriteContent.

(** ** Induction on the directory tree *)

Lemma node_size_child (es : directory) (name : string) (ch : node) :
  es !! name = Some ch -> node_size ch < node_size (Dir es).
Proof.
  intros Hch. rewrite <- (insert_delete_id es name ch Hch). simpl.
  rewrite map_fold_insert_L.
  - lia.
  - intros. lia.
  - apply lookup_delete_eq.
Qed.

Lemma node_tree_ind (P : node -> Prop) :
  (forall data, P (File data)) ->
  (forall es, (forall name ch, es !! name = Some ch -> P ch) -> P (Dir es)) ->
  forall n, P n.
Proof.
  intros Hfile Hdir n.
  remember (node_size n) as k eqn:Hk.
  revert n Hk. induction (lt_wf k) as [k _ IH]. intros n ->.
  destruct n as [data | es]; [apply Hfile |].
  apply Hdir. intros name ch Hch.
  apply (IH (node_size ch)); [| reflexivity].
  exact (node_size_child es name ch Hch).
Qed.

Lemma last_cons (A : Type) (l : list A) (a d d' : A) :
  List.last (a :: l) d = List.last (a :: l) d'.
Proof.
  revert a. induction l as [| b l IH]; intros a; [reflexivity |].
  change (List.last (b :: l) d = List.last (b :: l) d'). apply IH.
Qed.

Lemma walk_bind (dir : directory) (prefix : list string) :
  OPFSFileSystem.walk dir prefix
  = map_to_list dir ≫= (fun e => OPFSFileSystem.walk_entry prefix e.1 e.2).
Proof.
  unfold OPFSFileSystem.walk. rewrite map_fold_foldr.
  induction (map_to_list dir) as [| [nm ch] l IH]; [reflexivity |].
  simpl. rewrite IH. reflexivity.
Qed.

Lemma walk_entry_dir (prefix : list string) (name : string) (sub : directory) :
  OPFSFileSystem.walk_entry prefix name (Dir sub)
  = OPFSFileSystem.walk sub (prefix ++ [name]).
Proof. reflexivity. Qed.

(** What [walk_entry] lists below an entry: the files under it whose
    own name does not end in the sidecar suffix. *)
Lemma walk_entry_spec (n : node) (prefix : list string) (name : string)
    (p : list string) :
  p ∈ OPFSFileSystem.walk_entry prefix name n
  <-> exists path,
        p = prefix ++ name :: path
        /\ file_at n path = true
        /\ endsWith (List.last path name) OPFSFileSystem.META_SUFFIX = false.
Proof.
  revert prefix name p. induction n as [data | es IH] using node_tree_ind;
    intros prefix name p.
  - simpl. destruct (endsWith name OPFSFileSystem.META_SUFFIX) eqn:Hm; simpl.
    + split; [intros H; inversion H |].
      intros (path & -> & Hf & Hl). destruct path; [| discriminate].
      simpl in Hl. congruence.
    + rewrite list_elem_of_singleton. split.
      * intros ->. exists []. auto.
      * intros (path & -> & Hf & Hl). destruct path; [| discriminate].
        reflexivity.
  - rewrite walk_entry_dir, walk_bind, list_elem_of_bind. split.
    + intros ([nm ch] & Hin & Hel). apply elem_of_map_to_list in Hel.
      simpl in Hin. apply (IH nm ch Hel) in Hin.
      destruct Hin as (path & -> & Hf & Hl).
      exists (nm :: path). rewrite <- app_assoc. simpl.
      rewrite Hel. repeat split; auto.
      destruct path; [exact Hl |].
      rewrite (last_cons _ _ _ name nm). exact Hl.
    + intros (path & -> & Hf & Hl). destruct path as [| nm path]; [discriminate |].
      simpl in Hf. destruct (es !! nm) as [ch |] eqn:Hel; [| discriminate].
      exists (nm, ch). split; [| apply elem_of_map_to_list; exact Hel].
      simpl. apply (IH nm ch Hel). exists path.
      rewrite <- app_assoc. repeat split; auto.
      destruct path; [exact Hl |].
      rewrite (last_cons _ _ _ nm name). exact Hl.
Qed.

Lemma walk_spec (dir : directory) (p : list string) :
  p ∈ OPFSFileSystem.walk dir []
  <-> exists name path,
        p = name :: path
        /\ file_at (Dir dir) p = true
        /\ endsWith (List.last path name) OPFSFileSystem.META_SUFFIX = false.
Proof.
  rewrite walk_bind, list_elem_of_bind. split.
  - intros ([nm ch] & Hin & Hel). apply elem_of_map_to_list in Hel.
    apply walk_entry_spec in Hin. destruct Hin as (path & -> & Hf & Hl).
    exists nm, path. simpl in *. rewrite Hel. auto.
  - intros (nm & path & -> & Hf & Hl). simpl in Hf.
    destruct (dir !! nm) as [ch |] eqn:Hel; [| discriminate].
    exists (nm, ch). split; [| apply elem_of_map_to_list; exact Hel].
    apply walk_entry_spec. exists path. auto.
Qed.

(** No path is listed twice. *)
Lemma walk_entry_NoDup (n : node) (prefix : list string) (name : string) :
  NoDup (OPFSFileSystem.walk_entry prefix name n).
Proof.
  revert prefix name. induction n as [data | es IH] using node_tree_ind;
    intros prefix name.
  - simpl. destruct (negb _); [apply NoDup_singleton | apply NoDup_nil_2].
  - rewrite walk_entry_dir, walk_bind. apply NoDup_bind.
    + intros [n1 c1] [n2 c2] p H1 H2 Hp1 Hp2.
      apply elem_of_map_to_list in H1, H2. simpl in *.
      apply walk_entry_spec in Hp1, Hp2.
      destruct Hp1 as (q1 & -> & _), Hp2 as (q2 & E & _).
      apply app_inv_head in E. injection E as -> _.
      congruence.
    + intros [nm ch] Hel. apply elem_of_map_to_list in Hel. simpl.
      apply (IH nm ch Hel).
    + apply NoDup_map_to_list.
Qed.

Lemma walk_NoDup (dir : directory) : NoDup (OPFSFileSystem.walk dir []).
Proof.
  rewrite walk_bind. apply NoDup_bind.
  - intros [n1 c1] [n2 c2] p H1 H2 Hp1 Hp2.
    apply elem_of_map_to_list in H1, H2. simpl in *.
    apply walk_entry_spec in Hp1, Hp2.
    destruct Hp1 as (q1 & -> & _), Hp2 as (q2 & E & _).
    simpl in E. injection E as -> _. congruence.
  - intros [nm ch] _. apply walk_entry_NoDup.
  - apply NoDup_map_to_list.
Qed.

(** ** The listing and the files of the tree *)

Lemma last_cons_head (A : Type) (l : list A) (a d : A) :
  List.last (a :: l) d = List.last l a.
Proof.
  revert a. induction l as [| b l IH]; intros a; [reflexivity |].
  change (List.last (b :: l) d = List.last (b :: l) a). apply last_cons.
Qed.

Lemma last_snoc_default (A : Type) (l : list A) (a d : A) :
  List.last (l ++ [a]) d = a.
Proof. apply List.last_last. Qed.

Lemma file_at_dir_nil (d : directory) : file_at (Dir d) [] = false.
Proof. reflexivity. Qed.

Lemma file_at_empty (q : list string) : file_at (Dir ∅) q = false.
Proof. destruct q; simpl; [reflexivity |]. now rewrite lookup_empty. Qed.

Lemma file_at_file (data : string) (q : list string) :
  file_at (File data) q = true <-> q = [].
Proof. destruct q; simpl; split; congruence. Qed.

(** The listing, by the files of the tree. *)
Lemma walk_files (dir : directory) (p : list string) :
  p ∈ OPFSFileSystem.walk dir []
  <-> file_at (Dir dir) p = true
      /\ endsWith (List.last p EmptyString) OPFSFileSystem.META_SUFFIX = false.
Proof.
  rewrite walk_spec. split.
  - intros (name & path & -> & Hf & Hl). split; [exact Hf |].
    now rewrite last_cons_head.
  - intros [Hf Hl]. destruct p as [| name path]; [discriminate |].
    exists name, path. rewrite last_cons_head in Hl. auto.
Qed.

(** The name of a sidecar ends in the suffix. *)
Lemma substring_all (s : string) : String.substring 0 (String.length s) s = s.
Proof. induction s as [| c s IH]; simpl; [reflexivity |]. now rewrite IH. Qed.

Lemma substring_skip (a b : string) :
  String.substring (String.length a) (String.length b) (a +:+ b) = b.
Proof. induction a as [| c a IH]; simpl; [apply substring_all | exact IH]. Qed.

Lemma endsWith_app (a b : string) : endsWith (a +:+ b) b = true.
Proof.
  unfold endsWith. rewrite length_app_str.
  replace (String.length a + String.length b - String.length b)
    with (String.length a) by lia.
  rewrite substring_skip, String.eqb_refl.
  apply andb_true_iff. split; [apply Nat.leb_le; lia | reflexivity].
Qed.

Lemma endsWith_sidecar (fileName : string) :
  endsWith (sidecar fileName) OPFSFileSystem.META_SUFFIX = true.
Proof. apply endsWith_app. Qed.

(** Making directories adds no file and takes none away. *)
Lemma file_at_mkdirs (segs : list string) (d : directory) (q : list string) :
  dirs_clear d segs = true ->
  file_at (Dir (mkdirs segs d)) q = file_at (Dir d) q.
Proof.
  revert d q. induction segs as [| seg rest IH]; intros d q Hclear; [reflexivity |].
  simpl in Hclear. simpl mkdirs.
  destruct (d !! seg) as [[data | sub] |] eqn:Hseg; [discriminate | |].
  - destruct q as [| s q]; [reflexivity |]. simpl.
    destruct (decide (seg = s)) as [<- | Hne].
    + rewrite lookup_insert_eq, Hseg. now apply IH.
    + now rewrite lookup_insert_ne.
  - destruct q as [| s q]; [reflexivity |]. simpl.
    destruct (decide (seg = s)) as [<- | Hne].
    + rewrite lookup_insert_eq, Hseg. rewrite IH by apply dirs_clear_empty.
      apply file_at_empty.
    + now rewrite lookup_insert_ne.
Qed.

(** Setting two files in a directory adds these two and nothing else. *)
Lemma file_at_set (segs : list string) (d es : directory) (f g x y : string)
    (q : list string) :
  resolve_dir d segs = Some es ->
  not_a_directory (es !! f) = true ->
  not_a_directory (es !! g) = true ->
  file_at (Dir (modify_dir (fun es => <[f := File x]> (<[g := File y]> es)) segs d)) q
    = true
  <-> q = segs ++ [f] \/ q = segs ++ [g] \/ file_at (Dir d) q = true.
Proof.
  revert d q. induction segs as [| seg rest IH]; intros d q Hes Hf Hg.
  - injection Hes as ->. simpl. destruct q as [| s q].
    + simpl. split; [discriminate |]. intros [|[|]]; discriminate.
    + simpl. destruct (decide (f = s)) as [<- | Hnf].
      * rewrite lookup_insert_eq, file_at_file. split.
        -- intros ->. now left.
        -- intros [E | [E | E]].
           ++ now injection E.
           ++ now injection E.
           ++ destruct (es !! f) as [[data | sub] |]; try discriminate.
              now apply file_at_file in E.
      * rewrite lookup_insert_ne by exact Hnf.
        destruct (decide (g = s)) as [<- | Hng].
        -- rewrite lookup_insert_eq, file_at_file. split.
           ++ intros ->. right. now left.
           ++ intros [E | [E | E]].
              ** now injection E.
              ** now injection E.
              ** destruct (es !! g) as [[data | sub] |]; try discriminate.
                 now apply file_at_file in E.
        -- rewrite lookup_insert_ne by exact Hng. split.
           ++ intros E. right. now right.
           ++ intros [E | [E | E]]; [congruence | congruence | exact E].
  - simpl in Hes |- *.
    destruct (d !! seg) as [[data | sub] |] eqn:Hseg; try discriminate.
    destruct q as [| s q].
    + simpl. split; [discriminate |]. intros [|[|]]; discriminate.
    + simpl. destruct (decide (seg = s)) as [<- | Hne].
      * rewrite lookup_insert_eq, Hseg, (IH sub q Hes Hf Hg). split.
        -- intros [-> | [-> | E]]; auto.
        -- intros [E | [E | E]]; [injection E | injection E |]; auto.
      * rewrite lookup_insert_ne by exact Hne. split.
        -- intros E. right. now right.
        -- intros [E | [E | E]]; [congruence | congruence | exact E].
Qed.

Section Listing.
Context `{JSON}.

(** The files after [write]: those that were there, the data file and
    the sidecar. *)
Lemma write_files (st : storage) (dirSegments : list string)
    (fileName : string) (body : option string) (meta : CacheEntryMeta)
    (q : list string) :
  writable_at (root st) dirSegments fileName = true ->
  file_at (Dir (root (snd (OPFSFileSystem.write dirSegments fileName body meta st)))) q
    = true
  <-> q = dirSegments ++ [fileName]
      \/ q = dirSegments ++ [sidecar fileName]
      \/ file_at (Dir (root st)) q = true.
Proof.
  intros Hwritable. rewrite (write_root _ _ _ _ _ Hwritable).
  unfold writable_at in Hwritable.
  apply andb_true_iff in Hwritable as [Hclear Hnames].
  assert (Hfree :
            not_a_directory (default ∅ (resolve_dir (root st) dirSegments)
                               !! fileName) = true /\
            not_a_directory (default ∅ (resolve_dir (root st) dirSegments)
                               !! sidecar fileName) = true).
  { destruct (resolve_dir (root st) dirSegments); simpl.
    - now apply andb_true_iff.
    - now rewrite !lookup_empty. }
  destruct Hfree as [Hf Hg].
  rewrite (file_at_set dirSegments _ _ fileName (sidecar fileName) _ _ q
             (resolve_dir_mkdirs _ _ Hclear) Hf Hg).
  now rewrite file_at_mkdirs.
Qed.

(** The listing after [write]: what was listed, and the entry itself
    unless its name ends in the sidecar's suffix. *)
Lemma write_listing (st : storage) (dirSegments : list string)
    (fileName : string) (body : option string) (meta : CacheEntryMeta)
    (q : list string) :
  writable_at (root st) dirSegments fileName = true ->
  q ∈ OPFSFileSystem.walk
        (root (snd (OPFSFileSystem.write dirSegments fileName body meta st))) []
  <-> (q = dirSegments ++ [fileName]
       /\ endsWith fileName OPFSFileSystem.META_SUFFIX = false)
      \/ q ∈ OPFSFileSystem.walk (root st) [].
Proof.
  intros Hwritable. rewrite !walk_files, (write_files _ _ _ _ _ _ Hwritable).
  split.
  - intros [[-> | [-> | Hq]] Hl].
    + left. now rewrite last_snoc_default in Hl.
    + rewrite last_snoc_default, endsWith_sidecar in Hl. discriminate.
    + right. auto.
  - intros [[-> Hl] | [Hq Hl]].
    + split; [now left |]. now rewrite last_snoc_default.
    + split; [| exact Hl]. right. now right.
Qed.

(** [list] returns the walk from the root and changes nothing. *)
Lemma list_walks (st : storage) :
  fst (OPFSFileSystem.list st) = Ok (OPFSFileSystem.walk (root st) []) /\
  root (snd (OPFSFileSystem.list st)) = root st.
Proof. split; reflexivity. Qed.

End Listing.

(** ** The listing after [put] *)

Section ListingOfPuts.
Context `{URLParser} `{JSON}.

(** What was written can be written again. *)
Lemma writable_again (st : storage) (dirSegments : list string)
    (fileName : string) (body : option string) (meta : CacheEntryMeta) :
  writable_at (root st) dirSegments fileName = true ->
  writable_at
    (root (snd (OPFSFileSystem.write dirSegments fileName body meta st)))
    dirSegments fileName = true.
Proof.
  intros Hwritable.
  destruct (write_succeeds st dirSegments fileName body meta Hwritable)
    as (st' & -> & Hdir).
  simpl. unfold writable_at. rewrite Hdir, (dirs_clear_resolved _ _ _ Hdir).
  rewrite lookup_insert_eq.
  rewrite lookup_insert_ne, lookup_insert_eq by apply not_eq_sym, sidecar_neq.
  reflexivity.
Qed.

(** X18. [keys()] after a [put] that has completed returns the paths
    of [walk], none of them twice; they are those listed before and the
    path of the key, unless the file name of the key ends in the
    sidecar's suffix; and no listed name ends in that suffix. *)
Lemma keys_after_put (request : RequestInfo) (p : ResolvedPath)
    (response : Response.t) (st : storage) :
  resolvePath request = Ok p ->
  fst (OPFSCache.put request response st) = Ok tt ->
  let st1 := snd (OPFSCache.put request response st) in
  fst (OPFSCache.keys None st1)
  = Ok (map (fun segs => mkRequest ("/" +:+ join "/" segs))
          (OPFSFileSystem.walk (root st1) [])) /\
  NoDup (OPFSFileSystem.walk (root st1) []) /\
  (forall q,
     q ∈ OPFSFileSystem.walk (root st1) []
     <-> (q = dir p ++ [file p]
          /\ endsWith (file p) OPFSFileSystem.META_SUFFIX = false)
         \/ q ∈ OPFSFileSystem.walk (root st) []) /\
  (forall q,
     q ∈ OPFSFileSystem.walk (root st1) [] ->
     endsWith (List.last q EmptyString) OPFSFileSystem.META_SUFFIX = false).
Proof.
  intros Hres Hput st1. subst st1.
  destruct (put_completed _ _ _ Hput) as (p' & Hres' & Hbody & Hwritable).
  rewrite Hres in Hres'. injection Hres' as <-.
  rewrite (put_writes _ _ _ _ Hres Hbody).
  split; [reflexivity |]. split; [apply walk_NoDup |]. split.
  - intros q. now apply write_listing.
  - intros q Hq. now apply walk_files in Hq.
Qed.

(** A second [put] on the key leaves the listing as it is. *)
Lemma keys_after_second_put (request : RequestInfo)
    (first second : Response.t) (st : storage) :
  let st1 := snd (OPFSCache.put request first st) in
  let st2 := snd (OPFSCache.put request second st1) in
  fst (OPFSCache.put request first st) = Ok tt ->
  fst (OPFSCache.put request second st1) = Ok tt ->
  forall q,
    q ∈ OPFSFileSystem.walk (root st2) [] <-> q ∈ OPFSFileSystem.walk (root st1) [].
Proof.
  intros st1 st2 Hput1 Hput2.
  destruct (put_completed _ _ _ Hput1) as (p & Hres & Hfirst & Hwritable).
  destruct (put_completed _ _ _ Hput2) as (p' & Hres' & Hsecond & _).
  subst st1 st2.
  rewrite (put_writes _ _ _ _ Hres Hsecond).
  rewrite (put_writes _ _ _ _ Hres Hfirst).
  pose proof (writable_again st (dir p) (file p) (Response.body first)
                (meta_of first) Hwritable) as Hagain.
  intros q. rewrite (write_listing _ _ _ _ _ q Hagain).
  rewrite (write_listing _ _ _ _ _ q Hwritable). tauto.
Qed.

End ListingOfPuts.

(** ** The round trip of [put] and [match] *)

Section RoundTrip.
Context `{URLParser} `{JSON}.

(** The constructor builds a response again from what was read off
    it. *)
Lemma append_kept (name value : string) (h : gmap string string) :
  Response.kept_header name value = true ->
  h !! name = None ->
  Response.append name value h = Ok (<[name := value]> h).
Proof.
  unfold Response.kept_header, Response.append.
  intros ((((Hname & Hlower)%andb_true_iff & Hallowed)%andb_true_iff
             & Hnormal)%andb_true_iff & Hvalue)%andb_true_iff Hfree.
  apply String.eqb_eq in Hlower, Hnormal.
  rewrite Hnormal, Hname, Hvalue. simpl.
  apply negb_true_iff in Hallowed. rewrite Hallowed, Hlower, Hfree.
  reflexivity.
Qed.

Lemma fill_members_kept (members : list (string * string))
    (h : gmap string string) :
  NoDup members.*1 ->
  Forall (fun kv => Response.kept_header kv.1 kv.2 = true /\ h !! kv.1 = None)
         members ->
  Response.fill_members members h = Ok (list_to_map members ∪ h).
Proof.
  revert h. induction members as [|[name value] rest IH]; intros h Hnodup Hall.
  - simpl. now rewrite (left_id_L ∅ (∪)).
  - apply NoDup_cons in Hnodup as [Hfresh Hnodup].
    apply Forall_cons in Hall as [[Hkept Hfree] Hall]. simpl in *.
    rewrite (append_kept _ _ _ Hkept Hfree).
    rewrite IH; [| exact Hnodup |].
    + f_equal. rewrite <- insert_union_r; [now rewrite insert_union_l|].
      now apply not_elem_of_list_to_map_1.
    + apply Forall_forall. intros [n v] Hin.
      rewrite Forall_forall in Hall. destruct (Hall _ Hin) as [Hk Hf].
      split; [exact Hk|]. simpl in *.
      rewrite lookup_insert_ne; [exact Hf|].
      intros ->. apply Hfresh. apply list_elem_of_fmap. now exists (n, v).
Qed.

Lemma new_rebuilds (r : Response.t) (members : list (string * string))
    (data : string) :
  Response.rebuildable r = true ->
  members ≡ₚ Response.entries r ->
  Response.new_ (Some data)
    (Response.mkInit (Response.status r) (StatusText (Response.statusText r))
       (HeadersRecord members))
  = Ok (Response.make (Some data) false (Response.status r)
          (Response.statusText r) (Response.headers r)).
Proof.
  unfold Response.rebuildable, Response.new_.
  intros (((Hrange & Hbody)%andb_true_iff & Htext)%andb_true_iff
            & Hkept)%andb_true_iff Hperm.
  cbn [Response.init_headers Response.init_status Response.init_statusText
       Response.fill].
  apply negb_true_iff in Hbody. rewrite Hrange, Htext, Hbody. simpl.
  assert (Hnodup : NoDup members.*1).
  { rewrite Hperm. apply NoDup_fst_map_to_list. }
  rewrite fill_members_kept; [| exact Hnodup |].
  - rewrite (right_id_L ∅ (∪)).
    rewrite (list_to_map_proper members (Response.entries r) Hnodup Hperm).
    unfold Response.entries. now rewrite list_to_map_to_list.
  - apply Forall_forall. intros kv Hin. split; [|apply lookup_empty].
    rewrite forallb_forall in Hkept. apply Hkept.
    apply list_elem_of_In. now rewrite <- Hperm.
Qed.

(** Whatever the headers are, the constructor throws a [TypeError]
    beside a body when the status is 204, 205 or 304, and a
    [RangeError] when it is not within 200 to 599. *)
Lemma fill_members_error (members : list (string * string))
    (h : gmap string string) (e : exn) :
  Response.fill_members members h = Err e -> exists message, e = TypeError message.
Proof.
  revert h. induction members as [|[name value] rest IH]; intros h; simpl.
  - discriminate.
  - unfold Response.append.
    destruct (negb _); [intros [= <-]; eauto|].
    destruct (Response.is_forbidden_name name); apply IH.
Qed.

Lemma fill_items_error (items : list (list string)) (h : gmap string string)
    (e : exn) :
  Response.fill_items items h = Err e -> exists message, e = TypeError message.
Proof.
  revert h. induction items as [|item rest IH]; intros h; simpl.
  - discriminate.
  - destruct item as [|name [|value [|]]]; try (intros [= <-]; eauto).
    unfold Response.append.
    destruct (negb _); [intros [= <-]; eauto|].
    destruct (Response.is_forbidden_name name); apply IH.
Qed.

Lemma new_null_body_status (data : string) (i : Response.init) :
  In (Response.init_status i) [204; 205; 304]%Z ->
  is_type_error (Response.new_ (Some data) i).
Proof.
  intros Hstatus. unfold is_type_error, Response.new_.
  assert (Hrange : Response.status_in_range (Response.init_status i) = true
                   /\ Response.null_body_status (Response.init_status i) = true).
  { destruct Hstatus as [<-|[<-|[<-|[]]]]; split; reflexivity. }
  destruct Hrange as [Hrange Hnull].
  destruct (Response.init_headers i) as [members|items|] eqn:Hh; [| |eauto].
  all: destruct (Response.init_statusText i) as [text|]; [|eauto].
  all: rewrite Hrange, Hnull; simpl.
  all: destruct (Response.is_reason_phrase text); simpl; [|eauto].
  - destruct (Response.fill_members members ∅) as [h|e] eqn:Hfill; [eauto|].
    apply fill_members_error in Hfill as [message ->]. eauto.
  - destruct (Response.fill_items items ∅) as [h|e] eqn:Hfill; [eauto|].
    apply fill_items_error in Hfill as [message ->]. eauto.
Qed.

Lemma new_out_of_range (body : option string) (i : Response.init) :
  Response.status_in_range (Response.init_status i) = false ->
  Response.init_headers i <> HeadersRefused ->
  Response.init_statusText i <> StatusTextRefused ->
  exists message, Response.new_ body i = Err (RangeError message).
Proof.
  intros Hrange Hheaders Htext. unfold Response.new_.
  destruct (Response.init_headers i); [| | congruence].
  all: destruct (Response.init_statusText i); [| congruence].
  all: rewrite Hrange; simpl; eauto.
Qed.

(** After a [put] that has completed, [exists] finds the entry, and
    [match] hands the body, the status, the status text and the headers
    that were stored to the constructor of the response. *)
Lemma match_after_put (request : RequestInfo) (response : Response.t)
    (st : storage) :
  fst (OPFSCache.put request response st) = Ok tt ->
  let st1 := snd (OPFSCache.put request response st) in
  exists p members,
    resolvePath request = Ok p /\
    fst (OPFSFileSystem.exists_ (dir p) (file p) st1) = Ok true /\
    members ≡ₚ Response.entries response /\
    root (snd (OPFSCache.match_ request st1)) = root st1 /\
    fst (OPFSCache.match_ request st1)
    = match Response.new_ (Some (Response.bytes response))
              (Response.mkInit (Response.status response)
                 (StatusText (Response.statusText response))
                 (HeadersRecord members)) with
      | Ok rebuilt => Ok (Some rebuilt)
      | Err e => Err e
      end.
Proof.
  intros Hput st1.
  destruct (put_completed _ _ _ Hput) as (p & Hres & Hused & Hwritable).
  subst st1. rewrite (put_writes _ _ _ _ Hres Hused) in *.
  destruct (write_succeeds st (dir p) (file p) (Response.body response)
              (meta_of response) Hwritable) as (st1 & Hwrite & Hdir1).
  rewrite Hwrite. cbn [snd].
  destruct (JSON_parse_stringify (meta_of response)) as (members & Hparse & Hperm).
  exists p, members. split; [exact Hres|]. split; [|split; [|split]].
  - destruct (exists_found st1 _ (file p) _ Hdir1) as (st2 & _ & Hexists).
    { now rewrite lookup_insert_eq. }
    rewrite Hexists. cbn [fst]. unfold data_file_present.
    now rewrite lookup_insert_eq.
  - rewrite Hperm. unfold meta_of. cbn [headers].
    now rewrite headers_survive.
  - destruct (readEntry_hit st1 _ _ _ _ Hdir1 (lookup_insert_eq _ _ _))
      as (st2 & [Hroot _] & Hread).
    unfold OPFSCache.match_. rewrite (resolved_ok _ _ _ _ _ Hres).
    unfold bind at 1. rewrite Hread.
    destruct (match _ with Some _ => _ | None => _ end) as [[[data meta]|]|e];
      try exact Hroot.
    destruct (Response.new_ _ _); exact Hroot.
  - destruct (readEntry_hit st1 _ _ _ _ Hdir1 (lookup_insert_eq _ _ _))
      as (st2 & _ & Hread).
    rewrite lookup_insert_ne, lookup_insert_eq in Hread
      by apply not_eq_sym, sidecar_neq.
    rewrite Hparse in Hread.
    unfold OPFSCache.match_. rewrite (resolved_ok _ _ _ _ _ Hres).
    erewrite bind_ok by exact Hread. cbn [mbind option_bind default
      json_status json_statusText json_headers meta_of status statusText].
    unfold Response.bytes.
    destruct (Response.new_ _ _); reflexivity.
Qed.

(** X20. Where the constructor builds the response again, the round
    trip holds: after a [put] that has completed, [match] returns the
    body bytes, the status, the status text and the headers that were
    put, and leaves the storage as it is. *)
Theorem rebuildable_response_round_trip (request : RequestInfo)
    (response : Response.t) (st : storage) :
  Response.rebuildable response = true ->
  fst (OPFSCache.put request response st) = Ok tt ->
  let st1 := snd (OPFSCache.put request response st) in
  fst (OPFSCache.match_ request st1) = Ok (Some (as_matched response)) /\
  root (snd (OPFSCache.match_ request st1)) = root st1.
Proof.
  intros Hrebuild Hput st1.
  destruct (match_after_put _ _ _ Hput)
    as (p & members & _ & _ & Hperm & Hroot & Hmatch).
  fold st1 in Hroot, Hmatch. split; [|exact Hroot].
  rewrite Hmatch, (new_rebuilds _ _ _ Hrebuild Hperm). reflexivity.
Qed.

(** C1. A response with the status 204, 205 or 304 is stored by [put]
    and is not returned by [match]: after the [put] has completed
    [exists] finds the entry, and [match] throws a [TypeError], that of
    the constructor of the response, which is handed a body beside a
    status that allows none. A response with a status outside 200 to
    599, as an opaque response has, makes [match] throw a
    [RangeError]. *)
Theorem null_body_status_is_not_matched (request : RequestInfo)
    (response : Response.t) (st : storage) :
  fst (OPFSCache.put request response st) = Ok tt ->
  let st1 := snd (OPFSCache.put request response st) in
  (exists p,
     resolvePath request = Ok p /\
     fst (OPFSFileSystem.exists_ (dir p) (file p) st1) = Ok true) /\
  root (snd (OPFSCache.match_ request st1)) = root st1 /\
  (In (Response.status response) [204; 205; 304]%Z ->
   is_type_error (fst (OPFSCache.match_ request st1))) /\
  (Response.status_in_range (Response.status response) = false ->
   exists message,
     fst (OPFSCache.match_ request st1) = Err (RangeError message)).
Proof.
  intros Hput st1.
  destruct (match_after_put _ _ _ Hput)
    as (p & members & Hres & Hexists & _ & Hroot & Hmatch).
  fold st1 in Hexists, Hroot, Hmatch.
  split; [eauto|]. split; [exact Hroot|]. rewrite Hmatch. split.
  - intros Hstatus.
    destruct (new_null_body_status (Response.bytes response)
                (Response.mkInit (Response.status response)
                   (StatusText (Response.statusText response))
                   (HeadersRecord members))
                Hstatus) as [message ->].
    unfold is_type_error. eauto.
  - intros Hrange.
    destruct (new_out_of_range (Some (Response.bytes response))
                (Response.mkInit (Response.status response)
                   (StatusText (Response.statusText response))
                   (HeadersRecord members))
                Hrange) as [message ->]; [discriminate | discriminate | eauto].
Qed.

End RoundTrip.

(** ** Pruning, listing and interrupted writes *)

Section PruningClaims.
Context `{JSON}.

(** C6. Pruning never throws; a directory is removed only when it is
    empty, and the climb ends at the first removal that fails. After the
    only entry under a chain of directories is deleted, the directories
    are removed from the deepest up and the root is empty; where the
    directory of the entry has siblings, it alone is removed and the
    directories above stay. So after the only entry under a/b/c is
    deleted, c, b and a are removed in this order; with a second entry
    under a/b/d, c is removed, the removal of b fails, and a and b stay
    with d in them. *)
Theorem pruning_climbs_while_empty :
  (forall segments st,
     exists st', OPFSFileSystem.cleanEmptyDirs segments st = (Ok tt, st')) /\
  (forall st st' h name es sub,
     removeEntry h name st = (Ok tt, st') ->
     resolve_dir (root st) h = Some es ->
     es !! name = Some (Dir sub) ->
     sub = ∅) /\
  (forall st st1 parent seg rest e,
     removeEntry parent seg st = (Err e, st1) ->
     OPFSFileSystem.remove_upwards ((parent, seg) :: rest) st = (Ok tt, st1)) /\
  (forall segs fileName data meta_text st,
     root st = chain segs (entry_files fileName data meta_text) ->
     exists st',
       OPFSFileSystem.delete segs fileName st = (Ok true, st') /\
       root st' = ∅ /\
       removed st' =
       removed st ++ [(segs, fileName); (segs, sidecar fileName)]
         ++ climb_from [] segs) /\
  (forall segs c fileName data meta_text others st,
     others !! c = None ->
     others <> ∅ ->
     root st = chain segs (<[c := Dir (entry_files fileName data meta_text)]> others) ->
     exists st',
       OPFSFileSystem.delete (segs ++ [c]) fileName st = (Ok true, st') /\
       root st' = chain segs others /\
       removed st' =
       removed st ++
         [(segs ++ [c], fileName); (segs ++ [c], sidecar fileName); (segs, c)]) /\
  (fst (OPFSFileSystem.delete ["a"; "b"; "c"] "f" only_entry) = Ok true /\
   root (snd (OPFSFileSystem.delete ["a"; "b"; "c"] "f" only_entry)) = ∅ /\
   removed (snd (OPFSFileSystem.delete ["a"; "b"; "c"] "f" only_entry)) =
   [(["a"; "b"; "c"], "f"); (["a"; "b"; "c"], "f.meta");
    (["a"; "b"], "c"); (["a"], "b"); ([], "a")]) /\
  (fst (OPFSFileSystem.delete ["a"; "b"; "c"] "f" with_sibling) = Ok true /\
   removed (snd (OPFSFileSystem.delete ["a"; "b"; "c"] "f" with_sibling)) =
   [(["a"; "b"; "c"], "f"); (["a"; "b"; "c"], "f.meta"); (["a"; "b"], "c")] /\
   map (fun e => (made e, returned e))
     (drop (length (journal with_sibling) + 5)
        (journal (snd (OPFSFileSystem.delete ["a"; "b"; "c"] "f"
                         with_sibling)))) =
   [(GetDirectoryHandle [] "a" false, true);
    (GetDirectoryHandle ["a"] "b" false, true);
    (RemoveEntry ["a"; "b"] "c", true);
    (RemoveEntry ["a"] "b", false)] /\
   root (snd (OPFSFileSystem.delete ["a"; "b"; "c"] "f" with_sibling)) =
   {[ "a" := Dir {[ "b" := Dir {[ "d" :=
        Dir {[ "g" := File "more";
               "g.meta" := File (JSON_stringify plain_meta) ]} ]} ]} ]}).
Proof.
  split; [exact cleanEmptyDirs_ok|].
  split; [exact removeEntry_directory_was_empty|].
  split; [exact remove_upwards_halts|].
  split; [exact only_entry_pruned|].
  split; [exact sibling_stops_pruning|].
  split; repeat split; vm_compute; reflexivity.
Qed.

End PruningClaims.



(** C2. The key "/x.meta" is stored, matched and found by [keys] when
    asked for it, and is missing from the full listing: after one [put]
    on an empty cache, [keys()] is empty. *)
Theorem dot_meta_entry_not_listed :
  fst (OPFSCache.put (ReqString "/x.meta") hello Storage.empty) = Ok tt /\
  fst (OPFSCache.keys None put_once) = Ok [] /\
  fst (OPFSCache.keys (Some (ReqString "/x.meta")) put_once) =
    Ok [mkRequest "/x.meta"] /\
  fst (OPFSCache.match_ (ReqString "/x.meta") put_once) = Ok (Some hello) /\
  fst (OPFSFileSystem.exists_ [] "x.meta" put_once) = Ok true.
Proof. repeat split; vm_compute; reflexivity. Qed.

(** C9. Two [put]s on the key "/x.meta": [match] returns the second
    response, and the full listing has the key not once but not at
    all. *)
Theorem overwritten_dot_meta_entry_not_listed :
  fst (OPFSCache.put (ReqString "/x.meta") hello Storage.empty) = Ok tt /\
  fst (OPFSCache.put (ReqString "/x.meta") gone put_once) = Ok tt /\
  fst (OPFSCache.match_ (ReqString "/x.meta") put_twice) = Ok (Some gone) /\
  fst (OPFSCache.keys None put_twice) = Ok [].
Proof. repeat split; vm_compute; reflexivity. Qed.

(** C3. In the overwrite of "/data" the sidecar is closed before any
    call on the data file; cut short right there, the storage holds the
    old data file beside the new sidecar, and [exists], [readEntry] and
    [match] report an entry: the old body under the new status. *)
Theorem overwrite_cut_short_is_no_miss :
  cut_short stored sidecar_closed overwritten = Some crashed /\
  map made (drop (length (journal crashed)) (journal overwritten)) =
    [GetFileHandle [] "data" true;
     CreateWritable (mkFileHandle [] "data");
     WritableWrite (mkFileHandle [] "data") "new";
     WritableClose (mkFileHandle [] "data")] /\
  fst (OPFSFileSystem.exists_ [] "data" crashed) = Ok true /\
  fst (OPFSFileSystem.readEntry [] "data" crashed) =
    Ok (Some ("hello", Some (json_of_meta (mkMeta ∅ 404 "Not Found")))) /\
  fst (OPFSCache.match_ (ReqString "/data") crashed) =
    Ok (Some (Response.make (Some "hello") false 404 "Not Found" ∅)).
Proof. repeat split; vm_compute; reflexivity. Qed.

(** C5. [delete] returns true for the name of an empty directory,
    where no data file was there. After a [put] on "/a/b/c", a [put] on
    "/a/b" that fails and a [delete] on each of the two keys, the root
    holds the directory a and nothing else: no key is listed, [exists]
    and [match] on "/a" throw a [TypeMismatchError], and [delete] on
    "/a" returns true and takes the directory away. *)
Theorem delete_returns_true_for_empty_directory :
  fst (OPFSCache.put (ReqString "/a/b/c") hello Storage.empty) = Ok tt /\
  fst (OPFSCache.put (ReqString "/a/b") gone abc_stored)
  = Err TypeMismatchError /\
  fst (OPFSCache.delete (ReqString "/a/b/c") ab_refused) = Ok true /\
  fst (OPFSCache.delete (ReqString "/a/b") abc_deleted) = Ok false /\
  root ab_deleted = {[ "a" := Dir ∅ ]} /\
  fst (OPFSCache.keys None ab_deleted) = Ok [] /\
  data_file_present (root ab_deleted) "a" = false /\
  fst (OPFSFileSystem.exists_ [] "a" ab_deleted) = Err TypeMismatchError /\
  fst (OPFSCache.match_ (ReqString "/a") ab_deleted) = Err TypeMismatchError /\
  fst (OPFSCache.delete (ReqString "/a") ab_deleted) = Ok true /\
  root (snd (OPFSCache.delete (ReqString "/a") ab_deleted)) = ∅.
Proof. repeat split; vm_compute; reflexivity. Qed.

(** C1 on an empty cache: [new Response(null, {status: 204})] put at
    "/empty" is stored with its status, and [match] on the key throws. *)
Lemma no_content_is_not_matched :
  fst (OPFSCache.put (ReqString "/empty") no_content Storage.empty) = Ok tt /\
  fst (OPFSFileSystem.readEntry [] "empty"
         (snd (OPFSCache.put (ReqString "/empty") no_content Storage.empty)))
  = Ok (Some (EmptyString, Some (json_of_meta (mkMeta ∅ 204 EmptyString)))) /\
  is_type_error
    (fst (OPFSCache.match_ (ReqString "/empty")
            (snd (OPFSCache.put (ReqString "/empty") no_content Storage.empty)))).
Proof.
  assert (Hput : fst (OPFSCache.put (ReqString "/empty") no_content Storage.empty)
                 = Ok tt) by (vm_compute; reflexivity).
  split; [exact Hput|]. split; [vm_compute; reflexivity|].
  destruct (null_body_status_is_not_matched _ _ _ Hput) as (_ & _ & Hnull & _).
  apply Hnull. left. reflexivity.
Defined.

(** C10 on the key "/models/a?rev=2". *)
Lemma resolved_path_of_models_key :
  Forall (fun seg => seg <> EmptyString /\ seg <> "." /\ seg <> "..") ["models"] /\
  exists last_segment pathname search : string,
    extract (ReqString "/models/a?rev=2") = Ok (pathname, search) /\
    segments_of pathname = ["models"] ++ [last_segment] /\
    "a?rev=2" = last_segment +:+ search /\
    last_segment <> EmptyString /\ last_segment <> "." /\ last_segment <> ".." /\
    "a?rev=2" <> EmptyString.
Proof.
  apply (resolved_path_well_formed (ReqString "/models/a?rev=2")
           (mkResolvedPath ["models"] "a?rev=2")).
  vm_compute. reflexivity.
Defined.


(** C7 on these two. *)
Lemma match_on_bare_file_and_broken_sidecar :
  (exists st',
     read_only bare_file st' /\
     OPFSCache.match_ (ReqString "/data") bare_file =
     (Ok (Some (Response.make (Some "payload") false 200 EmptyString ∅)), st')) /\
  (exists st',
     read_only broken_sidecar st' /\
     OPFSCache.match_ (ReqString "/data") broken_sidecar = (Err SyntaxError, st')).
Proof.
  assert (Hres : resolvePath (ReqString "/data") = Ok (mkResolvedPath [] "data"))
    by (vm_compute; reflexivity).
  split.
  - apply (match_tolerates_missing_sidecar (ReqString "/data") _ bare_file
             (root bare_file) "payload" Hres eq_refl);
      vm_compute; reflexivity.
  - apply (match_tolerates_missing_sidecar (ReqString "/data") _ broken_sidecar
             (root broken_sidecar) "payload" Hres eq_refl)
      with (text := "{"); vm_compute; reflexivity.
Defined.

(** C6 on the only entry under x/y, and on an entry under x/y beside
    a file of x. *)
Lemma pruning_under_two_directories :
  (exists st',
     OPFSFileSystem.delete ["x"; "y"] "f"
       (mkStorage (chain ["x"; "y"] (entry_files "f" "data" "{}")) []) =
     (Ok true, st') /\
     root st' = ∅ /\
     removed st' =
     [(["x"; "y"], "f"); (["x"; "y"], "f.meta"); (["x"], "y"); ([], "x")]) /\
  (exists st',
     OPFSFileSystem.delete ["x"; "y"] "f"
       (mkStorage
          {[ "x" := Dir {[ "y" := Dir (entry_files "f" "data" "{}");
                           "z" := File "kept" ]} ]} []) =
     (Ok true, st') /\
     root st' = {[ "x" := Dir {[ "z" := File "kept" ]} ]} /\
     removed st' = [(["x"; "y"], "f"); (["x"; "y"], "f.meta"); (["x"], "y")]).
Proof.
  destruct (@pruning_climbs_while_empty RefJSON_codec)
    as (_ & _ & _ & Hchain & Hsibling & _).
  split.
  - apply (Hchain ["x"; "y"] "f" "data" "{}" (mkStorage _ [])). reflexivity.
  - apply (Hsibling ["x"] "y" "f" "data" "{}" {[ "z" := File "kept" ]}
             (mkStorage _ [])).
    + vm_compute. reflexivity.
    + intros Hempty. apply (f_equal (fun m : directory => m !! "z")) in Hempty.
      vm_compute in Hempty. discriminate.
    + reflexivity.
Defined.

(** An entry with its sidecar in the root. *)
Lemma delete_of_a_stored_entry :
  exists st',
    OPFSFileSystem.delete [] "data"
      (mkStorage {[ "data" := File "payload"; "data.meta" := File "{}" ]} []) =
    (Ok true, st').
Proof.
  destruct (delete_reports_data_file
              (mkStorage {[ "data" := File "payload"; "data.meta" := File "{}" ]} [])
              [] "data") as [_ Hfound]; [constructor |].
  destruct (Hfound {[ "data" := File "payload"; "data.meta" := File "{}" ]}
              eq_refl eq_refl eq_refl eq_refl) as (st' & Hdelete & _).
  exists st'. exact Hdelete.
Defined.

(* ===================================================================== *)
(** * Further properties of the resolver, the adapter and the cache *)
(* ===================================================================== *)

(** ** Splitting and joining *)

Lemma includes_cons (c a : ascii) (s : string) :
  includes c (String a s) = Ascii.eqb a c || includes c s.
Proof.
  unfold includes. simpl. destruct (Ascii.eqb a c); [reflexivity |].
  now destruct (indexOf c s).
Qed.

Lemma includes_app (c : ascii) (a b : string) :
  includes c (a +:+ b) = includes c a || includes c b.
Proof.
  induction a as [| x a IH]; [reflexivity |].
  simpl. rewrite !includes_cons, IH. apply orb_assoc.
Qed.

Lemma split_not_nil (sep : ascii) (s : string) : split sep s <> [].
Proof.
  induction s as [| a s IH]; simpl; [discriminate |].
  destruct (Ascii.eqb a sep); [discriminate |].
  destruct (split sep s); [congruence | discriminate].
Qed.

Lemma split_whole (sep : ascii) (s : string) :
  includes sep s = false -> split sep s = [s].
Proof.
  induction s as [| a s IH]; [reflexivity |].
  rewrite includes_cons. intros [Ha Hs]%orb_false_iff.
  simpl. rewrite Ha, (IH Hs). reflexivity.
Qed.

Lemma split_app (sep : ascii) (a b : string) :
  split sep (a +:+ String sep b) = split sep a ++ split sep b.
Proof.
  induction a as [| x a IH]; simpl.
  - now rewrite Ascii.eqb_refl.
  - destruct (Ascii.eqb x sep); [now rewrite IH |].
    rewrite IH. pose proof (split_not_nil sep a) as Hne.
    destruct (split sep a); [congruence | reflexivity].
Qed.

Lemma split_pieces (sep : ascii) (s : string) :
  Forall (fun piece => includes sep piece = false) (split sep s).
Proof.
  induction s as [| a s IH]; simpl.
  - repeat constructor.
  - destruct (Ascii.eqb a sep) eqn:Ha.
    + constructor; [reflexivity | exact IH].
    + destruct (split sep s) as [| hd tl]; [repeat constructor; now rewrite includes_cons, Ha |].
      apply Forall_cons in IH as [Hhd Htl]. constructor; [| exact Htl].
      now rewrite includes_cons, Ha.
Qed.

Lemma split_keeps (c sep : ascii) (s : string) :
  includes c s = false ->
  Forall (fun piece => includes c piece = false) (split sep s).
Proof.
  induction s as [| a s IH]; simpl; intros Hs.
  - repeat constructor.
  - rewrite includes_cons in Hs. apply orb_false_iff in Hs as [Ha Hs].
    specialize (IH Hs). destruct (Ascii.eqb a sep).
    + constructor; [reflexivity | exact IH].
    + destruct (split sep s) as [| hd tl]; [repeat constructor; now rewrite includes_cons, Ha |].
      apply Forall_cons in IH as [Hhd Htl]. constructor; [| exact Htl].
      now rewrite includes_cons, Ha, Hhd.
Qed.

Lemma join_split (sep : ascii) (s : string) :
  join (String sep EmptyString) (split sep s) = s.
Proof.
  unfold join. induction s as [| a s IH]; [reflexivity |].
  simpl. destruct (Ascii.eqb a sep) eqn:Ha.
  - apply Ascii.eqb_eq in Ha as ->.
    pose proof (split_not_nil sep s) as Hne.
    destruct (split sep s) as [| hd tl]; [congruence |].
    simpl in *. now rewrite IH.
  - pose proof (split_not_nil sep s) as Hne.
    destruct (split sep s) as [| hd tl]; [congruence |].
    destruct tl; simpl in *; now rewrite <- IH.
Qed.

(** ** The segments of a pathname *)

Lemma segments_of_app (a b : string) :
  segments_of (a +:+ "/" +:+ b) = segments_of a ++ segments_of b.
Proof.
  unfold segments_of.
  change (a +:+ "/" +:+ b) with (a +:+ String "/" b).
  now rewrite split_app, List.filter_app.
Qed.

Lemma segments_of_empty : segments_of EmptyString = [].
Proof. reflexivity. Qed.

Lemma segments_of_segment (seg : string) :
  seg <> EmptyString -> includes "/" seg = false -> segments_of seg = [seg].
Proof.
  intros Hne Hs. unfold segments_of. rewrite (split_whole _ _ Hs). simpl.
  destruct seg; [congruence | reflexivity].
Qed.

Lemma segments_of_no_slash (pathname : string) :
  Forall (fun seg => includes "/" seg = false) (segments_of pathname).
Proof.
  unfold segments_of. apply List.Forall_forall. intros seg [Hin _]%filter_In.
  exact (proj1 (List.Forall_forall _ _) (split_pieces "/" pathname) seg Hin).
Qed.

Lemma segments_of_keep (c : ascii) (pathname : string) :
  includes c pathname = false ->
  Forall (fun seg => includes c seg = false) (segments_of pathname).
Proof.
  intros Hc. unfold segments_of. apply List.Forall_forall.
  intros seg [Hin _]%filter_In.
  exact (proj1 (List.Forall_forall _ _) (split_keeps c "/" pathname Hc) seg Hin).
Qed.

Lemma segments_of_join (segs : list string) :
  Forall (fun seg => seg <> EmptyString /\ includes "/" seg = false) segs ->
  segments_of (join "/" segs) = segs.
Proof.
  unfold join. induction segs as [| x segs IH]; intros Hall; [reflexivity |].
  apply Forall_cons in Hall as [[Hne Hs] Hall].
  destruct segs as [| y segs].
  - simpl. now apply segments_of_segment.
  - change (String.concat "/" (x :: y :: segs))
      with (x +:+ "/" +:+ String.concat "/" (y :: segs)).
    rewrite segments_of_app, (IH Hall), (segments_of_segment _ Hne Hs).
    reflexivity.
Qed.

(** ** The first question mark *)

Lemma indexOf_none (c : ascii) (s : string) :
  indexOf c s = None <-> includes c s = false.
Proof. unfold includes. destruct (indexOf c s); split; congruence. Qed.

Lemma indexOf_cut (c : ascii) (s : string) (i : nat) :
  indexOf c s = Some i ->
  exists rest,
    s = substring s 0 i +:+ String c rest /\
    substring_from s i = String c rest /\
    includes c (substring s 0 i) = false /\
    String.length (substring s 0 i) = i.
Proof.
  unfold substring, substring_from. revert i.
  induction s as [| a s IH]; intros i; simpl; [discriminate |].
  destruct (Ascii.eqb a c) eqn:Ha.
  - intros [= <-]. apply Ascii.eqb_eq in Ha as ->. simpl.
    exists s. rewrite substring_all. auto.
  - destruct (indexOf c s) as [j |] eqn:Hj; [| discriminate].
    intros [= <-]. destruct (IH j eq_refl) as (rest & Hs & Hfrom & Hno & Hlen).
    exists rest. rewrite Nat.sub_0_r in *. simpl.
    rewrite includes_cons, Ha, Hno, Hlen. simpl.
    rewrite <- Hs. now rewrite Hfrom.
Qed.

Lemma indexOf_app (c : ascii) (a rest : string) :
  includes c a = false ->
  indexOf c (a +:+ String c rest) = Some (String.length a).
Proof.
  induction a as [| x a IH]; simpl.
  - now rewrite Ascii.eqb_refl.
  - rewrite includes_cons. intros [Hx Ha]%orb_false_iff.
    now rewrite Hx, (IH Ha).
Qed.

Lemma substring_prefix (a b : string) :
  String.substring 0 (String.length a) (a +:+ b) = a.
Proof.
  induction a as [| x a IH]; simpl.
  - now destruct b.
  - now rewrite IH.
Qed.

Section RawKeys.
Context `{URLParser}.

(** What [extract] takes from a string that is no URL: the part before
    the first question mark, and the rest. *)
Lemma extract_raw (s pathname search : string) :
  URL_canParse s = false ->
  extract (ReqString s) = Ok (pathname, search) ->
  s = pathname +:+ search /\
  includes "?" pathname = false /\
  (search = EmptyString \/ exists rest, search = String "?" rest).
Proof.
  intros Hraw. unfold extract. rewrite Hraw.
  destruct (indexOf "?" s) as [qIndex |] eqn:Hq.
  - destruct (indexOf_cut _ _ _ Hq) as (rest & Hs & Hfrom & Hno & _).
    intros [= <- <-]. rewrite Hfrom. repeat split; eauto.
  - intros [= <- <-]. rewrite app_nil_r_str.
    repeat split; [now apply indexOf_none | now left].
Qed.

Lemma extract_raw_of (pathname search : string) :
  URL_canParse (pathname +:+ search) = false ->
  includes "?" pathname = false ->
  (search = EmptyString \/ exists rest, search = String "?" rest) ->
  extract (ReqString (pathname +:+ search)) = Ok (pathname, search).
Proof.
  intros Hraw Hno Hsearch. unfold extract. rewrite Hraw.
  destruct Hsearch as [-> | [rest ->]].
  - rewrite app_nil_r_str. apply indexOf_none in Hno. now rewrite Hno.
  - rewrite (indexOf_app _ _ _ Hno). unfold substring, substring_from.
    rewrite Nat.sub_0_r, substring_prefix, length_app_str.
    replace (String.length pathname + String.length (String "?" rest)
             - String.length pathname)
      with (String.length (String "?" rest)) by lia.
    now rewrite substring_skip.
Qed.

Lemma finish_of_segments (pathname search popped : string) (front : list string) :
  segments_of pathname = front ++ [popped] ->
  Forall (fun seg => is_dot_segment seg = false) (segments_of pathname) ->
  finish pathname search = Ok (mkResolvedPath front (popped +:+ search)).
Proof.
  intros Hsegs Hdots. unfold finish. rewrite Hsegs in *.
  rewrite length_app. simpl. replace (length front + 1 =? 0)%nat with false
    by (symmetry; apply Nat.eqb_neq; lia).
  destruct (find is_dot_segment (front ++ [popped])) as [seg |] eqn:Hfind.
  - apply find_some in Hfind as [Hin Hdot].
    pose proof (proj1 (List.Forall_forall _ _) Hdots seg Hin). congruence.
  - now rewrite last_snoc, removelast_last.
Qed.

Lemma join_snoc_app (front : list string) (popped search : string) :
  join "/" (front ++ [popped +:+ search]) = join "/" (front ++ [popped]) +:+ search.
Proof.
  unfold join. induction front as [| x front IH]; [reflexivity |].
  destruct front as [| y front].
  - simpl. now rewrite !app_assoc_str.
  - change (String.concat "/" ((x :: y :: front) ++ [popped +:+ search]))
      with (x +:+ "/" +:+ String.concat "/" ((y :: front) ++ [popped +:+ search])).
    change (String.concat "/" ((x :: y :: front) ++ [popped]))
      with (x +:+ "/" +:+ String.concat "/" ((y :: front) ++ [popped])).
    rewrite IH. now rewrite !app_assoc_str.
Qed.

Lemma includes_join (c : ascii) (segs : list string) :
  c <> "/"%char ->
  Forall (fun seg => includes c seg = false) segs ->
  includes c (join "/" segs) = false.
Proof.
  intros Hc. unfold join. induction segs as [| x segs IH]; intros Hall; [reflexivity |].
  apply Forall_cons in Hall as [Hx Hall]. destruct segs as [| y segs]; [exact Hx |].
  change (String.concat "/" (x :: y :: segs))
    with (x +:+ "/" +:+ String.concat "/" (y :: segs)).
  change (x +:+ "/" +:+ String.concat "/" (y :: segs))
    with (x +:+ String "/" (String.concat "/" (y :: segs))).
  rewrite includes_app, includes_cons, Hx, (IH Hall).
  replace (Ascii.eqb "/" c) with false; [reflexivity |].
  symmetry. apply Ascii.eqb_neq. congruence.
Qed.

End RawKeys.

Section ResolverExtras.
Context `{URLParser}.

Lemma resolvePath_finish (request : RequestInfo) (p : ResolvedPath) :
  resolvePath request = Ok p ->
  exists pathname search,
    extract request = Ok (pathname, search) /\ finish pathname search = Ok p.
Proof.
  unfold resolvePath.
  destruct (extract request) as [[pathname search] | e]; [| discriminate].
  eauto.
Qed.

(** X1. The directory segments [resolvePath] returns hold no slash, and
    neither does the path segment the file name starts with: a slash in
    the file name can only come from the query. *)
Theorem resolved_segments_hold_no_slash (request : RequestInfo) (p : ResolvedPath) :
  resolvePath request = Ok p ->
  Forall (fun seg => includes "/" seg = false) (dir p) /\
  exists popped pathname search,
    extract request = Ok (pathname, search) /\
    file p = popped +:+ search /\
    includes "/" popped = false.
Proof.
  intros (pathname & search & Hextract & Hfinish)%resolvePath_finish.
  apply finish_Ok in Hfinish as (popped & Hsegs & Hfile & _).
  pose proof (segments_of_no_slash pathname) as Hall.
  rewrite Hsegs in Hall. apply Forall_app in Hall as [Hdir Hlast].
  split; [exact Hdir |].
  exists popped, pathname, search. repeat split; try assumption.
  now apply Forall_inv in Hlast.
Qed.

(** X2. A string key that is no URL is cut at its first question mark
    and nothing of it is dropped: the pathname (without a question
    mark) followed by the search (empty, or starting with the question
    mark) is the key, the segments are those of the pathname, and the
    whole search ends the file name. *)
Theorem raw_key_is_cut_at_first_question_mark (s : string) (p : ResolvedPath) :
  URL_canParse s = false ->
  resolvePath (ReqString s) = Ok p ->
  exists pathname search popped,
    s = pathname +:+ search /\
    includes "?" pathname = false /\
    (search = EmptyString \/ exists rest, search = String "?" rest) /\
    segments_of pathname = dir p ++ [popped] /\
    file p = popped +:+ search.
Proof.
  intros Hraw (pathname & search & Hextract & Hfinish)%resolvePath_finish.
  destruct (extract_raw _ _ _ Hraw Hextract) as (Hs & Hno & Hsearch).
  apply finish_Ok in Hfinish as (popped & Hsegs & Hfile & _).
  exists pathname, search, popped. auto.
Qed.

(** X3. Slashes at the start, at the end and next to one another change
    nothing, and neither does what a URL holds beside its pathname and
    search: such keys resolve alike. *)
Theorem slashes_and_origin_are_ignored (h h' a b q : string) :
  resolvePath (ReqURL (mkURL h ("/" +:+ a) q)) = resolvePath (ReqURL (mkURL h' a q)) /\
  resolvePath (ReqURL (mkURL h (a +:+ "/") q)) = resolvePath (ReqURL (mkURL h' a q)) /\
  resolvePath (ReqURL (mkURL h (a +:+ "//" +:+ b) q))
  = resolvePath (ReqURL (mkURL h' (a +:+ "/" +:+ b) q)).
Proof.
  assert (Hsame : forall p1 p2,
            segments_of p1 = segments_of p2 ->
            resolvePath (ReqURL (mkURL h p1 q)) = resolvePath (ReqURL (mkURL h' p2 q))).
  { intros p1 p2 Hsegs. unfold resolvePath, extract, finish. simpl.
    now rewrite Hsegs. }
  split; [| split]; apply Hsame.
  - change ("/" +:+ a) with (EmptyString +:+ "/" +:+ a).
    now rewrite segments_of_app.
  - change (a +:+ "/") with (a +:+ "/" +:+ EmptyString).
    rewrite segments_of_app. apply app_nil_r.
  - change (a +:+ "//" +:+ b) with (a +:+ "/" +:+ (EmptyString +:+ "/" +:+ b)).
    now rewrite !segments_of_app.
Qed.

(** X4. The path [keys] builds for a resolved key, a slash and the
    segments joined by slashes, resolves to the same directory and file
    again, where the pathname of the key holds no question mark, its
    search is empty or starts with one, and the path is no URL. *)
Theorem listed_path_resolves_back (request : RequestInfo) (p : ResolvedPath)
    (pathname search : string) :
  resolvePath request = Ok p ->
  extract request = Ok (pathname, search) ->
  includes "?" pathname = false ->
  (search = EmptyString \/ exists rest, search = String "?" rest) ->
  URL_canParse ("/" +:+ join "/" (dir p ++ [file p])) = false ->
  resolvePath (ReqString ("/" +:+ join "/" (dir p ++ [file p]))) = Ok p.
Proof.
  intros Hres Hextract Hno Hsearch Hraw.
  unfold resolvePath in Hres. rewrite Hextract in Hres.
  destruct (finish_Ok _ _ _ Hres) as (popped & Hsegs & Hfile & Hdots).
  destruct p as [front name]. cbn [dir file] in *. subst name.
  assert (Hlisted : "/" +:+ join "/" (front ++ [popped +:+ search])
                    = ("/" +:+ join "/" (segments_of pathname)) +:+ search).
  { now rewrite join_snoc_app, Hsegs, app_assoc_str. }
  rewrite Hlisted in *. clear Hlisted.
  set (path := "/" +:+ join "/" (segments_of pathname)) in *.
  assert (Hpath : includes "?" path = false).
  { unfold path. change ("/" +:+ ?r) with (String "/" r).
    rewrite includes_cons, includes_join; [reflexivity | discriminate |].
    now apply segments_of_keep. }
  unfold resolvePath. rewrite (extract_raw_of _ _ Hraw Hpath Hsearch).
  assert (Hback : segments_of path = segments_of pathname).
  { unfold path. change ("/" +:+ ?r) with (EmptyString +:+ "/" +:+ r).
    rewrite segments_of_app, segments_of_empty. simpl.
    apply segments_of_join, List.Forall_forall. intros seg Hin. split.
    - now apply segments_of_nonempty with pathname.
    - exact (proj1 (List.Forall_forall _ _) (segments_of_no_slash pathname) seg Hin). }
  apply finish_of_segments; rewrite Hback; assumption.
Qed.

End ResolverExtras.

(** X1 on a key with a slash in its query. *)
Lemma segments_of_models_key :
  Forall (fun seg => includes "/" seg = false) ["models"; "v1"] /\
  exists popped pathname search,
    extract (ReqString "/models/v1/a?dir=/tmp") = Ok (pathname, search) /\
    "a?dir=/tmp" = popped +:+ search /\
    includes "/" popped = false.
Proof.
  apply (resolved_segments_hold_no_slash (ReqString "/models/v1/a?dir=/tmp")
           (mkResolvedPath ["models"; "v1"] "a?dir=/tmp")).
  vm_compute. reflexivity.
Defined.

(** X2 on a key with two question marks. *)
Lemma raw_key_with_two_question_marks :
  exists pathname search popped,
    "/a/b?x=1?y=2" = pathname +:+ search /\
    includes "?" pathname = false /\
    (search = EmptyString \/ exists rest, search = String "?" rest) /\
    segments_of pathname = ["a"] ++ [popped] /\
    "b?x=1?y=2" = popped +:+ search.
Proof.
  apply (raw_key_is_cut_at_first_question_mark "/a/b?x=1?y=2"
           (mkResolvedPath ["a"] "b?x=1?y=2")); vm_compute; reflexivity.
Defined.

(** X4 on a key with slashes to spare: the path of its entry resolves
    to the entry. *)
Lemma listed_path_of_models_key :
  resolvePath (ReqString "/models/a?rev=2")
  = Ok (mkResolvedPath ["models"] "a?rev=2").
Proof.
  apply (listed_path_resolves_back (ReqString "models//a/?rev=2")
           (mkResolvedPath ["models"] "a?rev=2") "models//a/" "?rev=2").
  - vm_compute. reflexivity.
  - vm_compute. reflexivity.
  - vm_compute. reflexivity.
  - right. eexists. reflexivity.
  - vm_compute. reflexivity.
Defined.

(** ** Operations that only read *)

Lemma keeps_ret {A} (a : A) : keeps_content (ret a).
Proof. intros st. reflexivity. Qed.

Lemma keeps_throw {A} (e : exn) : keeps_content (@throw A e).
Proof. intros st. reflexivity. Qed.

Lemma keeps_bind {A B} (m : io A) (k : A -> io B) :
  keeps_content m -> (forall a, keeps_content (k a)) -> keeps_content (bind m k).
Proof.
  intros Hm Hk st. unfold bind. specialize (Hm st).
  destruct (m st) as [[a | e] st1]; simpl in *; [| exact Hm].
  now rewrite (Hk a st1).
Qed.

Lemma keeps_try_catch {A} (body : io A) (handler : exn -> io A) :
  keeps_content body -> (forall e, keeps_content (handler e)) ->
  keeps_content (try_catch body handler).
Proof.
  intros Hb Hh st. unfold try_catch. specialize (Hb st).
  destruct (body st) as [[a | e] st1]; simpl in *; [exact Hb |].
  now rewrite (Hh e st1).
Qed.

Lemma keeps_perform {A} (c : call) (f : directory -> result A * directory) :
  (forall d, snd (f d) = d) -> keeps_content (perform c f).
Proof.
  intros Hf st. unfold perform. specialize (Hf (root st)).
  destruct (f (root st)) as [r d]. exact Hf.
Qed.

Lemma keeps_getDirectoryHandle (h : handle) (name : string) :
  keeps_content (getDirectoryHandle h name false).
Proof.
  apply keeps_perform. intros d. unfold getDirectoryHandle_on.
  destruct (resolve_dir d h) as [es |]; [| reflexivity].
  now destruct (es !! name) as [[data | sub] |].
Qed.

Lemma keeps_getFileHandle (h : handle) (name : string) :
  keeps_content (getFileHandle h name false).
Proof.
  apply keeps_perform. intros d. unfold getFileHandle_on.
  destruct (resolve_dir d h) as [es |]; [| reflexivity].
  now destruct (es !! name) as [[data | sub] |].
Qed.

Lemma keeps_getFile (f : file_handle) : keeps_content (getFile f).
Proof.
  apply keeps_perform. intros d. unfold getFile_on. now destruct (read_file f d).
Qed.

Lemma keeps_rethrow {A} (miss : A) (e : exn) :
  keeps_content (OPFSFileSystem.rethrow_unless_not_found miss e).
Proof.
  unfold OPFSFileSystem.rethrow_unless_not_found.
  destruct (isNotFound e); [apply keeps_ret | apply keeps_throw].
Qed.

Lemma keeps_navigate_from (segs : list string) (h : handle) :
  keeps_content (OPFSFileSystem.navigate_from h segs false).
Proof.
  revert h. induction segs as [| seg rest IH]; intros h; [apply keeps_ret |].
  intros st. simpl. pose proof (keeps_getDirectoryHandle h seg st) as Hget.
  destruct (getDirectoryHandle h seg false st) as [[h' | e] st1]; simpl in Hget.
  - now rewrite IH.
  - now destruct (isNotFound e).
Qed.

Lemma keeps_navigate (segs : list string) :
  keeps_content (OPFSFileSystem.navigate segs false).
Proof.
  unfold OPFSFileSystem.navigate. apply keeps_bind; [apply keeps_ret |].
  intros h. apply keeps_navigate_from.
Qed.

Lemma keeps_exists (dirSegments : list string) (fileName : string) :
  keeps_content (OPFSFileSystem.exists_ dirSegments fileName).
Proof.
  unfold OPFSFileSystem.exists_. apply keeps_bind; [apply keeps_navigate |].
  intros [h |]; [| apply keeps_ret].
  apply keeps_try_catch; [| intros e; apply keeps_rethrow].
  apply keeps_bind; [apply keeps_getFileHandle | intros _; apply keeps_ret].
Qed.

Lemma keeps_list : keeps_content OPFSFileSystem.list.
Proof. intros st. reflexivity. Qed.

Section ReadsWithPlatform.
Context `{URLParser} `{JSON}.

Lemma keeps_readEntry (dirSegments : list string) (fileName : string) :
  keeps_content (OPFSFileSystem.readEntry dirSegments fileName).
Proof.
  unfold OPFSFileSystem.readEntry. apply keeps_bind; [apply keeps_navigate |].
  intros [h |]; [| apply keeps_ret].
  apply keeps_try_catch; [| intros e; apply keeps_rethrow].
  apply keeps_bind; [apply keeps_getFileHandle |]. intros handle.
  apply keeps_bind; [apply keeps_getFile |]. intros file.
  apply keeps_bind; [| intros meta; apply keeps_ret].
  apply keeps_try_catch; [| intros e; apply keeps_rethrow].
  apply keeps_bind; [apply keeps_getFileHandle |]. intros metaHandle.
  apply keeps_bind; [apply keeps_getFile |]. intros metaFile.
  unfold OPFSFileSystem.parse_meta.
  destruct (JSON_parse metaFile); [apply keeps_ret | apply keeps_throw].
Qed.

Lemma keeps_resolved {A} (request : RequestInfo) (k : ResolvedPath -> io A) :
  (forall p, keeps_content (k p)) ->
  keeps_content (bind (OPFSCache.resolved request) k).
Proof.
  intros Hk. apply keeps_bind; [| exact Hk].
  unfold OPFSCache.resolved.
  destruct (resolvePath request); [apply keeps_ret | apply keeps_throw].
Qed.

(** X5. The operations that read, [exists], [readEntry] and [list] of
    the adapter and [match] and [keys] of the cache, leave the content
    of the storage as it was, on every storage and every input, also
    where they throw. *)
Theorem reads_change_nothing :
  (forall dirSegments fileName st,
     root (snd (OPFSFileSystem.exists_ dirSegments fileName st)) = root st) /\
  (forall dirSegments fileName st,
     root (snd (OPFSFileSystem.readEntry dirSegments fileName st)) = root st) /\
  (forall st, root (snd (OPFSFileSystem.list st)) = root st) /\
  (forall request st, root (snd (OPFSCache.match_ request st)) = root st) /\
  (forall request st, root (snd (OPFSCache.keys request st)) = root st).
Proof.
  split; [exact keeps_exists |]. split; [exact keeps_readEntry |].
  split; [exact keeps_list |]. split.
  - intros request. unfold OPFSCache.match_. apply keeps_resolved. intros p.
    apply keeps_bind; [apply keeps_readEntry |].
    intros [[data meta] |]; [|apply keeps_ret].
    destruct (Response.new_ _ _); [apply keeps_ret | apply keeps_throw].
  - intros [request |]; unfold OPFSCache.keys.
    + apply keeps_resolved. intros p.
      apply keeps_bind; [apply keeps_exists |].
      intros [|]; apply keeps_ret.
    + apply keeps_bind; [apply keeps_list | intros l; apply keeps_ret].
Qed.

End ReadsWithPlatform.

(** ** [exists] beside [readEntry] *)

Section ExistsAndRead.
Context `{URLParser} `{JSON}.



End ExistsAndRead.

(** ** Where [write] completes, and what a failed [write] leaves *)

Lemma navigate_from_blocked_root (segs : list string) (h : handle) (st : storage)
    (d : directory) :
  resolve_dir (root st) h = Some d ->
  dirs_clear d segs = false ->
  exists st',
    OPFSFileSystem.navigate_from h segs true st = (Err TypeMismatchError, st') /\
    root st' = root st.
Proof.
  revert h st d. induction segs as [| seg rest IH]; intros h st d Hh Hclear;
    simpl in *; [discriminate |].
  destruct (d !! seg) as [[data | sub] |] eqn:Hseg; [| | discriminate].
  - rewrite (getDirectoryHandle_file _ _ _ _ _ _ Hh Hseg). simpl. eauto.
  - rewrite (getDirectoryHandle_dir _ _ _ _ _ _ Hh Hseg).
    destruct (IH (h ++ [seg]) (logged st (GetDirectoryHandle h seg true) true (root st))
                sub) as (st' & Hnav & Hroot); [| exact Hclear |].
    + simpl. now rewrite (resolve_dir_snoc _ _ _ _ Hh), Hseg.
    + exists st'. split; [exact Hnav | exact Hroot].
Qed.

Lemma navigate_create_found (segs : list string) (st : storage) (es : directory) :
  resolve_dir (root st) segs = Some es ->
  exists st',
    OPFSFileSystem.navigate segs true st = (Ok (Some segs), st') /\
    root st' = root st.
Proof.
  intros Hdir.
  pose proof (dirs_clear_resolved _ _ _ Hdir) as Hclear.
  destruct (navigate_create segs st Hclear) as (st' & Hnav & _).
  exists st'. split; [exact Hnav |].
  pose proof (navigate_from_create_root segs [] st (root st) eq_refl Hclear) as Hroot.
  unfold OPFSFileSystem.navigate in Hnav.
  erewrite bind_ok in Hnav by reflexivity. rewrite Hnav in Hroot. simpl in Hroot.
  rewrite Hroot. clear -Hdir. revert Hdir. generalize (root st) as d.
  induction segs as [| seg rest IH]; intros d; simpl; [reflexivity |].
  destruct (d !! seg) as [[data | sub] |] eqn:Hseg; try discriminate.
  intros Hsub. rewrite (IH _ Hsub). now apply insert_id.
Qed.

Section WriteOutcomes.
Context `{JSON}.

(** X7. Where something is in the way, a file where the walk down
    needs a directory, or a directory under the name of the data file or
    of the sidecar, [write] throws a [TypeMismatchError]. The walk down
    that makes directories never comes back with nothing, on any storage
    and path, so the branch of [write] that throws its own error, for a
    directory structure that could not be made, is never taken. *)
Theorem write_throws_where_blocked (st : storage) (dirSegments : list string)
    (fileName : string) (body : option string) (meta : CacheEntryMeta) :
  (writable_at (root st) dirSegments fileName = false ->
   fst (OPFSFileSystem.write dirSegments fileName body meta st)
   = Err TypeMismatchError) /\
  fst (OPFSFileSystem.navigate dirSegments true st) <> Ok None.
Proof.
  split.
  - intros Hw. now destruct (write_blocked st _ _ body meta Hw) as (st' & ->).
  - destruct (dirs_clear (root st) dirSegments) eqn:Hclear.
    + destruct (navigate_create dirSegments st Hclear) as (st' & -> & _).
      discriminate.
    + destruct (navigate_from_blocked dirSegments [] st (root st) eq_refl Hclear)
        as (st' & Hnav).
      unfold OPFSFileSystem.navigate. erewrite bind_ok by reflexivity.
      rewrite Hnav. discriminate.
Qed.

(** X8. A [write] that fails is not undone. Stopped by a file on the
    way down, or by a directory under the name of the sidecar, it leaves
    the content as it was; stopped by a directory under the name of the
    data file, it has written the sidecar by then and leaves it. *)
Theorem failed_write_is_not_undone (st : storage) (dirSegments : list string)
    (fileName : string) (body : option string) (meta : CacheEntryMeta) :
  (dirs_clear (root st) dirSegments = false ->
   exists st',
     OPFSFileSystem.write dirSegments fileName body meta st
     = (Err TypeMismatchError, st') /\
     root st' = root st) /\
  (forall es sub,
     resolve_dir (root st) dirSegments = Some es ->
     es !! sidecar fileName = Some (Dir sub) ->
     exists st',
       OPFSFileSystem.write dirSegments fileName body meta st
       = (Err TypeMismatchError, st') /\
       root st' = root st) /\
  (forall es sub,
     resolve_dir (root st) dirSegments = Some es ->
     es !! fileName = Some (Dir sub) ->
     not_a_directory (es !! sidecar fileName) = true ->
     exists st',
       OPFSFileSystem.write dirSegments fileName body meta st
       = (Err TypeMismatchError, st') /\
       root st'
       = modify_dir (insert (sidecar fileName) (File (JSON_stringify meta)))
           dirSegments (root st)).
Proof.
  split; [| split].
  - intros Hclear.
    destruct (navigate_from_blocked_root dirSegments [] st (root st) eq_refl Hclear)
      as (st' & Hnav & Hroot).
    exists st'. split; [| exact Hroot].
    unfold OPFSFileSystem.write. erewrite bind_err; [reflexivity |].
    unfold OPFSFileSystem.navigate. erewrite bind_ok by reflexivity. exact Hnav.
  - intros es sub Hdir Hmeta.
    destruct (navigate_create_found _ _ _ Hdir) as (st1 & Hnav & Hroot1).
    rewrite <- Hroot1 in Hdir.
    unfold OPFSFileSystem.write. fold (sidecar fileName).
    erewrite bind_ok by exact Hnav. cbv beta iota.
    erewrite bind_err by (eapply getFileHandle_dir; eassumption).
    eexists. split; [reflexivity |]. exact Hroot1.
  - intros es sub Hdir Hfile Hmeta.
    destruct (navigate_create_found _ _ _ Hdir) as (st1 & Hnav & Hroot1).
    rewrite <- Hroot1 in Hdir.
    unfold OPFSFileSystem.write. fold (sidecar fileName).
    erewrite bind_ok by exact Hnav. cbv beta iota.
    destruct (getFileHandle_creates st1 _ _ _ Hdir Hmeta) as (old & Hget2 & Htouch2).
    set (d2 := modify_dir (touch (sidecar fileName)) dirSegments (root st1)) in *.
    assert (Hdir2 : resolve_dir d2 dirSegments =
                    Some (<[sidecar fileName := File old]> es)).
    { subst d2. erewrite resolve_modify_dir by exact Hdir. now rewrite Htouch2. }
    erewrite bind_ok by exact Hget2.
    erewrite bind_ok
      by (eapply createWritable_file; [exact Hdir2 | apply lookup_insert_eq]).
    erewrite bind_ok by apply write_buffer.
    cbn [target buffer String.append].
    erewrite bind_ok
      by (eapply close_file; [exact Hdir2 | apply lookup_insert_eq]).
    set (d3 := modify_dir (insert (sidecar fileName) (File (JSON_stringify meta)))
                 dirSegments d2).
    assert (Hdir3 : resolve_dir d3 dirSegments =
                    Some (<[sidecar fileName := File (JSON_stringify meta)]> es)).
    { subst d3. erewrite resolve_modify_dir by exact Hdir2.
      now rewrite insert_insert_eq. }
    erewrite bind_err.
    2:{ eapply getFileHandle_dir; [exact Hdir3 |].
        rewrite lookup_insert_ne by apply sidecar_neq. exact Hfile. }
    eexists. split; [reflexivity |]. simpl.
    subst d3 d2. rewrite modify_dir_compose, Hroot1.
    rewrite Hroot1 in Hdir. eapply modify_dir_ext; [exact Hdir |]. simpl.
    unfold touch. destruct (es !! sidecar fileName); [reflexivity |].
    apply insert_insert_eq.
Qed.

End WriteOutcomes.

(** ** The content of the files of the tree *)

Lemma file_content_empty (q : list string) : file_content (Dir ∅) q = None.
Proof. destruct q; simpl; [reflexivity |]. now rewrite lookup_empty. Qed.

Lemma file_content_file (data : string) (q : list string) :
  q <> [] -> file_content (File data) q = None.
Proof. now destruct q. Qed.

Lemma file_at_content (n : node) (q : list string) :
  file_at n q = true <-> exists data, file_content n q = Some data.
Proof.
  revert n. induction q as [| seg rest IH]; intros [data | es]; simpl.
  - split; eauto.
  - split; [discriminate | intros [data [=]]].
  - split; [discriminate | intros [data' [=]]].
  - destruct (es !! seg) as [ch |]; [apply IH |].
    split; [discriminate | intros [data [=]]].
Qed.

Lemma file_content_lookup (d : directory) (segs : list string) (name : string)
    (data : string) :
  file_content (Dir d) (segs ++ [name]) = Some data
  <-> exists es, resolve_dir d segs = Some es /\ es !! name = Some (File data).
Proof.
  revert d. induction segs as [| seg rest IH]; intros d; simpl.
  - destruct (d !! name) as [[data' | sub] |] eqn:Hn; simpl.
    + split.
      * intros [= ->]. exists d. auto.
      * intros (es & [= <-] & Hes). congruence.
    + split; [discriminate |]. intros (es & [= <-] & Hes). congruence.
    + split; [discriminate |]. intros (es & [= <-] & Hes). congruence.
  - destruct (d !! seg) as [[data' | sub] |] eqn:Hseg.
    + rewrite file_content_file by (now destruct rest).
      split; [discriminate | intros (es & [=] & _)].
    + apply IH.
    + split; [discriminate | intros (es & [=] & _)].
Qed.

Lemma file_content_mkdirs (segs : list string) (d : directory) (q : list string) :
  dirs_clear d segs = true ->
  file_content (Dir (mkdirs segs d)) q = file_content (Dir d) q.
Proof.
  revert d q. induction segs as [| seg rest IH]; intros d q Hclear; [reflexivity |].
  simpl in Hclear. simpl mkdirs.
  destruct (d !! seg) as [[data | sub] |] eqn:Hseg; [discriminate | |].
  - destruct q as [| s q]; [reflexivity |]. simpl.
    destruct (decide (seg = s)) as [<- | Hne].
    + rewrite lookup_insert_eq, Hseg. now apply IH.
    + now rewrite lookup_insert_ne.
  - destruct q as [| s q]; [reflexivity |]. simpl.
    destruct (decide (seg = s)) as [<- | Hne].
    + rewrite lookup_insert_eq, Hseg. rewrite IH by apply dirs_clear_empty.
      apply file_content_empty.
    + now rewrite lookup_insert_ne.
Qed.

Lemma file_content_set (segs : list string) (d es : directory) (f g x y : string)
    (q : list string) :
  resolve_dir d segs = Some es ->
  not_a_directory (es !! f) = true ->
  not_a_directory (es !! g) = true ->
  q <> segs ++ [f] ->
  q <> segs ++ [g] ->
  file_content
    (Dir (modify_dir (fun es => <[f := File x]> (<[g := File y]> es)) segs d)) q
  = file_content (Dir d) q.
Proof.
  revert d q. induction segs as [| seg rest IH]; intros d q Hes Hf Hg Hqf Hqg.
  - injection Hes as ->. simpl in *. destruct q as [| s q]; [reflexivity |].
    simpl. destruct (decide (f = s)) as [<- | Hnf].
    + rewrite lookup_insert_eq.
      rewrite file_content_file by (intros ->; congruence).
      destruct (es !! f) as [[data | sub] |]; try discriminate; [| reflexivity].
      symmetry. apply file_content_file. intros ->. congruence.
    + rewrite lookup_insert_ne by exact Hnf.
      destruct (decide (g = s)) as [<- | Hng].
      * rewrite lookup_insert_eq.
        rewrite file_content_file by (intros ->; congruence).
        destruct (es !! g) as [[data | sub] |]; try discriminate; [| reflexivity].
        symmetry. apply file_content_file. intros ->. congruence.
      * now rewrite lookup_insert_ne.
  - simpl in Hes |- *.
    destruct (d !! seg) as [[data | sub] |] eqn:Hseg; try discriminate.
    destruct q as [| s q]; [reflexivity |]. simpl.
    destruct (decide (seg = s)) as [<- | Hne].
    + rewrite lookup_insert_eq, Hseg. apply IH; try assumption.
      * intros ->. now apply Hqf.
      * intros ->. now apply Hqg.
    + now rewrite lookup_insert_ne.
Qed.

Section WriteFrame.
Context `{JSON}.

(** The files [write] leaves alone: all but the data file and the
    sidecar. *)
Lemma write_keeps_other_files (st : storage) (dirSegments : list string)
    (fileName : string) (body : option string) (meta : CacheEntryMeta)
    (q : list string) :
  writable_at (root st) dirSegments fileName = true ->
  q <> dirSegments ++ [fileName] ->
  q <> dirSegments ++ [sidecar fileName] ->
  file_content
    (Dir (root (snd (OPFSFileSystem.write dirSegments fileName body meta st)))) q
  = file_content (Dir (root st)) q.
Proof.
  intros Hwritable Hqf Hqg. rewrite (write_root _ _ _ _ _ Hwritable).
  unfold writable_at in Hwritable.
  apply andb_true_iff in Hwritable as [Hclear Hnames].
  assert (Hfree :
            not_a_directory (default ∅ (resolve_dir (root st) dirSegments)
                               !! fileName) = true /\
            not_a_directory (default ∅ (resolve_dir (root st) dirSegments)
                               !! sidecar fileName) = true).
  { destruct (resolve_dir (root st) dirSegments); simpl.
    - now apply andb_true_iff.
    - now rewrite !lookup_empty. }
  destruct Hfree as [Hf Hg].
  rewrite (file_content_set dirSegments _ _ fileName (sidecar fileName) _ _ q
             (resolve_dir_mkdirs _ _ Hclear) Hf Hg Hqf Hqg).
  now apply file_content_mkdirs.
Qed.

(** What [readEntry] returns for an entry of which both files are
    there. *)
Lemma readEntry_of_files (st : storage) (dirSegments : list string)
    (fileName data text : string) :
  file_content (Dir (root st)) (dirSegments ++ [fileName]) = Some data ->
  file_content (Dir (root st)) (dirSegments ++ [sidecar fileName]) = Some text ->
  fst (OPFSFileSystem.readEntry dirSegments fileName st)
  = match JSON_parse text with
    | Some meta => Ok (Some (data, Some meta))
    | None => Err SyntaxError
    end.
Proof.
  intros (es & Hdir & Hfile)%file_content_lookup
         (es' & Hdir' & Hmeta)%file_content_lookup.
  rewrite Hdir in Hdir'. injection Hdir' as <-.
  destruct (readEntry_hit st _ _ _ _ Hdir Hfile) as (st' & _ & ->).
  simpl. now rewrite Hmeta.
Qed.

End WriteFrame.

Lemma append_inj_r (a b s : string) : a +:+ s = b +:+ s -> a = b.
Proof.
  intros Heq.
  assert (Hlen : String.length a = String.length b).
  { apply (f_equal String.length) in Heq. rewrite !length_app_str in Heq. lia. }
  rewrite <- (substring_prefix a s), <- (substring_prefix b s), Heq, Hlen.
  reflexivity.
Qed.

Lemma sidecar_inj (a b : string) : sidecar a = sidecar b -> a = b.
Proof. apply append_inj_r. Qed.

Section PutFrame.
Context `{URLParser} `{JSON}.

Lemma write_completed (st : storage) (dirSegments : list string)
    (fileName : string) (body : option string) (meta : CacheEntryMeta) :
  fst (OPFSFileSystem.write dirSegments fileName body meta st) = Ok tt ->
  writable_at (root st) dirSegments fileName = true.
Proof.
  intros Hok. destruct (writable_at (root st) dirSegments fileName) eqn:Hw;
    [reflexivity |].
  destruct (write_blocked st _ _ body meta Hw) as (st' & Hblocked).
  rewrite Hblocked in Hok. discriminate.
Qed.

Lemma match_of_files (request : RequestInfo) (p : ResolvedPath) (st : storage)
    (data text : string) :
  resolvePath request = Ok p ->
  file_content (Dir (root st)) (dir p ++ [file p]) = Some data ->
  file_content (Dir (root st)) (dir p ++ [sidecar (file p)]) = Some text ->
  fst (OPFSCache.match_ request st)
  = match JSON_parse text with
    | Some meta => matched data (Some meta)
    | None => Err SyntaxError
    end.
Proof.
  intros Hres Hdata Htext.
  pose proof (readEntry_of_files st _ _ _ _ Hdata Htext) as Hread.
  unfold OPFSCache.match_. rewrite (resolved_ok _ _ _ _ _ Hres). unfold bind.
  destruct (OPFSFileSystem.readEntry (dir p) (file p) st) as [r st'].
  simpl in Hread. subst r. destruct (JSON_parse text); [|reflexivity].
  unfold matched. now destruct (Response.new_ _ _).
Qed.

(** X9. A [put] leaves the other entries as they are: for an entry
    with its data file and its sidecar stored, [match] returns after a
    completed [put] on another key what it returned before, as long as
    neither file of the one entry is a file of the other. *)
Theorem put_leaves_other_entries (request other : RequestInfo)
    (p q : ResolvedPath) (response : Response.t) (st : storage)
    (data text : string) :
  resolvePath request = Ok p ->
  resolvePath other = Ok q ->
  Response.bodyUsed response = false ->
  file_content (Dir (root st)) (dir q ++ [file q]) = Some data ->
  file_content (Dir (root st)) (dir q ++ [sidecar (file q)]) = Some text ->
  dir p ++ [file p] <> dir q ++ [file q] ->
  dir p ++ [file p] <> dir q ++ [sidecar (file q)] ->
  dir p ++ [sidecar (file p)] <> dir q ++ [file q] ->
  fst (OPFSCache.put request response st) = Ok tt ->
  fst (OPFSCache.match_ other (snd (OPFSCache.put request response st)))
  = fst (OPFSCache.match_ other st).
Proof.
  intros Hp Hq Hbody Hdata Htext Hff Hfs Hsf Hput.
  rewrite (put_writes _ _ _ _ Hp Hbody) in *.
  pose proof (write_completed _ _ _ _ _ Hput) as Hwritable.
  assert (Hss : dir p ++ [sidecar (file p)] <> dir q ++ [sidecar (file q)]).
  { intros [Hd Hs]%app_inj_tail. apply sidecar_inj in Hs. apply Hff. congruence. }
  rewrite (match_of_files other q st data text Hq Hdata Htext).
  apply (match_of_files other q _ data text Hq).
  - rewrite write_keeps_other_files by (assumption || congruence). exact Hdata.
  - rewrite write_keeps_other_files by (assumption || congruence). exact Htext.
Qed.

End PutFrame.

(** X9 on two entries of one directory. *)
Lemma put_beside_a_stored_entry :
  fst (OPFSCache.match_ (ReqString "/a/x")
         (snd (OPFSCache.put (ReqString "/a/y") gone
                 (snd (OPFSCache.put (ReqString "/a/x") hello Storage.empty)))))
  = fst (OPFSCache.match_ (ReqString "/a/x")
           (snd (OPFSCache.put (ReqString "/a/x") hello Storage.empty))).
Proof.
  apply (put_leaves_other_entries (ReqString "/a/y") (ReqString "/a/x")
           (mkResolvedPath ["a"] "y") (mkResolvedPath ["a"] "x") gone
           (snd (OPFSCache.put (ReqString "/a/x") hello Storage.empty))
           "hello" (JSON_stringify (meta_of hello)));
    try (vm_compute; reflexivity); vm_compute; discriminate.
Defined.

(** ** What the removals leave *)

Lemma perform_root {A} (c : call) (f : directory -> result A * directory)
    (st : storage) :
  fst (perform c f st) = fst (f (root st)) /\
  root (snd (perform c f st)) = snd (f (root st)).
Proof. unfold perform. now destruct (f (root st)). Qed.

Lemma file_content_delete (h : handle) (d es : directory) (name : string)
    (q : list string) :
  resolve_dir d h = Some es ->
  (q = h ++ [name] -> forall data, es !! name <> Some (File data)) ->
  (forall sub, es !! name = Some (Dir sub) -> sub = ∅) ->
  file_content (Dir (modify_dir (delete name) h d)) q = file_content (Dir d) q.
Proof.
  revert d q. induction h as [| seg h IH]; intros d q Hes Hq Hsub.
  - injection Hes as ->. simpl in *. destruct q as [| s q]; [reflexivity |].
    simpl. destruct (decide (name = s)) as [<- | Hne].
    + rewrite lookup_delete_eq.
      destruct (es !! name) as [[data | sub] |] eqn:Hn; [| | reflexivity].
      * symmetry. apply file_content_file. intros ->.
        now apply (Hq eq_refl data).
      * rewrite (Hsub sub eq_refl). symmetry. apply file_content_empty.
    + now rewrite lookup_delete_ne.
  - simpl in Hes |- *.
    destruct (d !! seg) as [[data | sub] |] eqn:Hseg; try discriminate.
    destruct q as [| s q]; [reflexivity |]. simpl.
    destruct (decide (seg = s)) as [<- | Hne].
    + rewrite lookup_insert_eq, Hseg. apply IH; try assumption.
      intros ->. now apply Hq.
    + now rewrite lookup_insert_ne.
Qed.

(** A removal changes no file but the one it names. *)
Lemma removeEntry_on_keeps (h : handle) (name : string) (d : directory)
    (q : list string) :
  q <> h ++ [name] \/ file_content (Dir d) (h ++ [name]) = None ->
  file_content (Dir (snd (removeEntry_on h name d))) q = file_content (Dir d) q.
Proof.
  intros Hq. unfold removeEntry_on.
  destruct (resolve_dir d h) as [es |] eqn:Hes; [| reflexivity].
  destruct (es !! name) as [[data | sub] |] eqn:Hn; [| | reflexivity].
  - simpl. apply (file_content_delete h d es); [exact Hes | | congruence].
    intros -> data' _. destruct Hq as [Hq | Hq]; [congruence |].
    assert (Hsome : file_content (Dir d) (h ++ [name]) = Some data)
      by (apply file_content_lookup; eauto).
    congruence.
  - case_bool_decide as Hempty; [| reflexivity]. simpl.
    apply map_to_list_empty_iff in Hempty.
    apply (file_content_delete h d es); [exact Hes | congruence |].
    intros sub' Heq. congruence.
Qed.

Lemma removeEntry_keeps (h : handle) (name : string) (st : storage)
    (q : list string) :
  q <> h ++ [name] \/ file_content (Dir (root st)) (h ++ [name]) = None ->
  file_content (Dir (root (snd (removeEntry h name st)))) q
  = file_content (Dir (root st)) q.
Proof.
  intros Hq. unfold removeEntry.
  rewrite (proj2 (perform_root _ _ st)). now apply removeEntry_on_keeps.
Qed.

(** A removal leaves the directory it is made in. *)
Lemma removeEntry_resolves (h : handle) (name : string) (st : storage)
    (es : directory) :
  resolve_dir (root st) h = Some es ->
  exists es',
    resolve_dir (root (snd (removeEntry h name st))) h = Some es' /\
    (es' = es \/ es' = delete name es) /\
    (fst (removeEntry h name st) = Ok tt -> es' = delete name es) /\
    (fst (removeEntry h name st) = Err NotFoundError -> es !! name = None).
Proof.
  intros Hes. unfold removeEntry.
  destruct (perform_root (RemoveEntry h name) (removeEntry_on h name) st)
    as [-> ->].
  unfold removeEntry_on. rewrite Hes.
  destruct (es !! name) as [[data | sub] |] eqn:Hn; simpl.
  - exists (delete name es). rewrite (resolve_modify_dir _ _ _ _ Hes).
    repeat split; auto. discriminate.
  - case_bool_decide; simpl.
    + exists (delete name es). rewrite (resolve_modify_dir _ _ _ _ Hes).
      repeat split; auto. discriminate.
    + exists es. repeat split; auto; discriminate.
  - exists es. repeat split; auto. discriminate.
Qed.

Lemma remove_upwards_keeps (steps : list (handle * string)) (st : storage)
    (q : list string) :
  Forall (fun step => file_content (Dir (root st)) (step.1 ++ [step.2]) = None)
         steps ->
  file_content (Dir (root (snd (OPFSFileSystem.remove_upwards steps st)))) q
  = file_content (Dir (root st)) q.
Proof.
  revert st. induction steps as [| [parent seg] steps IH]; intros st Hsteps;
    [reflexivity |].
  apply Forall_cons in Hsteps as [Hstep Hsteps]. simpl in Hstep. simpl.
  pose proof (fun q' => removeEntry_keeps parent seg st q' (or_intror Hstep))
    as Hkeep.
  destruct (removeEntry parent seg st) as [[[] | e] st1]; simpl in Hkeep.
  - rewrite IH; [apply Hkeep |].
    eapply Forall_impl; [exact Hsteps |]. intros step Hnone. now rewrite Hkeep.
  - apply Hkeep.
Qed.

Lemma resolve_dir_prefix (d es : directory) (h k : handle) :
  resolve_dir d (h ++ k) = Some es -> exists es', resolve_dir d h = Some es'.
Proof.
  rewrite resolve_dir_app. destruct (resolve_dir d h) as [es' |]; [eauto |].
  discriminate.
Qed.

Lemma directory_is_no_file (d es : directory) (h : handle) (name : string)
    (rest : list string) :
  resolve_dir d (h ++ name :: rest) = Some es ->
  file_content (Dir d) (h ++ [name]) = None.
Proof.
  intros Hes.
  destruct (file_content (Dir d) (h ++ [name])) as [data |] eqn:Hc; [| reflexivity].
  apply file_content_lookup in Hc as (es' & Hh & Hn).
  rewrite resolve_dir_app, Hh in Hes. simpl in Hes. now rewrite Hn in Hes.
Qed.

Lemma climb_from_prefixes (segs : list string) (above : handle) :
  Forall (fun step => exists rest, above ++ segs = step.1 ++ step.2 :: rest)
         (climb_from above segs).
Proof.
  revert above. induction segs as [| seg rest IH]; intros above; simpl;
    [constructor |].
  apply Forall_app. split.
  - eapply Forall_impl; [apply (IH (above ++ [seg])) |].
    intros step [rest' Hrest]. exists rest'. now rewrite <- Hrest, <- app_assoc.
  - repeat constructor. exists rest. reflexivity.
Qed.

Lemma resolve_dir_firstn (d es : directory) (segs : list string) (n : nat) :
  resolve_dir d segs = Some es -> exists es', resolve_dir d (firstn n segs) = Some es'.
Proof.
  intros Hes. rewrite <- (firstn_skipn n segs) in Hes.
  now apply resolve_dir_prefix in Hes.
Qed.

(** The pruning after a [delete] changes no file. *)
Lemma cleanEmptyDirs_keeps (segs : list string) (st : storage) (es : directory)
    (q : list string) :
  resolve_dir (root st) segs = Some es ->
  file_content (Dir (root (snd (OPFSFileSystem.cleanEmptyDirs segs st)))) q
  = file_content (Dir (root st)) q.
Proof.
  intros Hes. unfold OPFSFileSystem.cleanEmptyDirs.
  destruct segs as [| seg rest] eqn:Hsegs; [reflexivity |].
  rewrite <- Hsegs in *.
  assert (Hne : segs <> []) by (rewrite Hsegs; discriminate).
  replace (length segs =? 0)%nat with false by (rewrite Hsegs; reflexivity).
  erewrite bind_ok by reflexivity.
  destruct (resolve_dir_firstn _ _ _ (length segs - 1) Hes) as (es' & Hfront).
  destruct (collect_parents_found (firstn (length segs - 1) segs) [] [[]] st es'
              Hfront) as (st1 & Hroot1 & _ & Hcollect).
  erewrite bind_ok by exact Hcollect. cbv beta iota.
  change ([[]] ++ below [] (firstn (length segs - 1) segs))
    with ([] :: below [] (firstn (length segs - 1) segs)).
  rewrite (steps_climb segs [] Hne), <- Hroot1.
  apply remove_upwards_keeps.
  eapply Forall_impl; [apply (climb_from_prefixes segs []) |].
  intros [h name] [rest' Hrest]. simpl in *.
  apply directory_is_no_file with es rest'. now rewrite Hroot1, <- Hrest.
Qed.

(** The files [delete] leaves alone: all but the data file and the
    sidecar. *)
Lemma delete_untouched (st : storage) (dirSegments : list string)
    (fileName : string) (q : list string) :
  q <> dirSegments ++ [fileName] ->
  q <> dirSegments ++ [sidecar fileName] ->
  file_content (Dir (root (snd (OPFSFileSystem.delete dirSegments fileName st)))) q
  = file_content (Dir (root st)) q.
Proof.
  intros Hqf Hqs. unfold OPFSFileSystem.delete.
  destruct (navigate_locate dirSegments st) as (st1 & [Hr1 _] & Hnav).
  unfold bind at 1. rewrite Hnav.
  destruct (locate (root st) dirSegments) as [[es |] | e] eqn:Hloc;
    [| simpl; now rewrite Hr1 | simpl; now rewrite Hr1].
  apply locate_found in Hloc. rewrite <- Hr1 in *. clear Hnav.
  fold (sidecar fileName). unfold bind, try_catch.
  pose proof (removeEntry_keeps dirSegments fileName st1 q (or_introl Hqf)) as Hk2.
  destruct (removeEntry_resolves dirSegments fileName st1 es Hloc)
    as (es2 & Hdir2 & _).
  destruct (removeEntry dirSegments fileName st1) as [[[] | e2] st2];
    simpl in Hk2, Hdir2 |- *.
  - pose proof (removeEntry_keeps dirSegments (sidecar fileName) st2 q
                  (or_introl Hqs)) as Hk3.
    destruct (removeEntry_resolves dirSegments (sidecar fileName) st2 es2 Hdir2)
      as (es3 & Hdir3 & _).
    destruct (removeEntry dirSegments (sidecar fileName) st2) as [[[] | e3] st3];
      simpl in Hk3, Hdir3 |- *.
    + pose proof (cleanEmptyDirs_keeps dirSegments st3 es3 q Hdir3) as Hk4.
      destruct (OPFSFileSystem.cleanEmptyDirs dirSegments st3) as [[[] | e4] st4];
        simpl in *; congruence.
    + unfold OPFSFileSystem.rethrow_unless_not_found.
      destruct (isNotFound e3); simpl; [| congruence].
      pose proof (cleanEmptyDirs_keeps dirSegments st3 es3 q Hdir3) as Hk4.
      destruct (OPFSFileSystem.cleanEmptyDirs dirSegments st3) as [[[] | e4] st4];
        simpl in *; congruence.
  - unfold OPFSFileSystem.rethrow_unless_not_found.
    destruct (isNotFound e2); simpl; [| congruence].
    pose proof (removeEntry_keeps dirSegments (sidecar fileName) st2 q
                  (or_introl Hqs)) as Hk3.
    destruct (removeEntry dirSegments (sidecar fileName) st2) as [[[] | e3] st3];
      simpl in Hk3 |- *; [congruence |].
    destruct (isNotFound e3); simpl; congruence.
Qed.

Section DeleteFrame.
Context `{URLParser} `{JSON}.

(** X10. [delete] changes no file but the data file and the sidecar of
    its entry: every other file of the storage holds after it what it
    held before, whatever the storage and whether [delete] returns or
    throws. So for another entry, with its data file and its sidecar
    stored, [match] returns after the [delete] what it returned before,
    as long as neither file of the one entry is a file of the other. *)
Theorem delete_keeps_other_files (st : storage) (dirSegments : list string)
    (fileName : string) :
  (forall q,
     q <> dirSegments ++ [fileName] ->
     q <> dirSegments ++ [sidecar fileName] ->
     file_content (Dir (root (snd (OPFSFileSystem.delete dirSegments fileName st)))) q
     = file_content (Dir (root st)) q) /\
  (forall other p data text,
     resolvePath other = Ok p ->
     file_content (Dir (root st)) (dir p ++ [file p]) = Some data ->
     file_content (Dir (root st)) (dir p ++ [sidecar (file p)]) = Some text ->
     dirSegments ++ [fileName] <> dir p ++ [file p] ->
     dirSegments ++ [fileName] <> dir p ++ [sidecar (file p)] ->
     dirSegments ++ [sidecar fileName] <> dir p ++ [file p] ->
     fst (OPFSCache.match_ other
            (snd (OPFSFileSystem.delete dirSegments fileName st)))
     = fst (OPFSCache.match_ other st)).
Proof.
  split; [intros q; apply delete_untouched |].
  intros other p data text Hp Hdata Htext Hff Hfs Hsf.
  assert (Hss : dirSegments ++ [sidecar fileName] <> dir p ++ [sidecar (file p)]).
  { intros [Hd Hs]%app_inj_tail. apply sidecar_inj in Hs. apply Hff. congruence. }
  rewrite (match_of_files other p st data text Hp Hdata Htext).
  apply (match_of_files other p _ data text Hp).
  - rewrite delete_untouched by congruence. exact Hdata.
  - rewrite delete_untouched by congruence. exact Htext.
Qed.

End DeleteFrame.

(** ** After [delete] *)

Lemma isNotFound_true (e : exn) : isNotFound e = true -> e = NotFoundError.
Proof.
  destruct e as [m | m | m | | name]; simpl; try discriminate.
  now intros ->%String.eqb_eq.
Qed.

Lemma locate_app (d es : directory) (h k : handle) :
  resolve_dir d h = Some es -> locate d (h ++ k) = locate es k.
Proof.
  revert d. induction h as [| seg h IH]; intros d; simpl.
  - now intros [= ->].
  - destruct (d !! seg) as [[data | sub] |]; try discriminate. apply IH.
Qed.

Lemma removeEntry_cuts (h : handle) (name : string) (rest : list string)
    (st : storage) :
  fst (removeEntry h name st) = Ok tt ->
  locate (root (snd (removeEntry h name st))) (h ++ name :: rest) = Ok None.
Proof.
  unfold removeEntry.
  destruct (perform_root (RemoveEntry h name) (removeEntry_on h name) st)
    as [-> ->].
  unfold removeEntry_on.
  destruct (resolve_dir (root st) h) as [es |] eqn:Hes; [| discriminate].
  assert (Hcut : locate (modify_dir (delete name) h (root st)) (h ++ name :: rest)
                 = Ok None).
  { rewrite (locate_app _ (delete name es)) by now apply resolve_modify_dir.
    simpl. now rewrite lookup_delete_eq. }
  destruct (es !! name) as [[data | sub] |]; simpl; [auto | | discriminate].
  case_bool_decide; simpl; [auto | discriminate].
Qed.

Lemma remove_upwards_outcome (segs : list string) (steps : list (handle * string))
    (st : storage) :
  Forall (fun step => exists rest, segs = step.1 ++ step.2 :: rest) steps ->
  root (snd (OPFSFileSystem.remove_upwards steps st)) = root st \/
  locate (root (snd (OPFSFileSystem.remove_upwards steps st))) segs = Ok None.
Proof.
  revert st. induction steps as [| [parent seg] steps IH]; intros st Hsteps;
    [now left |].
  apply Forall_cons in Hsteps as [[rest Hstep] Hsteps]. simpl in Hstep. simpl.
  pose proof (removeEntry_cuts parent seg rest st) as Hcut.
  destruct (removeEntry parent seg st) as [[[] | e] st1] eqn:Hrm; simpl in *.
  - destruct (IH st1 Hsteps) as [Hsame | Hnone]; [| now right].
    right. rewrite Hsame, Hstep. apply Hcut. reflexivity.
  - left. exact (removeEntry_error st st1 parent seg e Hrm).
Qed.

Lemma cleanEmptyDirs_outcome (segs : list string) (st : storage) (es : directory) :
  resolve_dir (root st) segs = Some es ->
  root (snd (OPFSFileSystem.cleanEmptyDirs segs st)) = root st \/
  locate (root (snd (OPFSFileSystem.cleanEmptyDirs segs st))) segs = Ok None.
Proof.
  intros Hes. unfold OPFSFileSystem.cleanEmptyDirs.
  destruct segs as [| seg rest] eqn:Hsegs; [now left |].
  rewrite <- Hsegs in *.
  assert (Hne : segs <> []) by (rewrite Hsegs; discriminate).
  replace (length segs =? 0)%nat with false by (rewrite Hsegs; reflexivity).
  erewrite bind_ok by reflexivity.
  destruct (resolve_dir_firstn _ _ _ (length segs - 1) Hes) as (es' & Hfront).
  destruct (collect_parents_found (firstn (length segs - 1) segs) [] [[]] st es'
              Hfront) as (st1 & Hroot1 & _ & Hcollect).
  erewrite bind_ok by exact Hcollect. cbv beta iota.
  change ([[]] ++ below [] (firstn (length segs - 1) segs))
    with ([] :: below [] (firstn (length segs - 1) segs)).
  rewrite (steps_climb segs [] Hne), <- Hroot1.
  apply remove_upwards_outcome. apply (climb_from_prefixes segs []).
Qed.

(** A removal that returns, or that finds nothing to remove, leaves
    the directory without the name and with its other entries. *)
Lemma removeEntry_gone (h : handle) (name : string) (st : storage)
    (es : directory) :
  resolve_dir (root st) h = Some es ->
  exists es',
    resolve_dir (root (snd (removeEntry h name st))) h = Some es' /\
    (forall other, other <> name -> es' !! other = es !! other) /\
    (fst (removeEntry h name st) = Ok tt \/
     fst (removeEntry h name st) = Err NotFoundError ->
     es' !! name = None).
Proof.
  intros Hes.
  destruct (removeEntry_resolves h name st es Hes)
    as (es' & Hdir & Hes' & Hok & Hnf).
  exists es'. split; [exact Hdir |]. split.
  - intros other Hne. destruct Hes' as [-> | ->]; [reflexivity |].
    now apply lookup_delete_ne.
  - intros [Hr | Hr].
    + rewrite (Hok Hr). apply lookup_delete_eq.
    + specialize (Hnf Hr). destruct Hes' as [-> | ->];
        [exact Hnf | apply lookup_delete_eq].
Qed.

(** Where [delete] returns, the entry is not there any more. *)
Lemma delete_leaves_absent (st : storage) (dirSegments : list string)
    (fileName : string) (existed : bool) :
  fst (OPFSFileSystem.delete dirSegments fileName st) = Ok existed ->
  absent (root (snd (OPFSFileSystem.delete dirSegments fileName st)))
    dirSegments fileName.
Proof.
  unfold OPFSFileSystem.delete.
  destruct (navigate_locate dirSegments st) as (st1 & [Hr1 _] & Hnav).
  destruct (locate (root st) dirSegments) as [[es |] | e] eqn:Hloc.
  2:{ rewrite (bind_ok _ _ _ _ _ Hnav). intros _. left. simpl. now rewrite Hr1. }
  2:{ rewrite (bind_err _ _ _ _ _ Hnav). discriminate. }
  rewrite (bind_ok _ _ _ _ _ Hnav). cbv beta iota.
  apply locate_found in Hloc. rewrite <- Hr1 in *. clear Hnav.
  fold (sidecar fileName). unfold bind, try_catch.
  destruct (removeEntry_gone dirSegments fileName st1 es Hloc)
    as (es2 & Hdir2 & _ & Hgone2).
  assert (Hthen : forall st2,
            resolve_dir (root st2) dirSegments = Some es2 ->
            es2 !! fileName = None ->
            forall st4,
              (fst (removeEntry dirSegments (sidecar fileName) st2) = Ok tt \/
               fst (removeEntry dirSegments (sidecar fileName) st2)
               = Err NotFoundError) ->
              root st4 = root (snd (removeEntry dirSegments (sidecar fileName) st2)) \/
              locate (root st4) dirSegments = Ok None ->
              absent (root st4) dirSegments fileName).
  { intros st2 Hdir Hnone st4 Hsecond [Hsame | Hcut]; [| now left].
    destruct (removeEntry_gone dirSegments (sidecar fileName) st2 es2 Hdir)
      as (es3 & Hdir3 & Hother3 & Hgone3).
    right. exists es3. rewrite Hsame. split; [exact Hdir3 |]. split.
    - rewrite Hother3 by (apply not_eq_sym, sidecar_neq). exact Hnone.
    - now apply Hgone3. }
  destruct (removeEntry dirSegments fileName st1) as [[[] | e2] st2];
    simpl in Hdir2, Hgone2 |- *.
  - specialize (Hthen st2 Hdir2 (Hgone2 (or_introl eq_refl))).
    destruct (removeEntry_resolves dirSegments (sidecar fileName) st2 es2 Hdir2)
      as (es3 & Hdir3 & _).
    destruct (removeEntry dirSegments (sidecar fileName) st2) as [[[] | e3] st3];
      simpl in Hdir3, Hthen |- *.
    + intros _.
      pose proof (cleanEmptyDirs_outcome dirSegments st3 es3 Hdir3) as Hout.
      destruct (OPFSFileSystem.cleanEmptyDirs dirSegments st3) as [[[] | e4] st4];
        simpl in *; apply Hthen; auto.
    + unfold OPFSFileSystem.rethrow_unless_not_found.
      destruct (isNotFound e3) eqn:He3; simpl; [| discriminate].
      apply isNotFound_true in He3 as ->. intros _.
      pose proof (cleanEmptyDirs_outcome dirSegments st3 es3 Hdir3) as Hout.
      destruct (OPFSFileSystem.cleanEmptyDirs dirSegments st3) as [[[] | e4] st4];
        simpl in *; apply Hthen; auto.
  - unfold OPFSFileSystem.rethrow_unless_not_found.
    destruct (isNotFound e2) eqn:He2; simpl; [| discriminate].
    apply isNotFound_true in He2 as ->.
    specialize (Hthen st2 Hdir2 (Hgone2 (or_intror eq_refl))).
    destruct (removeEntry dirSegments (sidecar fileName) st2) as [[[] | e3] st3];
      simpl in Hthen |- *.
    + intros _. apply Hthen; auto.
    + destruct (isNotFound e3) eqn:He3; simpl; [| discriminate].
      apply isNotFound_true in He3 as ->. intros _. apply Hthen; auto.
Qed.

Lemma delete_absent (st : storage) (dirSegments : list string) (fileName : string) :
  absent (root st) dirSegments fileName ->
  fst (OPFSFileSystem.delete dirSegments fileName st) = Ok false /\
  root (snd (OPFSFileSystem.delete dirSegments fileName st)) = root st.
Proof.
  intros [Hloc | (es & Hdir & Hfile & Hmeta)]; unfold OPFSFileSystem.delete.
  - destruct (navigate_locate dirSegments st) as (st1 & [Hr1 _] & Hnav).
    rewrite Hloc in Hnav. rewrite (bind_ok _ _ _ _ _ Hnav). auto.
  - destruct (navigate_found _ _ _ Hdir) as (st1 & [Hr1 _] & Hnav).
    rewrite (bind_ok _ _ _ _ _ Hnav). cbv beta iota.
    rewrite <- Hr1 in Hdir. fold (sidecar fileName).
    unfold bind, try_catch.
    rewrite (removeEntry_none _ _ _ _ Hdir Hfile). simpl.
    rewrite (removeEntry_none _ _ _ es); [| exact Hdir | exact Hmeta].
    simpl. auto.
Qed.

Section AfterDelete.
Context `{URLParser} `{JSON}.

Lemma readEntry_absent (st : storage) (dirSegments : list string)
    (fileName : string) :
  absent (root st) dirSegments fileName ->
  fst (OPFSFileSystem.readEntry dirSegments fileName st) = Ok None.
Proof.
  intros [Hloc | (es & Hdir & Hfile & _)].
  - now destruct (readEntry_no_directory st dirSegments fileName Hloc)
      as (st' & _ & ->).
  - now destruct (readEntry_no_file st dirSegments fileName es Hdir Hfile)
      as (st' & _ & ->).
Qed.

Lemma exists_absent (st : storage) (dirSegments : list string)
    (fileName : string) :
  absent (root st) dirSegments fileName ->
  fst (OPFSFileSystem.exists_ dirSegments fileName st) = Ok false.
Proof.
  intros [Hloc | (es & Hdir & Hfile & _)].
  - unfold OPFSFileSystem.exists_.
    destruct (navigate_locate dirSegments st) as (st1 & _ & Hnav).
    rewrite Hloc in Hnav. now rewrite (bind_ok _ _ _ _ _ Hnav).
  - destruct (exists_found st dirSegments fileName es Hdir) as (st' & _ & ->);
      [now rewrite Hfile |].
    unfold data_file_present. now rewrite Hfile.
Qed.

(** X11. After a [delete] that returns, the entry is gone: [match] on
    the key is a miss, [keys] asked for the key returns no request, and
    a second [delete] returns false and changes nothing. *)
Theorem deleted_entry_is_gone (request : RequestInfo) (st : storage)
    (existed : bool) :
  fst (OPFSCache.delete request st) = Ok existed ->
  fst (OPFSCache.match_ request (snd (OPFSCache.delete request st))) = Ok None /\
  fst (OPFSCache.keys (Some request) (snd (OPFSCache.delete request st))) = Ok [] /\
  fst (OPFSCache.delete request (snd (OPFSCache.delete request st))) = Ok false /\
  root (snd (OPFSCache.delete request (snd (OPFSCache.delete request st))))
  = root (snd (OPFSCache.delete request st)).
Proof.
  unfold OPFSCache.delete, OPFSCache.match_, OPFSCache.keys.
  destruct (resolvePath request) as [p | e] eqn:Hres.
  - rewrite !(resolved_ok _ _ _ _ _ Hres).
    intros Habsent%delete_leaves_absent.
    set (st' := snd (OPFSFileSystem.delete (dir p) (file p) st)) in *.
    destruct (delete_absent st' _ _ Habsent) as [Hfalse Hroot].
    pose proof (readEntry_absent st' _ _ Habsent) as Hread.
    pose proof (exists_absent st' _ _ Habsent) as Hexists.
    unfold bind.
    destruct (OPFSFileSystem.readEntry (dir p) (file p) st') as [r1 s1].
    destruct (OPFSFileSystem.exists_ (dir p) (file p) st') as [r2 s2].
    simpl in *. subst r1 r2. auto.
  - rewrite (resolved_error _ _ _ _ _ Hres). discriminate.
Qed.

End AfterDelete.

(** X11 on the entry of the tests. *)
Lemma delete_twice_on_a_stored_entry :
  fst (OPFSCache.match_ (ReqString "/data")
         (snd (OPFSCache.delete (ReqString "/data") stored))) = Ok None /\
  fst (OPFSCache.keys (Some (ReqString "/data"))
         (snd (OPFSCache.delete (ReqString "/data") stored))) = Ok [] /\
  fst (OPFSCache.delete (ReqString "/data")
         (snd (OPFSCache.delete (ReqString "/data") stored))) = Ok false /\
  root (snd (OPFSCache.delete (ReqString "/data")
               (snd (OPFSCache.delete (ReqString "/data") stored))))
  = root (snd (OPFSCache.delete (ReqString "/data") stored)).
Proof.
  apply (deleted_entry_is_gone (ReqString "/data") stored true).
  vm_compute. reflexivity.
Defined.

Lemma sidecar_sidecar_neq (fileName : string) :
  sidecar (sidecar fileName) <> fileName.
Proof.
  intros Heq. apply (f_equal String.length) in Heq.
  unfold sidecar in Heq. rewrite !length_app_str in Heq. simpl in Heq. lia.
Qed.

Section Composition.
Context `{URLParser} `{JSON}.

(** X12. On an empty cache, a [put] that completes and a [delete] on
    the key after it leave the cache empty again: [delete] returns true,
    and the directories [put] made are pruned with the two files. *)
Theorem put_then_delete_leaves_empty_cache (request : RequestInfo)
    (response : Response.t) :
  fst (OPFSCache.put request response Storage.empty) = Ok tt ->
  fst (OPFSCache.delete request (snd (OPFSCache.put request response Storage.empty)))
  = Ok true /\
  root (snd (OPFSCache.delete request
               (snd (OPFSCache.put request response Storage.empty)))) = ∅.
Proof.
  intros Hput.
  destruct (put_completed _ _ _ Hput) as (p & Hres & Hbody & _).
  rewrite (put_writes _ _ _ _ Hres Hbody).
  destruct (write_on_empty (dir p) (file p) (Response.body response)
              (meta_of response)) as [_ Hroot].
  unfold OPFSCache.delete. rewrite (resolved_ok _ _ _ _ _ Hres).
  destruct (only_entry_pruned (dir p) (file p) _ _ _ Hroot)
    as (st' & -> & Hempty & _).
  auto.
Qed.

(** X13. The key whose file name is that of another key's sidecar takes
    the sidecar's place: after a [put] on a key and a [put] on the key
    with ".meta" appended, both completed, [match] on the first reads
    the body of the second as its metadata. It throws a [SyntaxError]
    where that body is no JSON, and else hands the constructor of the
    response the status, the status text and the headers the body
    gives. *)
Theorem put_on_sidecar_name_replaces_metadata (request other : RequestInfo)
    (p : ResolvedPath) (first second : Response.t) (st : storage) :
  resolvePath request = Ok p ->
  resolvePath other = Ok (mkResolvedPath (dir p) (sidecar (file p))) ->
  let st1 := snd (OPFSCache.put request first st) in
  let st2 := snd (OPFSCache.put other second st1) in
  fst (OPFSCache.put request first st) = Ok tt ->
  fst (OPFSCache.put other second st1) = Ok tt ->
  fst (OPFSCache.match_ request st2)
  = match JSON_parse (Response.bytes second) with
    | Some meta => matched (Response.bytes first) (Some meta)
    | None => Err SyntaxError
    end.
Proof.
  intros Hp Ho st1 st2 Hput1 Hput2.
  destruct (put_completed _ _ _ Hput1) as (p1 & Hp1 & Hfirst & Hw).
  destruct (put_completed _ _ _ Hput2) as (p2 & Hp2 & Hsecond & Hw1).
  rewrite Hp in Hp1. injection Hp1 as <-.
  rewrite Ho in Hp2. injection Hp2 as <-. cbn [dir file] in Hw1.
  subst st2. revert Hw1. subst st1.
  rewrite (put_writes _ _ _ _ Ho Hsecond), (put_writes _ _ _ _ Hp Hfirst).
  cbn [dir file].
  destruct (write_succeeds st (dir p) (file p) (Response.body first)
              (meta_of first) Hw) as (st1 & Hwrite1 & Hdir1).
  rewrite Hwrite1. cbn [snd]. intros Hw1.
  destruct (write_succeeds st1 (dir p) (sidecar (file p)) (Response.body second)
              (meta_of second) Hw1) as (st2 & Hwrite2 & Hdir2).
  rewrite Hwrite2. cbn [fst snd].
  rewrite Hdir1 in Hdir2. cbn [from_option id] in Hdir2.
  apply (match_of_files request p st2); [exact Hp | |].
  - apply file_content_lookup. eexists. split; [exact Hdir2 |].
    rewrite (lookup_insert_ne _ (sidecar (file p)) (file p)) by apply sidecar_neq.
    rewrite (lookup_insert_ne _ (sidecar (sidecar (file p))) (file p))
      by apply sidecar_sidecar_neq.
    now rewrite lookup_insert_eq.
  - apply file_content_lookup. eexists. split; [exact Hdir2 |].
    now rewrite lookup_insert_eq.
Qed.

End Composition.

Section ListingAndOrder.
Context `{URLParser} `{JSON}.

(** X14. On every storage, [keys] without a key returns one request
    for each path that [list] returns, and [list] returns every path to
    a file whose name does not end in ".meta" once, and nothing else. *)
Theorem keys_lists_the_files (st : storage) :
  exists paths,
    fst (OPFSFileSystem.list st) = Ok paths /\
    fst (OPFSCache.keys None st)
    = Ok (map (fun segs => mkRequest ("/" +:+ join "/" segs)) paths) /\
    NoDup paths /\
    forall p,
      p ∈ paths
      <-> (exists data, file_content (Dir (root st)) p = Some data) /\
          endsWith (List.last p EmptyString) OPFSFileSystem.META_SUFFIX = false.
Proof.
  exists (OPFSFileSystem.walk (root st) []).
  split; [reflexivity |]. split; [reflexivity |]. split; [apply walk_NoDup |].
  intros p. now rewrite walk_files, file_at_content.
Qed.

Lemma navigation_on_no_file (f : file_handle) (e : entry) :
  is_navigation e -> on_file f (made e) = false.
Proof. intros (h & name & create & ->). reflexivity. Qed.

(** X15. In the journal of a completed [write], every call on the
    sidecar comes before every call on the data file: the sidecar's
    [close] has returned, with the metadata in the sidecar, and only
    the next call asks for the data file. *)
Theorem sidecar_calls_come_first (st : storage) (dirSegments : list string)
    (fileName : string) (body : option string) (meta : CacheEntryMeta) :
  writable_at (root st) dirSegments fileName = true ->
  exists calls closing,
    journal (snd (OPFSFileSystem.write dirSegments fileName body meta st))
    = journal st ++ calls /\
    (forall i j ei ej,
       calls !! i = Some ei -> calls !! j = Some ej ->
       on_file (mkFileHandle dirSegments (sidecar fileName)) (made ei) = true ->
       on_file (mkFileHandle dirSegments fileName) (made ej) = true ->
       i < j) /\
    (exists e,
       calls !! closing = Some e /\
       made e = WritableClose (mkFileHandle dirSegments (sidecar fileName)) /\
       returned e = true /\
       file_content (Dir (content e)) (dirSegments ++ [sidecar fileName])
       = Some (JSON_stringify meta)) /\
    (exists e,
       calls !! S closing = Some e /\
       made e = GetFileHandle dirSegments fileName true) /\
    (forall j ej,
       calls !! j = Some ej ->
       on_file (mkFileHandle dirSegments fileName) (made ej) = true ->
       closing < j).
Proof.
  intros Hwritable.
  destruct (write_commits_sidecar_first st dirSegments fileName body meta Hwritable)
    as (walk_down & d2 & d3 & d4 & d5 & Hwalk & Hwrite & Hdir3).
  set (side := mkFileHandle dirSegments (sidecar fileName)).
  set (data := mkFileHandle dirSegments fileName).
  assert (Hne : side <> data).
  { unfold side, data. intros [= Heq]. now apply sidecar_neq in Heq. }
  assert (Hdata_side :
            Forall (fun e => on_file side (made e) = false)
                   (data_calls dirSegments fileName body d4 d5)).
  { unfold data_calls. fold data.
    destruct body; cbn [app]; repeat apply List.Forall_cons;
      try apply List.Forall_nil; simpl; apply bool_decide_eq_false_2;
      intros Heq; apply Hne; symmetry; exact Heq. }
  assert (Hside_data :
            Forall (fun e => on_file data (made e) = false)
                   (sidecar_calls dirSegments fileName (JSON_stringify meta) d2 d3)).
  { unfold sidecar_calls. fold side.
    repeat apply List.Forall_cons; try apply List.Forall_nil; simpl;
      apply bool_decide_eq_false_2; exact Hne. }
  assert (Hlate : forall j ej,
            (walk_down
               ++ sidecar_calls dirSegments fileName (JSON_stringify meta) d2 d3
               ++ data_calls dirSegments fileName body d4 d5) !! j = Some ej ->
            on_file data (made ej) = true ->
            length walk_down + 4 <= j).
  { intros j ej Hj Hon.
    apply lookup_app_Some in Hj as [Hj | [Hlen Hj]].
    - apply list_elem_of_lookup_2 in Hj.
      pose proof (proj1 (Forall_forall _ _) Hwalk ej Hj) as Hnav.
      rewrite (navigation_on_no_file data ej Hnav) in Hon. discriminate.
    - apply lookup_app_Some in Hj as [Hj | [Hlen' Hj]].
      + apply list_elem_of_lookup_2 in Hj.
        pose proof (proj1 (Forall_forall _ _) Hside_data ej Hj). congruence.
      + simpl in Hlen'. lia. }
  assert (Hearly : forall i ei,
            (walk_down
               ++ sidecar_calls dirSegments fileName (JSON_stringify meta) d2 d3
               ++ data_calls dirSegments fileName body d4 d5) !! i = Some ei ->
            on_file side (made ei) = true ->
            i < length walk_down + 4).
  { intros i ei Hi Hon.
    apply lookup_app_Some in Hi as [Hi | [Hlen Hi]].
    - apply lookup_lt_Some in Hi. lia.
    - apply lookup_app_Some in Hi as [Hi | [Hlen' Hi]].
      + apply lookup_lt_Some in Hi. simpl in Hi. lia.
      + apply list_elem_of_lookup_2 in Hi.
        pose proof (proj1 (Forall_forall _ _) Hdata_side ei Hi). congruence. }
  exists (walk_down
            ++ sidecar_calls dirSegments fileName (JSON_stringify meta) d2 d3
            ++ data_calls dirSegments fileName body d4 d5),
         (length walk_down + 3).
  split; [now rewrite Hwrite |]. split; [| split; [| split]].
  - intros i j ei ej Hi Hj Hsi Hdj.
    specialize (Hearly i ei Hi Hsi). specialize (Hlate j ej Hj Hdj). lia.
  - exists (mkEntry (WritableClose side) true d3).
    split; [| split; [reflexivity | split; [reflexivity |]]].
    + rewrite lookup_app_r by lia.
      replace (length walk_down + 3 - length walk_down) with 3 by lia.
      reflexivity.
    + simpl. apply file_content_lookup. eexists. split; [exact Hdir3 |].
      apply lookup_insert_eq.
  - exists (mkEntry (GetFileHandle dirSegments fileName true) true d4).
    split; [| reflexivity].
    rewrite lookup_app_r by lia.
    replace (S (length walk_down + 3) - length walk_down) with 4 by lia.
    reflexivity.
  - intros j ej Hj Hdj. specialize (Hlate j ej Hj Hdj). lia.
Qed.

(** X16. A key whose entry is not there is a miss, where the names of
    its directories are names the platform takes. Where a directory of
    the key's path is missing, [match] returns nothing, [keys] asked for
    the key returns no request, and [delete] returns false and changes
    nothing, whatever the file name of the key is. Where the directories
    are there and the last one holds neither the data file nor the
    sidecar, it is so for a file name that the platform takes. On the
    empty cache [keys] returns no request at all. *)
Theorem missing_key_is_a_miss (request : RequestInfo) (p : ResolvedPath)
    (st : storage) :
  resolvePath request = Ok p ->
  (absent (root st) (dir p) (file p) ->
   Forall (fun seg => portable_name seg = true) (dir p) ->
   locate (root st) (dir p) = Ok None \/ portable_name (file p) = true ->
   fst (OPFSCache.match_ request st) = Ok None /\
   fst (OPFSCache.keys (Some request) st) = Ok [] /\
   fst (OPFSCache.delete request st) = Ok false /\
   root (snd (OPFSCache.delete request st)) = root st) /\
  fst (OPFSCache.keys None Storage.empty) = Ok [].
Proof.
  intros Hres. split; [| reflexivity].
  intros Habsent _ _.
  pose proof (readEntry_absent _ _ _ Habsent) as Hread.
  pose proof (exists_absent _ _ _ Habsent) as Hexists.
  destruct (delete_absent _ _ _ Habsent) as [Hdelete Hroot].
  unfold OPFSCache.match_, OPFSCache.delete, OPFSCache.keys.
  rewrite !(resolved_ok _ _ _ _ _ Hres). unfold bind.
  destruct (OPFSFileSystem.readEntry (dir p) (file p) st) as [r1 s1].
  destruct (OPFSFileSystem.exists_ (dir p) (file p) st) as [r2 s2].
  simpl in Hread, Hexists. subst r1 r2. simpl.
  repeat split; assumption.
Qed.

End ListingAndOrder.

(** X8 on a file in the way, on a directory under the sidecar's name
    and on a directory under the data file's name. *)
Lemma failed_writes_on_taken_names :
  (exists st',
     OPFSFileSystem.write ["a"] "f" (Some "x") plain_meta
       (mkStorage {[ "a" := File "in the way" ]} [])
     = (Err TypeMismatchError, st') /\
     root st' = {[ "a" := File "in the way" ]}) /\
  (exists st',
     OPFSFileSystem.write [] "f" (Some "x") plain_meta
       (mkStorage {[ "f.meta" := Dir ∅ ]} [])
     = (Err TypeMismatchError, st') /\
     root st' = {[ "f.meta" := Dir ∅ ]}) /\
  (exists st',
     OPFSFileSystem.write [] "a" (Some "x") plain_meta directory_in_the_way
     = (Err TypeMismatchError, st') /\
     root st'
     = <["a.meta" := File (JSON_stringify plain_meta)]> {[ "a" := Dir ∅ ]}).
Proof.
  split; [| split].
  - destruct (failed_write_is_not_undone
                (mkStorage {[ "a" := File "in the way" ]} []) ["a"] "f" (Some "x")
                plain_meta) as (Hblocked & _ & _).
    apply Hblocked. vm_compute. reflexivity.
  - destruct (failed_write_is_not_undone
                (mkStorage {[ "f.meta" := Dir ∅ ]} []) [] "f" (Some "x")
                plain_meta) as (_ & Hsidecar & _).
    apply (Hsidecar {[ "f.meta" := Dir ∅ ]} ∅); vm_compute; reflexivity.
  - destruct (failed_write_is_not_undone directory_in_the_way [] "a" (Some "x")
                plain_meta) as (_ & _ & Hdata).
    apply (Hdata {[ "a" := Dir ∅ ]} ∅); vm_compute; reflexivity.
Defined.

(** X20 on the key of the tests. *)
Lemma round_trip_of_hello :
  fst (OPFSCache.match_ (ReqString data_url)
         (snd (OPFSCache.put (ReqString data_url) hello Storage.empty)))
  = Ok (Some (as_matched hello)) /\
  root (snd (OPFSCache.match_ (ReqString data_url)
               (snd (OPFSCache.put (ReqString data_url) hello Storage.empty))))
  = root (snd (OPFSCache.put (ReqString data_url) hello Storage.empty)).
Proof.
  apply (rebuildable_response_round_trip (ReqString data_url) hello Storage.empty);
    vm_compute; reflexivity.
Defined.

(** X7 on the directory under the name of the data file. *)
Lemma write_blocked_by_a_directory :
  fst (OPFSFileSystem.write [] "a" (Some "x") plain_meta directory_in_the_way)
  = Err TypeMismatchError.
Proof.
  destruct (write_throws_where_blocked directory_in_the_way [] "a" (Some "x")
              plain_meta) as [Hblocked _].
  apply Hblocked. vm_compute. reflexivity.
Defined.

(** X10 on a file and on a stored entry beside the entry that is
    deleted. *)
Lemma delete_beside_a_stored_entry :
  file_content
    (Dir (root (snd (OPFSFileSystem.delete ["a"] "y"
                       (snd (OPFSCache.put (ReqString "/a/y") gone
                               (snd (OPFSCache.put (ReqString "/a/x") hello
                                       Storage.empty)))))))) ["a"; "x"]
  = Some "hello" /\
  fst (OPFSCache.match_ (ReqString "/a/x")
         (snd (OPFSFileSystem.delete ["a"] "y"
                 (snd (OPFSCache.put (ReqString "/a/y") gone
                         (snd (OPFSCache.put (ReqString "/a/x") hello
                                 Storage.empty)))))))
  = fst (OPFSCache.match_ (ReqString "/a/x")
           (snd (OPFSCache.put (ReqString "/a/y") gone
                   (snd (OPFSCache.put (ReqString "/a/x") hello Storage.empty))))).
Proof.
  destruct (delete_keeps_other_files
              (snd (OPFSCache.put (ReqString "/a/y") gone
                      (snd (OPFSCache.put (ReqString "/a/x") hello Storage.empty))))
              ["a"] "y") as [Hfiles Hmatch].
  split.
  - rewrite (Hfiles ["a"; "x"]) by (vm_compute; discriminate).
    vm_compute. reflexivity.
  - apply (Hmatch (ReqString "/a/x") (mkResolvedPath ["a"] "x") "hello"
             (JSON_stringify (meta_of hello)));
      try (vm_compute; reflexivity); vm_compute; discriminate.
Defined.

(** X12 on the key of the tests. *)
Lemma put_then_delete_of_data_url :
  fst (OPFSCache.delete (ReqString data_url)
         (snd (OPFSCache.put (ReqString data_url) hello Storage.empty)))
  = Ok true /\
  root (snd (OPFSCache.delete (ReqString data_url)
               (snd (OPFSCache.put (ReqString data_url) hello Storage.empty))))
  = ∅.
Proof.
  apply (put_then_delete_leaves_empty_cache (ReqString data_url) hello).
  vm_compute. reflexivity.
Defined.

(** X13 on the keys "/x" and "/x.meta": the body "new" is no JSON, and
    a body that reads as a sidecar with the status 204 is taken for the
    metadata of "/x", which the constructor then refuses. *)
Lemma put_on_the_sidecar_of_x :
  fst (OPFSCache.match_ (ReqString "/x")
         (snd (OPFSCache.put (ReqString "/x.meta") gone
                 (snd (OPFSCache.put (ReqString "/x") hello Storage.empty)))))
  = Err SyntaxError /\
  is_type_error
    (fst (OPFSCache.match_ (ReqString "/x")
            (snd (OPFSCache.put (ReqString "/x.meta") sidecar_like
                    (snd (OPFSCache.put (ReqString "/x") hello Storage.empty)))))).
Proof.
  split.
  - pose proof (put_on_sidecar_name_replaces_metadata (ReqString "/x")
                  (ReqString "/x.meta") (mkResolvedPath [] "x") hello gone
                  Storage.empty) as Hmatch.
    cbv zeta in Hmatch.
    rewrite Hmatch by (vm_compute; reflexivity). vm_compute. reflexivity.
  - pose proof (put_on_sidecar_name_replaces_metadata (ReqString "/x")
                  (ReqString "/x.meta") (mkResolvedPath [] "x") hello sidecar_like
                  Storage.empty) as Hmatch.
    cbv zeta in Hmatch.
    rewrite Hmatch by (vm_compute; reflexivity).
    unfold is_type_error. vm_compute. eexists. reflexivity.
Defined.

(** X15 on the first write of an entry in the root. *)
Lemma sidecar_calls_of_a_first_write :
  exists calls closing,
    journal (snd (OPFSFileSystem.write [] "data" (Some "x") plain_meta Storage.empty))
    = journal Storage.empty ++ calls /\
    (forall i j ei ej,
       calls !! i = Some ei -> calls !! j = Some ej ->
       on_file (mkFileHandle [] (sidecar "data")) (made ei) = true ->
       on_file (mkFileHandle [] "data") (made ej) = true ->
       i < j) /\
    (exists e,
       calls !! closing = Some e /\
       made e = WritableClose (mkFileHandle [] (sidecar "data")) /\
       returned e = true /\
       file_content (Dir (content e)) ([] ++ [sidecar "data"])
       = Some (JSON_stringify plain_meta)) /\
    (exists e,
       calls !! S closing = Some e /\
       made e = GetFileHandle [] "data" true) /\
    (forall j ej,
       calls !! j = Some ej ->
       on_file (mkFileHandle [] "data") (made ej) = true ->
       closing < j).
Proof.
  apply (sidecar_calls_come_first Storage.empty [] "data" (Some "x") plain_meta).
  vm_compute. reflexivity.
Defined.

(** X17 on the first write of an entry under a/b. *)
Lemma first_write_cut_short :
  exists cut,
    cut_short Storage.empty (WritableClose (mkFileHandle ["a"; "b"] (sidecar "f")))
      (snd (OPFSFileSystem.write ["a"; "b"] "f" (Some "x") plain_meta Storage.empty))
    = Some cut /\
    fst (OPFSFileSystem.exists_ ["a"; "b"] "f" cut) = Ok false /\
    fst (OPFSFileSystem.readEntry ["a"; "b"] "f" cut) = Ok None /\
    forall request,
      resolvePath request = Ok (mkResolvedPath ["a"; "b"] "f") ->
      fst (OPFSCache.match_ request cut) = Ok None.
Proof.
  apply (new_entry_cut_short_is_a_miss Storage.empty ["a"; "b"] "f" (Some "x")
           plain_meta);
    vm_compute; reflexivity.
Defined.

(** X18 on the first [put] of the key of the tests. *)
Lemma keys_after_put_of_data_url :
  fst (OPFSCache.keys None (snd (OPFSCache.put (ReqString data_url) hello
                                   Storage.empty)))
  = Ok (map (fun segs => mkRequest ("/" +:+ join "/" segs))
          (OPFSFileSystem.walk
             (root (snd (OPFSCache.put (ReqString data_url) hello Storage.empty)))
             [])) /\
  NoDup (OPFSFileSystem.walk
           (root (snd (OPFSCache.put (ReqString data_url) hello Storage.empty))) []) /\
  (forall q,
     q ∈ OPFSFileSystem.walk
           (root (snd (OPFSCache.put (ReqString data_url) hello Storage.empty))) []
     <-> (q = [] ++ ["data"]
          /\ endsWith "data" OPFSFileSystem.META_SUFFIX = false)
         \/ q ∈ OPFSFileSystem.walk (root Storage.empty) []) /\
  (forall q,
     q ∈ OPFSFileSystem.walk
           (root (snd (OPFSCache.put (ReqString data_url) hello Storage.empty))) [] ->
     endsWith (List.last q EmptyString) OPFSFileSystem.META_SUFFIX = false).
Proof.
  apply (keys_after_put (ReqString data_url) (mkResolvedPath [] "data") hello
           Storage.empty);
    vm_compute; reflexivity.
Defined.

(** X16 on the key of the tests and the empty cache. *)
Lemma empty_cache_holds_no_data_url :
  fst (OPFSCache.match_ (ReqString data_url) Storage.empty) = Ok None /\
  fst (OPFSCache.keys (Some (ReqString data_url)) Storage.empty) = Ok [] /\
  fst (OPFSCache.delete (ReqString data_url) Storage.empty) = Ok false /\
  root (snd (OPFSCache.delete (ReqString data_url) Storage.empty))
  = root Storage.empty.
Proof.
  destruct (missing_key_is_a_miss (ReqString data_url) (mkResolvedPath [] "data")
              Storage.empty) as (Hmiss & _).
  - vm_compute. reflexivity.
  - apply Hmiss.
    + right. exists ∅. now rewrite !lookup_empty.
    + constructor.
    + right. vm_compute. reflexivity.
Defined.

(** ** The listing after [delete] *)

Lemma absent_no_file (d : directory) (dirSegments : list string)
    (fileName : string) :
  absent d dirSegments fileName ->
  file_content (Dir d) (dirSegments ++ [fileName]) = None.
Proof.
  intros Habsent.
  destruct (file_content (Dir d) (dirSegments ++ [fileName])) as [data |] eqn:Hc;
    [| reflexivity].
  apply file_content_lookup in Hc as (es & Hdir & Hfile).
  destruct Habsent as [Hloc | (es' & Hdir' & Hnone & _)].
  - apply locate_found in Hdir. congruence.
  - congruence.
Qed.

Section ListingAfterDelete.
Context `{URLParser}.

(** X19. After a [delete] that returns, [keys()] lists what it listed
    before but for the path of the key: the entry leaves the listing
    and no other path does or comes in. *)
Theorem keys_after_delete (request : RequestInfo) (p : ResolvedPath)
    (st : storage) (existed : bool) :
  resolvePath request = Ok p ->
  fst (OPFSCache.delete request st) = Ok existed ->
  let st1 := snd (OPFSCache.delete request st) in
  fst (OPFSCache.keys None st1)
  = Ok (map (fun segs => mkRequest ("/" +:+ join "/" segs))
          (OPFSFileSystem.walk (root st1) [])) /\
  forall q,
    q ∈ OPFSFileSystem.walk (root st1) []
    <-> q ∈ OPFSFileSystem.walk (root st) [] /\ q <> dir p ++ [file p].
Proof.
  intros Hres. unfold OPFSCache.delete, OPFSCache.resolved. rewrite Hres.
  erewrite !bind_ok by reflexivity.
  intros Habsent%delete_leaves_absent%absent_no_file. cbv zeta.
  split; [reflexivity |]. intros q. rewrite !walk_files, !file_at_content.
  destruct (decide (q = dir p ++ [file p])) as [-> | Hqf].
  - rewrite Habsent. split.
    + intros [[data [=]] _].
    + intros [_ Hne]. congruence.
  - destruct (decide (q = dir p ++ [sidecar (file p)])) as [-> | Hqs].
    + rewrite last_snoc_default, endsWith_sidecar. split.
      * intros [_ [=]].
      * intros [[_ [=]] _].
    + rewrite (delete_untouched _ _ _ _ Hqf Hqs). tauto.
Qed.

End ListingAfterDelete.

(** X19 on the second of two entries of one directory. *)
Lemma keys_after_delete_of_one_of_two :
  fst (OPFSCache.keys None
         (snd (OPFSCache.delete (ReqString "/a/y")
                 (snd (OPFSCache.put (ReqString "/a/y") gone
                         (snd (OPFSCache.put (ReqString "/a/x") hello
                                 Storage.empty)))))))
  = Ok [mkRequest "/a/x"].
Proof.
  destruct (keys_after_delete (ReqString "/a/y") (mkResolvedPath ["a"] "y")
              (snd (OPFSCache.put (ReqString "/a/y") gone
                      (snd (OPFSCache.put (ReqString "/a/x") hello Storage.empty))))
              true) as [Hkeys _];
    [vm_compute; reflexivity | vm_compute; reflexivity |].
  rewrite Hkeys. vm_compute. reflexivity.
Defined.
